(** * alicloud-exporter: the client layer, the collectors and the scrape

    A shallow embedding of the Go packages [internal/client],
    [internal/collector] and [internal/exporter].  One Rocq module per Go
    package; a method [(x *T) M] is the definition [T_M].

    Conventions of the embedding.
    - Instants and durations are [Z], in nanoseconds ([time.Time] on the
      monotonic clock, [time.Duration]).
    - A Go [map[string]V] is a [gmap string V]; a map that may be [nil] is an
      [option] of one, [None] being [nil].
    - [float64] is the kernel's binary64 [float]; Go's [==] on floats is
      [PrimFloat.eqb].
    - The remote API, the goroutine scheduler and the random choice of a
      [select] with several ready cases are inputs, gathered in [Remote].
      Every remote interaction is appended to the world's [trace], so that
      "no remote call" is a statement about the trace. *)

From Stdlib Require Import ZArith Floats.
From stdpp Require Import gmap strings list fin_maps.

Open Scope Z_scope.

(** ** Time *)

Definition Second : Z := 1000000000.
Definition Minute : Z := 60 * Second.

(** ** Errors

    [Errorf] is [fmt.Errorf] with a [%w] verb: a message wrapping a cause.
    [CollectFailed] is [fmt.Errorf("failed to collect %d <service> metrics", n)]. *)

Inductive error : Type :=
| Canceled
| DeadlineExceeded
| SdkError (msg : string)
| JsonError
| MetricError (msg : string)
| Errorf (msg : string) (cause : error)
| CollectFailed (errorCount : nat) (service : string).

(** ** Contexts

    A [context.Context] is seen through the instant at which its [Done]
    channel is closed (a deadline or a cancellation; [None] when neither ever
    happens) and the error [Err] reports from then on. *)

Record Context : Type := {
  doneAt : option Z;
  ctxErr : error;
}.

Definition Background : Context := {| doneAt := None; ctxErr := Canceled |}.

Definition isDone (now : Z) (ctx : Context) : bool :=
  match doneAt ctx with
  | Some t => t <=? now
  | None => false
  end.

(** [context.WithTimeout(parent, d)] called at [now]: the parent wins when it
    is done no later than the new deadline. *)
Definition WithTimeout (now : Z) (parent : Context) (d : Z) : Context :=
  match doneAt parent with
  | Some t =>
      if t <=? now + d then parent
      else {| doneAt := Some (now + d); ctxErr := DeadlineExceeded |}
  | None => {| doneAt := Some (now + d); ctxErr := DeadlineExceeded |}
  end.

Module config.

Record ServiceConfig : Type := {
  Enabled : bool;
  Namespace : string;
  ScrapeInterval : Z;
  Metrics : list string;
}.

End config.

(** The rest of package [config]: the root configuration and its validation.
    It is a module of its own so that its field names ([Region], ...) do not
    hide the client's. *)
Module configuration.
Import config.

Record ServerConfig : Type := {
  ListenAddress : string;
  MetricsPath : string;
  LogLevel : string;
  LogFormat : string;
}.

Record RateLimitConfig : Type := {
  RequestsPerSecond : Z;
  Burst : Z;
}.

Record AlicloudConfig : Type := {
  AccessKeyID : string;
  AccessKeySecret : string;
  Region : string;
  Regions : list string;
  RateLimit : RateLimitConfig;
}.

Record ServicesConfig : Type := {
  SLB : ServiceConfig;
  Redis : ServiceConfig;
  RDS : ServiceConfig;
}.

Record PrometheusConfig : Type := {
  GlobalLabels : gmap string string;
  MetricPrefix : string;
  IncludeGoMetrics : bool;
  IncludeProcessMetrics : bool;
}.

Record Config : Type := {
  Server : ServerConfig;
  Alicloud : AlicloudConfig;
  Services : ServicesConfig;
  Prometheus : PrometheusConfig;
}.

(** [contains(slice, item)]: the loop returns at the first equal element. *)
Fixpoint contains (slice : list string) (item : string) : bool :=
  match slice with
  | [] => false
  | s :: rest => if decide (s = item) then true else contains rest item
  end.

Definition validLogLevels : list string := ["debug"; "info"; "warn"; "error"].
Definition validLogFormats : list string := ["json"; "text"].

(** [Validate]: [None] is nil; the checks are made in this order and the
    first that fails gives the error ([MetricError] being an error made of a
    message). *)
Definition Validate (c : Config) : option error :=
  if decide (AccessKeyID (Alicloud c) = "")
  then Some (MetricError "alicloud.access_key_id is required")
  else if decide (AccessKeySecret (Alicloud c) = "")
  then Some (MetricError "alicloud.access_key_secret is required")
  else if decide (Region (Alicloud c) = "")
  then Some (MetricError "alicloud.region is required")
  else if negb (contains validLogLevels (LogLevel (Server c)))
  then Some (MetricError ("invalid log level: " +:+ LogLevel (Server c)
                          +:+ ", must be one of [debug info warn error]"))
  else if negb (contains validLogFormats (LogFormat (Server c)))
  then Some (MetricError ("invalid log format: " +:+ LogFormat (Server c)
                          +:+ ", must be one of [json text]"))
  else None.

End configuration.

Module client.

(** *** Responses of the SDK *)

Record DescribeMetricLastResponse : Type := {
  Datapoints : string;
}.

Record Tag : Type := {
  TagKey : string;
  TagValue : string;
}.

Record LoadBalancer : Type := {
  LoadBalancerId : string;
  Tags : list Tag;
}.

(** *** CacheEntry *)

Record CacheEntry : Type := {
  Data : DescribeMetricLastResponse;
  Timestamp : Z;
  TTL : Z;
}.

(** [time.Since(ce.Timestamp) > ce.TTL] *)
Definition IsExpired (now : Z) (ce : CacheEntry) : bool :=
  TTL ce <? now - Timestamp ce.

(** *** TagCache

    The values are [map[string]string], possibly [nil]. *)

Record TagCache : Type := {
  tc_cache : gmap string (option (gmap string string));
  tc_ttl : Z;
}.

Definition NewTagCache (ttl : Z) : TagCache :=
  {| tc_cache := ∅; tc_ttl := ttl |}.

(** [tags, found := tc.cache[key]]: neither the clock nor [ttl] is read. *)
Definition TagCache_Get (key : string) (tc : TagCache)
  : option (gmap string string) * bool :=
  match tc_cache tc !! key with
  | Some tags => (tags, true)
  | None => (None, false)
  end.

Definition TagCache_Set (key : string) (tags : option (gmap string string))
  (tc : TagCache) : TagCache :=
  {| tc_cache := <[key := tags]> (tc_cache tc); tc_ttl := tc_ttl tc |}.

(** *** MetricCache *)

Record MetricCache : Type := {
  mc_cache : gmap string CacheEntry;
  mc_ttl : Z;
}.

Definition NewMetricCache (ttl : Z) : MetricCache :=
  {| mc_cache := ∅; mc_ttl := ttl |}.

Definition MetricCache_Get (now : Z) (key : string) (mc : MetricCache)
  : option DescribeMetricLastResponse * bool :=
  match mc_cache mc !! key with
  | Some entry =>
      if IsExpired now entry then (None, false) else (Some (Data entry), true)
  | None => (None, false)
  end.

Definition MetricCache_Set (now : Z) (key : string)
  (data : DescribeMetricLastResponse) (mc : MetricCache) : MetricCache :=
  {| mc_cache :=
       <[key := {| Data := data; Timestamp := now; TTL := mc_ttl mc |}]>
         (mc_cache mc);
     mc_ttl := mc_ttl mc |}.

Definition MetricCache_Clear (now : Z) (mc : MetricCache) : MetricCache :=
  {| mc_cache := filter (λ kv, IsExpired now kv.2 = false) (mc_cache mc);
     mc_ttl := mc_ttl mc |}.

(** *** RateLimiter

    [tokens] is the number of tokens buffered in the channel [rl.tokens] and
    [burst] its capacity.  The ticker fires at [nextTick], then every
    [period].  [closed] holds once [Close] has cancelled [rl.ctx] and stopped
    the ticker; [rl.ctx] is read by [refillTokens] only. *)

Record RateLimiter : Type := {
  tokens : nat;
  burst : nat;
  requests : Z;
  period : Z;
  nextTick : Z;
  closed : bool;
}.

Definition setTokens (n : nat) (rl : RateLimiter) : RateLimiter :=
  {| tokens := n; burst := burst rl; requests := requests rl;
     period := period rl; nextTick := nextTick rl; closed := closed rl |}.

Definition setNextTick (t : Z) (rl : RateLimiter) : RateLimiter :=
  {| tokens := tokens rl; burst := burst rl; requests := requests rl;
     period := period rl; nextTick := t; closed := closed rl |}.

(** The loop [for i := 0; i < burst; i++ { rl.tokens <- struct{}{} }]: a send
    on a full channel would block for ever, which is [None]. *)
Fixpoint fillTokens (n : nat) (rl : RateLimiter) : option RateLimiter :=
  match n with
  | O => Some rl
  | S k =>
      if (tokens rl <? burst rl)%nat
      then fillTokens k (setTokens (S (tokens rl)) rl)
      else None
  end.

(** [NewRateLimiter] at instant [now].  [None] is a panic: [make] of a channel
    of negative size, the integer division [time.Second / 0], or
    [time.NewTicker] of a non-positive interval. *)
Definition NewRateLimiter (now : Z) (requestsPerSecond burst : Z)
  : option RateLimiter :=
  if burst <? 0 then None
  else if requestsPerSecond =? 0 then None
  else
    let d := Second ÷ requestsPerSecond in
    if d <=? 0 then None
    else
      fillTokens (Z.to_nat burst)
        {| tokens := 0; burst := Z.to_nat burst;
           requests := requestsPerSecond; period := d;
           nextTick := now + d; closed := false |}.

(** One tick received by [refillTokens]: the inner [select] sends a token
    unless the bucket is full. *)
Definition refillTick (rl : RateLimiter) : RateLimiter :=
  if (tokens rl <? burst rl)%nat then setTokens (S (tokens rl)) rl else rl.

(** Number of ticks fired up to [now] and not yet received.  The goroutine
    [refillTokens] is taken to receive every tick the ticker fires: it does
    nothing else, and a [time.Ticker] drops ticks only for a receiver that
    has fallen a whole period behind. *)
Definition ticksDue (now : Z) (rl : RateLimiter) : nat :=
  if closed rl then O
  else if now <? nextTick rl then O
  else Z.to_nat ((now - nextTick rl) / period rl + 1).

(** The goroutine [refillTokens] run up to the instant [now]. *)
Definition refillTokens (now : Z) (rl : RateLimiter) : RateLimiter :=
  let n := ticksDue now rl in
  setNextTick (nextTick rl + Z.of_nat n * period rl) (Nat.iter n refillTick rl).

(** [Close] at instant [now]: the ticks fired so far have been received;
    [rl.cancel()] ends the refill goroutine and the ticker is stopped. *)
Definition RateLimiter_Close (now : Z) (rl0 : RateLimiter) : RateLimiter :=
  let rl := refillTokens now rl0 in
  {| tokens := tokens rl; burst := burst rl; requests := requests rl;
     period := period rl; nextTick := nextTick rl; closed := true |}.

(** Outcome of one [Wait]: the error returned ([None] is [nil]), the instant
    at which the call returns, and the limiter it leaves. *)
Record WaitResult : Type := {
  waitErr : option error;
  waitEnd : Z;
  waitRl : RateLimiter;
}.

(** [Wait] called at [now] by one caller, the refill goroutine being the only
    other party.  The [select] has two cases, [timeoutCtx.Done()] and
    [rl.tokens]:
    - a token is buffered and the context is live: the token is taken at once;
    - both are ready: Go picks at random, [sel] says whether the token case won;
    - only the context is done: its error is returned at once;
    - neither: the caller parks until the next tick hands it a token or the
      context is done, whichever is first ([sel] again on a tie). *)
Definition RateLimiter_Wait (sel : bool) (ctx : Context) (now : Z)
  (rl0 : RateLimiter) : WaitResult :=
  let rl := refillTokens now rl0 in
  let timeoutCtx := WithTimeout now ctx (5 * Second) in
  let deadline := default now (doneAt timeoutCtx) in
  let failed t r :=
    {| waitErr := Some (ctxErr timeoutCtx); waitEnd := t; waitRl := r |} in
  let acquired t r := {| waitErr := None; waitEnd := t; waitRl := r |} in
  match tokens rl, isDone now timeoutCtx with
  | S n, false => acquired now (setTokens n rl)
  | S n, true => if sel then acquired now (setTokens n rl) else failed now rl
  | O, true => failed now rl
  | O, false =>
      if closed rl then failed deadline rl
      else if nextTick rl <? deadline
      then acquired (nextTick rl) (setNextTick (nextTick rl + period rl) rl)
      else if nextTick rl =? deadline
      then
        if sel
        then acquired (nextTick rl) (setNextTick (nextTick rl + period rl) rl)
        else failed deadline (refillTokens deadline rl)
      else failed deadline rl
  end.

(** A [Wait] called at [now] on an open limiter that another goroutine
    closes at [closeAt], no earlier than [now].  [Close] cancels [rl.ctx] and
    stops the ticker; neither is a case of the [select] of [Wait], so a
    caller that is parked stays parked.  What [Close] changes for it is that
    no tick is delivered any more: a tick that fires before [closeAt] is
    delivered; of a tick and the cancellation that are ready together the
    [select] of [refillTokens] picks one, and [selTick] tells whether it is
    the tick.  [waitRl] is the limiter at the instant the call returns. *)
Definition setClosed (rl : RateLimiter) : RateLimiter :=
  {| tokens := tokens rl; burst := burst rl; requests := requests rl;
     period := period rl; nextTick := nextTick rl; closed := true |}.

Definition tickBeforeClose (selTick : bool) (closeAt : Z) (rl : RateLimiter)
  : bool :=
  negb (closed rl)
  && ((nextTick rl <? closeAt) || ((nextTick rl =? closeAt) && selTick)).

Definition RateLimiter_WaitClosing (sel selTick : bool) (ctx : Context)
  (now closeAt : Z) (rl0 : RateLimiter) : WaitResult :=
  let rl := refillTokens now rl0 in
  let timeoutCtx := WithTimeout now ctx (5 * Second) in
  let deadline := default now (doneAt timeoutCtx) in
  let failed t r :=
    {| waitErr := Some (ctxErr timeoutCtx); waitEnd := t; waitRl := r |} in
  let acquired t r := {| waitErr := None; waitEnd := t; waitRl := r |} in
  match tokens rl, isDone now timeoutCtx with
  | S n, false => acquired now (setTokens n rl)
  | S n, true => if sel then acquired now (setTokens n rl) else failed now rl
  | O, true => failed now rl
  | O, false =>
      if tickBeforeClose selTick closeAt rl then
        if nextTick rl <? deadline
        then acquired (nextTick rl) (setNextTick (nextTick rl + period rl) rl)
        else if nextTick rl =? deadline
        then
          if sel
          then acquired (nextTick rl) (setNextTick (nextTick rl + period rl) rl)
          else failed deadline (refillTokens deadline rl)
        else failed deadline rl
      else failed deadline (if closeAt <=? deadline then setClosed rl else rl)
  end.

(** *** The remote API, the runtime and the libraries, as inputs

    The first five oracles are indexed by the number of interactions made so
    far (the length of the trace), so the remote side may answer the same
    request differently at different moments.
    - [DescribeMetricLast n namespace metricName]: the CMS call;
    - [DescribeLoadBalancers n region]: the full listing of one region;
    - [DescribeMetricMetaList n]: the health probe's call ([None] is success);
    - [latency n]: the time the n-th remote call takes;
    - [selectToken n]: the case a [select] picks when both are ready;
    - [goSchedule k]: the order in which [k] goroutines started together get
      to run (a permutation of [0 .. k-1]);
    - [goInterleaving k]: an interleaving of the steps of [k] goroutines that
      run together: each entry names the goroutine that takes its next step
      and the time that passes before it does;
    - [descError fqName help variableLabels constLabels]: the error
      [prometheus.NewDesc] records in the descriptor it makes of these
      arguments, [None] when it records none (the library decides what a
      valid metric name or label name is, and rejects a label name that is
      both constant and variable);
    - [validLabelValue value]: whether the library accepts the label value
      ([utf8.ValidString]). *)

Record Remote : Type := {
  DescribeMetricLast : nat → string → string → error + DescribeMetricLastResponse;
  DescribeLoadBalancers : nat → string → error + list LoadBalancer;
  DescribeMetricMetaList : nat → option error;
  latency : nat → nat;
  selectToken : nat → bool;
  goSchedule : nat → list nat;
  goInterleaving : nat → list (nat * Z);
  descError : string → string → list string → gmap string string → option error;
  validLabelValue : string → bool;
}.

Inductive Event : Type :=
| EvWait (err : option error)
| EvDescribeMetricLast (namespace metricName : string)
| EvDescribeLoadBalancers (region : string)
| EvDescribeMetricMetaList.

Definition isRemoteCall (ev : Event) : bool :=
  match ev with
  | EvWait _ => false
  | _ => true
  end.

(** *** Client

    [slbClients] is held as the list of its keys, in the order [range] visits
    them.  [Region] is [config.Region]. *)

Record Client : Type := {
  cache : MetricCache;
  tagCache : TagCache;
  rateLimiter : RateLimiter;
  slbClients : list string;
  Region : string;
}.

(** The client together with the clock and the trace of interactions. *)
Record World : Type := {
  theClient : Client;
  clock : Z;
  trace : list Event;
}.

Definition setCache (mc : MetricCache) (w : World) : World :=
  let c := theClient w in
  {| theClient :=
       {| cache := mc; tagCache := tagCache c; rateLimiter := rateLimiter c;
          slbClients := slbClients c; Region := Region c |};
     clock := clock w; trace := trace w |}.

Definition setTagCache (tc : TagCache) (w : World) : World :=
  let c := theClient w in
  {| theClient :=
       {| cache := cache c; tagCache := tc; rateLimiter := rateLimiter c;
          slbClients := slbClients c; Region := Region c |};
     clock := clock w; trace := trace w |}.

Definition setRateLimiter (rl : RateLimiter) (w : World) : World :=
  let c := theClient w in
  {| theClient :=
       {| cache := cache c; tagCache := tagCache c; rateLimiter := rl;
          slbClients := slbClients c; Region := Region c |};
     clock := clock w; trace := trace w |}.

(** [c.rateLimiter.Wait(ctx)] in the world: the limiter is replaced by the one
    the call leaves, the clock moves to the instant the call returns. *)
Definition acquire (env : Remote) (ctx : Context) (w : World)
  : World * option error :=
  let c := theClient w in
  let r := RateLimiter_Wait (selectToken env (length (trace w))) ctx (clock w)
             (rateLimiter c) in
  ({| theClient :=
        {| cache := cache c; tagCache := tagCache c; rateLimiter := waitRl r;
           slbClients := slbClients c; Region := Region c |};
      clock := waitEnd r;
      trace := trace w ++ [EvWait (waitErr r)] |},
   waitErr r).

(** A remote call: it takes its latency and is recorded. *)
Definition remoteCall (env : Remote) (ev : Event) (w : World) : World :=
  {| theClient := theClient w;
     clock := clock w + Z.of_nat (latency env (length (trace w)));
     trace := trace w ++ [ev] |}.

Definition cacheKey (namespace metricName : string) : string :=
  namespace +:+ ":" +:+ metricName.

(** [fmt.Sprintf("failed to get metric data for %s/%s", namespace, metricName)] *)
Definition getMetricFailed (namespace metricName : string) : string :=
  "failed to get metric data for " +:+ namespace +:+ "/" +:+ metricName.

Definition GetMetricData (env : Remote) (ctx : Context)
  (namespace metricName : string) (w : World)
  : World * (option DescribeMetricLastResponse * option error) :=
  let key := cacheKey namespace metricName in
  let '(cachedData, found) := MetricCache_Get (clock w) key (cache (theClient w)) in
  if found then (w, (cachedData, None))
  else
    let '(w1, werr) := acquire env ctx w in
    match werr with
    | Some err => (w1, (None, Some (Errorf "rate limiter wait failed" err)))
    | None =>
        let w2 := remoteCall env (EvDescribeMetricLast namespace metricName) w1 in
        match DescribeMetricLast env (length (trace w1)) namespace metricName with
        | inl err =>
            (w2, (None, Some (Errorf (getMetricFailed namespace metricName) err)))
        | inr response =>
            (setCache (MetricCache_Set (clock w2) key response (cache (theClient w2))) w2,
             (Some response, None))
        end
    end.

Definition Client_Close (w : World) : World :=
  let c := theClient w in
  {| theClient :=
       {| cache := cache c; tagCache := tagCache c;
          rateLimiter := RateLimiter_Close (clock w) (rateLimiter c);
          slbClients := slbClients c; Region := Region c |};
     clock := clock w; trace := trace w |}.

Definition GetRegion (c : Client) : string := Region c.

Definition Health (env : Remote) (ctx : Context) (w : World)
  : World * option error :=
  let w1 := remoteCall env EvDescribeMetricMetaList w in
  match DescribeMetricMetaList env (length (trace w)) with
  | Some err => (w1, Some (Errorf "health check failed" err))
  | None => (w1, None)
  end.

(** *** GetSLBInstanceTags

    [tagsMap] is [map[string]map[string]string]; [uncachedSet] is the
    [map[string]bool] used as a set. *)

(** The first loop: answer from the tag cache what it holds. *)
Fixpoint checkTagCache (tc : TagCache) (instanceIDs : list string)
  (tagsMap : gmap string (option (gmap string string)))
  (uncachedIDs : list string)
  : gmap string (option (gmap string string)) * list string :=
  match instanceIDs with
  | [] => (tagsMap, uncachedIDs)
  | id :: rest =>
      let '(tags, found) := TagCache_Get id tc in
      if found then checkTagCache tc rest (<[id := tags]> tagsMap) uncachedIDs
      else checkTagCache tc rest tagsMap (uncachedIDs ++ [id])
  end.

(** [instanceTags[tag.TagKey] = tag.TagValue] over [lb.Tags.Tag]. *)
Definition extractTags (lb : LoadBalancer) : gmap string string :=
  foldl (λ instanceTags tag, <[TagKey tag := TagValue tag]> instanceTags)
    ∅ (Tags lb).

(** The loop over the load balancers of one region's listing. *)
Fixpoint processLoadBalancers (lbs : list LoadBalancer)
  (tagsMap : gmap string (option (gmap string string)))
  (tc : TagCache) (uncachedSet : gset string)
  : gmap string (option (gmap string string)) * TagCache * gset string :=
  match lbs with
  | [] => (tagsMap, tc, uncachedSet)
  | lb :: rest =>
      if decide (LoadBalancerId lb ∈ uncachedSet) then
        let instanceTags := Some (extractTags lb) in
        processLoadBalancers rest
          (<[LoadBalancerId lb := instanceTags]> tagsMap)
          (TagCache_Set (LoadBalancerId lb) instanceTags tc)
          (uncachedSet ∖ {[LoadBalancerId lb]})
      else processLoadBalancers rest tagsMap tc uncachedSet
  end.

(** The loop over [c.slbClients]; the error is the rate limiter's, on which
    the function returns at once. *)
Fixpoint lookupRegions (env : Remote) (ctx : Context) (regions : list string)
  (tagsMap : gmap string (option (gmap string string)))
  (uncachedSet : gset string) (w : World)
  : World * (gmap string (option (gmap string string)) * gset string * option error) :=
  match regions with
  | [] => (w, (tagsMap, uncachedSet, None))
  | region :: rest =>
      if decide (size uncachedSet = 0%nat) then (w, (tagsMap, uncachedSet, None))
      else
        let '(w1, werr) := acquire env ctx w in
        match werr with
        | Some err =>
            (w1, (tagsMap, uncachedSet, Some (Errorf "rate limiter error" err)))
        | None =>
            let w2 := remoteCall env (EvDescribeLoadBalancers region) w1 in
            match DescribeLoadBalancers env (length (trace w1)) region with
            | inl err => lookupRegions env ctx rest tagsMap uncachedSet w2
            | inr response =>
                let '(tagsMap', tc', uncachedSet') :=
                  processLoadBalancers response tagsMap
                    (tagCache (theClient w2)) uncachedSet in
                lookupRegions env ctx rest tagsMap' uncachedSet'
                  (setTagCache tc' w2)
            end
        end
  end.

(** The last loop: an empty tag set for every identifier found nowhere. *)
Definition cacheEmptyTags (remaining : list string)
  (tagsMap : gmap string (option (gmap string string))) (tc : TagCache)
  : gmap string (option (gmap string string)) * TagCache :=
  foldl (λ '(tagsMap, tc) remainingID,
           (<[remainingID := Some ∅]> tagsMap,
            TagCache_Set remainingID (Some ∅) tc))
    (tagsMap, tc) remaining.

Definition GetSLBInstanceTags (env : Remote) (ctx : Context)
  (instanceIDs : list string) (w : World)
  : World * (option (gmap string (option (gmap string string))) * option error) :=
  if decide (length instanceIDs = 0%nat) then (w, (Some ∅, None))
  else
    let '(tagsMap, uncachedIDs) :=
      checkTagCache (tagCache (theClient w)) instanceIDs ∅ [] in
    if decide (length uncachedIDs = 0%nat) then (w, (Some tagsMap, None))
    else
      let uncachedSet : gset string := list_to_set uncachedIDs in
      let '(w1, (tagsMap1, uncachedSet1, err)) :=
        lookupRegions env ctx (slbClients (theClient w)) tagsMap uncachedSet w in
      match err with
      | Some e => (w1, (Some tagsMap1, Some e))
      | None =>
          let '(tagsMap2, tc2) :=
            cacheEmptyTags (elements uncachedSet1) tagsMap1
              (tagCache (theClient w1)) in
          (setTagCache tc2 w1, (Some tagsMap2, None))
      end.

(** *** NewClient

    [cmsNew] and [slbNew] are the SDK's [NewClientWithAccessKey] for a region
    ([None] is success).  The result is [None] when [NewRateLimiter] panics.
    [slbClients] being a map, a region named twice has one entry; the list
    holds the keys in the order they were first inserted, one of the orders
    [range] may visit them in. *)
Definition insertRegion (slbNew : string → option error)
  (slbClients : list string) (region : string) : list string :=
  match slbNew region with
  | Some _ => slbClients
  | None =>
      if decide (region ∈ slbClients) then slbClients
      else slbClients ++ [region]
  end.

Definition NewClient (now : Z) (cmsNew slbNew : string → option error)
  (cfg : configuration.AlicloudConfig) : option (error + Client) :=
  match cmsNew (configuration.Region cfg) with
  | Some err => Some (inl (Errorf "failed to create CMS client" err))
  | None =>
      match slbNew (configuration.Region cfg) with
      | Some err => Some (inl (Errorf "failed to create SLB client" err))
      | None =>
          let regions :=
            if decide (length (configuration.Regions cfg) = 0%nat)
            then [configuration.Region cfg]
            else configuration.Regions cfg in
          let slbClients := foldl (insertRegion slbNew) [] regions in
          match NewRateLimiter now
                  (configuration.RequestsPerSecond (configuration.RateLimit cfg))
                  (configuration.Burst (configuration.RateLimit cfg)) with
          | None => None
          | Some rateLimiter =>
              Some (inr {| cache := NewMetricCache (30 * Second);
                           tagCache := NewTagCache (5 * Minute);
                           rateLimiter := rateLimiter;
                           slbClients := slbClients;
                           Region := configuration.Region cfg |})
          end
      end
  end.

(** *** GetMetricDataWithDimensions

    [dimensions] is the map as the list of its entries in the order [range]
    visits them.  [describe] is the CMS call of a request that carries a
    [Dimensions] string (the empty string when the field is not set). *)

Definition doubleQuote : string :=
  String (Ascii.ascii_of_nat 34) EmptyString.

(** [fmt.Sprintf(`{"instanceId":"%s"}`, value)] *)
Definition instanceIdObject (value : string) : string :=
  "{" +:+ doubleQuote +:+ "instanceId" +:+ doubleQuote +:+ ":"
  +:+ doubleQuote +:+ value +:+ doubleQuote +:+ "}".

(** The loop over the dimensions, [first] being its flag. *)
Fixpoint appendDimensions (dimensions : list (string * string)) (first : bool)
  (dimensionsJSON : string) : string :=
  match dimensions with
  | [] => dimensionsJSON
  | (_, value) :: rest =>
      let dimensionsJSON :=
        if first then dimensionsJSON else dimensionsJSON +:+ "," in
      appendDimensions rest false (dimensionsJSON +:+ instanceIdObject value)
  end.

Definition requestDimensions (dimensions : list (string * string)) : string :=
  if decide (0 < length dimensions)%nat
  then appendDimensions dimensions true "[" +:+ "]"
  else "".

Definition GetMetricDataWithDimensions (env : Remote)
  (describe : nat → string → string → string → error + DescribeMetricLastResponse)
  (ctx : Context) (namespace metricName : string)
  (dimensions : list (string * string)) (w : World)
  : World * (option DescribeMetricLastResponse * option error) :=
  let '(w1, werr) := acquire env ctx w in
  match werr with
  | Some err => (w1, (None, Some (Errorf "rate limiter wait failed" err)))
  | None =>
      let w2 := remoteCall env (EvDescribeMetricLast namespace metricName) w1 in
      match describe (length (trace w1)) namespace metricName
              (requestDimensions dimensions) with
      | inl err =>
          (w2, (None, Some (Errorf (getMetricFailed namespace metricName) err)))
      | inr response => (w2, (Some response, None))
      end
  end.

End client.

Module collector.
Import client config.

(** *** MetricData: one decoded data point *)

Record MetricData : Type := {
  Timestamp : Z;
  UserID : string;
  InstanceID : string;
  Device : string;
  Port : string;
  Protocol : string;
  Vip : string;
  State : string;
  Diskname : string;
  Sum : float;
  Maximum : float;
  Average : float;
  Minimum : float;
}.

(** *** The Prometheus client library, as far as the collectors use it *)

Record Desc : Type := {
  fqName : string;
  help : string;
  variableLabels : list string;
  constLabels : gmap string string;
}.

Definition NewDesc (fqName help : string) (variableLabels : list string)
  (constLabels : gmap string string) : Desc :=
  {| fqName := fqName; help := help; variableLabels := variableLabels;
     constLabels := constLabels |}.

(** What is sent on the channel [ch]: a constant gauge sample, or a live
    counter, gauge or histogram sent by reference and named by its fully
    qualified name (its value is its owner's field when it is read). *)
Inductive Metric : Type :=
| ConstMetric (desc : Desc) (value : float) (labelValues : list string)
| LiveMetric (fqName : string).

Definition BuildFQName (namespace subsystem name : string) : string :=
  if decide (name = "") then ""
  else if decide (namespace = "") then
    if decide (subsystem = "") then name else subsystem +:+ "_" +:+ name
  else if decide (subsystem = "") then namespace +:+ "_" +:+ name
  else namespace +:+ "_" +:+ subsystem +:+ "_" +:+ name.

(** [prometheus.NewConstMetric(desc, GaugeValue, value, labelValues...)]: it
    returns the error the descriptor was made with, if any; then it fails
    when the number of label values is not the descriptor's, and when a label
    value is one the library does not accept. *)
Definition NewConstMetric (env : Remote) (desc : Desc) (value : float)
  (labelValues : list string) : error + Metric :=
  match descError env (fqName desc) (help desc) (variableLabels desc)
          (constLabels desc) with
  | Some err => inl err
  | None =>
      if decide (length labelValues = length (variableLabels desc)) then
        if forallb (validLabelValue env) labelValues
        then inr (ConstMetric desc value labelValues)
        else inl (MetricError "label value is not valid UTF-8")
      else inl (MetricError "inconsistent label cardinality")
  end.

(** *** BaseCollector

    The client is shared by every collector: it lives in the [World].
    [scrapeErrors] is the counter's value, [scrapeDuration] the durations the
    histogram has observed. *)

Record BaseCollector : Type := {
  config : ServiceConfig;
  serviceName : string;
  metricDescs : gmap string Desc;
  globalLabels : gmap string string;
  metricPrefix : string;
  lastScrape : Z;
  scrapeErrors : nat;
  scrapeDuration : list Z;
}.

Definition serviceLabels (serviceName : string) : list string :=
  if decide (serviceName = "slb")
  then ["instance_id"; "protocol"; "port"; "vip"]
  else ["instance_id"].

Definition initMetricDescriptors (metricPrefix serviceName : string)
  (globalLabels : gmap string string) (metrics : list string)
  : gmap string Desc :=
  foldl (λ descs metricName,
           <[metricName :=
               NewDesc (BuildFQName metricPrefix serviceName metricName)
                 (metricName +:+ " metric from Alicloud CMS")
                 (serviceLabels serviceName) globalLabels]> descs)
    ∅ metrics.

Definition NewBaseCollector (cfg : ServiceConfig) (serviceName : string)
  (globalLabels : gmap string string) (metricPrefix : string) : BaseCollector :=
  {| config := cfg; serviceName := serviceName;
     metricDescs :=
       initMetricDescriptors metricPrefix serviceName globalLabels (Metrics cfg);
     globalLabels := globalLabels; metricPrefix := metricPrefix;
     lastScrape := 0; scrapeErrors := 0; scrapeDuration := [] |}.

Definition BaseCollector_Name (bc : BaseCollector) : string := serviceName bc.

Definition BaseCollector_Enabled (bc : BaseCollector) : bool :=
  Enabled (config bc).

Definition RecordScrapeError (bc : BaseCollector) : BaseCollector :=
  {| config := config bc; serviceName := serviceName bc;
     metricDescs := metricDescs bc; globalLabels := globalLabels bc;
     metricPrefix := metricPrefix bc; lastScrape := lastScrape bc;
     scrapeErrors := S (scrapeErrors bc);
     scrapeDuration := scrapeDuration bc |}.

Definition RecordScrapeDuration (duration : Z) (bc : BaseCollector)
  : BaseCollector :=
  {| config := config bc; serviceName := serviceName bc;
     metricDescs := metricDescs bc; globalLabels := globalLabels bc;
     metricPrefix := metricPrefix bc; lastScrape := lastScrape bc;
     scrapeErrors := scrapeErrors bc;
     scrapeDuration := scrapeDuration bc ++ [duration] |}.

Definition SetLastScrapeTime (t : Z) (bc : BaseCollector) : BaseCollector :=
  {| config := config bc; serviceName := serviceName bc;
     metricDescs := metricDescs bc; globalLabels := globalLabels bc;
     metricPrefix := metricPrefix bc; lastScrape := t;
     scrapeErrors := scrapeErrors bc;
     scrapeDuration := scrapeDuration bc |}.

(** The value of a sample:
    [value := data.Average; if value == 0 { value = data.Maximum };
     if value == 0 { value = data.Sum }]. *)
Definition sampleValue (data : MetricData) : float :=
  let value := Average data in
  let value := if (value =? 0)%float then Maximum data else value in
  let value := if (value =? 0)%float then Sum data else value in
  value.

Definition buildLabelValues (bc : BaseCollector) (data : MetricData)
  : list string :=
  if decide (serviceName bc = "slb")
  then [InstanceID data; Protocol data; Port data; Vip data]
  else [InstanceID data].

(** The loop over the data points: the samples sent so far, and the error on
    which the loop returned. *)
Fixpoint emitMetrics (env : Remote) (labelsOf : MetricData → list string)
  (desc : Desc) (metricName : string) (metricData : list MetricData)
  : list Metric * option error :=
  match metricData with
  | [] => ([], None)
  | data :: rest =>
      match NewConstMetric env desc (sampleValue data) (labelsOf data) with
      | inl err => ([], Some (Errorf ("failed to create metric for " +:+ metricName) err))
      | inr metric =>
          let '(sent, err) := emitMetrics env labelsOf desc metricName rest in
          (metric :: sent, err)
      end
  end.

(** *** Collection

    [json.Unmarshal] of a [Datapoints] string into [[]MetricData] is the
    section's variable; [None] is a decoding error. *)

Section Collection.

Variable unmarshal : string → option (list MetricData).

(** The part shared by [CollectMetric] and [CollectSLBMetric]: fetch and
    decode.  [Return] carries what the function returns at once (an error,
    or [nil] when there is no data); [NilResponse] stands for the dereference
    of a nil response, which [GetMetricData] never returns without an error
    (lemma [GetMetricData_response]). *)
Inductive Fetched : Type :=
| Return (err : option error)
| Decoded (metricData : list MetricData).

Definition NilResponse : error := MetricError "nil response".

(** What is done with the pair [GetMetricData] returned. *)
Definition decodeMetricData (metricName : string)
  (result : option DescribeMetricLastResponse * option error) : Fetched :=
  let '(response, err) := result in
  match err with
  | Some e => Return (Some (Errorf ("failed to get metric " +:+ metricName) e))
  | None =>
      match response with
      | None => Return (Some NilResponse)
      | Some response =>
          if decide (Datapoints response = "") then Return None
          else
            match unmarshal (Datapoints response) with
            | None =>
                Return (Some (Errorf ("failed to unmarshal metric data for " +:+ metricName) JsonError))
            | Some metricData => Decoded metricData
            end
      end
  end.

Definition fetchMetricData (env : Remote) (ctx : Context)
  (namespace metricName : string) (w : World) : World * Fetched :=
  let '(w1, result) := GetMetricData env ctx namespace metricName w in
  (w1, decodeMetricData metricName result).

(** The rest of [CollectMetric]: the descriptor is looked up and the data
    points are sent. *)
Definition emitFetched (env : Remote) (bc : BaseCollector) (metricName : string)
  (fetched : Fetched) : list Metric * option error :=
  match fetched with
  | Return err => ([], err)
  | Decoded metricData =>
      match metricDescs bc !! metricName with
      | None => ([], Some (MetricError ("metric descriptor not found for " +:+ metricName)))
      | Some desc =>
          emitMetrics env (buildLabelValues bc) desc metricName metricData
      end
  end.

Definition CollectMetric (env : Remote) (ctx : Context) (metricName : string)
  (bc : BaseCollector) (w : World) : World * (list Metric * option error) :=
  let '(w1, fetched) :=
    fetchMetricData env ctx (Namespace (config bc)) metricName w in
  (w1, emitFetched env bc metricName fetched).

(** The loop [for _, metricName := range c.config.Metrics] of the Redis and
    SLB collectors, [collectOne] being [CollectMetric] or [CollectSLBMetric]:
    an error adds one to [errorCount] and the loop goes on. *)
Fixpoint collectEach
  (collectOne : string → World → World * (list Metric * option error))
  (metrics : list string) (errorCount : nat) (w : World)
  : World * (list Metric * nat) :=
  match metrics with
  | [] => (w, ([], errorCount))
  | metricName :: rest =>
      let '(w1, (sent, err)) := collectOne metricName w in
      let errorCount :=
        match err with Some _ => S errorCount | None => errorCount end in
      let '(w2, (sent2, errorCount)) := collectEach collectOne rest errorCount w1 in
      (w2, (sent ++ sent2, errorCount))
  end.

(** [ch <- c.scrapeErrors; ch <- c.scrapeDuration]: the collector's own
    counter and histogram, sent by reference. *)
Definition internalMetrics (bc : BaseCollector) : list Metric :=
  [LiveMetric (BuildFQName (metricPrefix bc) (serviceName bc) "scrape_errors_total");
   LiveMetric (BuildFQName (metricPrefix bc) (serviceName bc) "scrape_duration_seconds")].

(** What the three [Collect] methods share around their loop: the enabled
    check, the two live metrics sent first, the error built from
    [errorCount], and the deferred recording of the duration and of the
    scrape time. *)
Definition collectWith (service : string)
  (loop : World → World * (list Metric * nat))
  (bc : BaseCollector) (w : World)
  : World * BaseCollector * list Metric * option error :=
  if negb (BaseCollector_Enabled bc) then (w, bc, [], None)
  else
    let start := clock w in
    let internal := internalMetrics bc in
    let '(w1, (sent, errorCount)) := loop w in
    let deferred bc :=
      SetLastScrapeTime (clock w1) (RecordScrapeDuration (clock w1 - start) bc) in
    if (0 <? errorCount)%nat
    then (w1, deferred (RecordScrapeError bc), internal ++ sent,
          Some (CollectFailed errorCount service))
    else (w1, deferred bc, internal ++ sent, None).

(** *** RedisCollector *)

Record RedisCollector : Type := { redisBase : BaseCollector }.

Definition NewRedisCollector (cfg : ServiceConfig)
  (globalLabels : gmap string string) (metricPrefix : string) : RedisCollector :=
  {| redisBase := NewBaseCollector cfg "redis" globalLabels metricPrefix |}.

Definition RedisCollector_Collect (env : Remote) (ctx : Context)
  (c : RedisCollector) (w : World)
  : World * RedisCollector * list Metric * option error :=
  let bc := redisBase c in
  let '(w1, bc1, sent, err) :=
    collectWith "Redis"
      (collectEach (λ metricName, CollectMetric env ctx metricName bc)
         (Metrics (config bc)) 0)
      bc w in
  (w1, {| redisBase := bc1 |}, sent, err).

(** *** RDSCollector

    [collectMetricsConcurrently] starts one goroutine per metric name, and
    the goroutines run together.  A goroutine is followed from one point at
    which it may have to wait, or at which it touches what the goroutines
    share, to the next:
    - [Queued]: at [semaphore <- struct{}{}];
    - [Entered]: it holds a slot of the semaphore and [CollectMetric] is
      about to read the metric cache;
    - [Waiting since]: it is in [rateLimiter.Wait] since the instant [since];
    - [Calling returnsAt answer]: its CMS call is in flight, and returns
      [answer] at [returnsAt];
    - [Sending sent pending err]: [GetMetricData] has returned; the samples
      [sent] are on [ch], the samples [pending] are still to be sent, after
      which [CollectMetric] returns [err];
    - [Returned sent err]: the goroutine is over; [CollectMetric] returned
      [err], the error, if any, is on [errorCh] and the slot is free. *)

Record RDSCollector : Type := { rdsBase : BaseCollector }.

Definition NewRDSCollector (cfg : ServiceConfig)
  (globalLabels : gmap string string) (metricPrefix : string) : RDSCollector :=
  {| rdsBase := NewBaseCollector cfg "rds" globalLabels metricPrefix |}.

Inductive Goroutine : Type :=
| Queued
| Entered
| Waiting (since : Z)
| Calling (returnsAt : Z) (answer : error + DescribeMetricLastResponse)
| Sending (sent pending : list Metric) (err : option error)
| Returned (sent : list Metric) (err : option error).

Definition holdsSlot (g : Goroutine) : bool :=
  match g with
  | Queued | Returned _ _ => false
  | _ => true
  end.

Definition maxConcurrent : nat := 10.

(** Time passes. *)
Definition advance (delay : Z) (w : World) : World :=
  {| theClient := theClient w; clock := clock w + Z.max 0 delay;
     trace := trace w |}.

Definition record (ev : Event) (w : World) : World :=
  {| theClient := theClient w; clock := clock w; trace := trace w ++ [ev] |}.

(** The next step of the goroutine of [metric], taken at the instant
    [clock w], [slots] being the number of slots of the semaphore that are
    taken: the state it reaches, the world it leaves, what it sends on [ch]
    and what it sends on [errorCh].  A goroutine that cannot go on (no slot
    is free, no token has come and its context is live, its call is not
    back) stays where it is.

    In [Waiting], the goroutine is one of several callers of [Wait] on the
    one limiter.  A token is to be had when one is buffered, or when a tick
    has fired that no one has received yet (it is then handed to this
    caller); with its context done as well, the [select] picks either.  The
    ticks fired before a caller arrives went to the bucket. *)
Definition goStep (env : Remote) (ctx : Context) (bc : BaseCollector)
  (metric : string) (slots : nat) (g : Goroutine) (w : World)
  : Goroutine * World * list Metric * list error :=
  let namespace := Namespace (config bc) in
  let key := cacheKey namespace metric in
  let returning result :=
    let '(pending, err) :=
      emitFetched env bc metric (decodeMetricData metric result) in
    Sending [] pending err in
  match g with
  | Queued =>
      if (slots <? maxConcurrent)%nat then (Entered, w, [], [])
      else (Queued, w, [], [])
  | Entered =>
      let '(cachedData, found) :=
        MetricCache_Get (clock w) key (cache (theClient w)) in
      if found then (returning (cachedData, None), w, [], [])
      else
        (Waiting (clock w),
         setRateLimiter (refillTokens (clock w) (rateLimiter (theClient w))) w,
         [], [])
  | Waiting since =>
      let rl := rateLimiter (theClient w) in
      let timeoutCtx := WithTimeout since ctx (5 * Second) in
      let available :=
        (0 <? tokens rl)%nat
        || (negb (closed rl) && (nextTick rl <=? clock w)) in
      let done := isDone (clock w) timeoutCtx in
      if available && (negb done || selectToken env (length (trace w))) then
        let rl1 :=
          match tokens rl with
          | S n => setTokens n rl
          | O => setNextTick (nextTick rl + period rl) rl
          end in
        let w1 := record (EvWait None) (setRateLimiter rl1 w) in
        (Calling (clock w + Z.of_nat (latency env (length (trace w1))))
           (DescribeMetricLast env (length (trace w1)) namespace metric),
         record (EvDescribeMetricLast namespace metric) w1, [], [])
      else if done then
        (returning
           (None, Some (Errorf "rate limiter wait failed" (ctxErr timeoutCtx))),
         record (EvWait (Some (ctxErr timeoutCtx))) w, [], [])
      else (g, w, [], [])
  | Calling returnsAt answer =>
      if clock w <? returnsAt then (g, w, [], [])
      else
        match answer with
        | inl err =>
            (returning
               (None, Some (Errorf (getMetricFailed namespace metric) err)),
             w, [], [])
        | inr response =>
            (returning (Some response, None),
             setCache
               (MetricCache_Set (clock w) key response (cache (theClient w))) w,
             [], [])
        end
  | Sending sent (m :: pending) err =>
      (Sending (sent ++ [m]) pending err, w, [m], [])
  | Sending sent [] err =>
      (Returned sent err, w, [],
       match err with
       | Some e => [Errorf ("metric " +:+ metric) e]
       | None => []
       end)
  | Returned _ _ => (g, w, [], [])
  end.

(** The goroutines together: the world they share, what has been sent on
    [ch] and on [errorCh], and where each goroutine is, goroutine [i] being
    the one of [Metrics[i]]. *)
Record Pool : Type := {
  poolWorld : World;
  poolCh : list Metric;
  poolErrorCh : list error;
  goroutines : list Goroutine;
}.

Definition slotsTaken (gs : list Goroutine) : nat :=
  length (List.filter holdsSlot gs).

(** Goroutine [choice.1] takes its next step once [choice.2] has passed. *)
Definition poolStep (env : Remote) (ctx : Context) (bc : BaseCollector)
  (choice : nat * Z) (p : Pool) : Pool :=
  match goroutines p !! choice.1, Metrics (config bc) !! choice.1 with
  | Some g, Some metric =>
      let '(g1, w1, emitted, reported) :=
        goStep env ctx bc metric (slotsTaken (goroutines p)) g
          (advance choice.2 (poolWorld p)) in
      {| poolWorld := w1; poolCh := poolCh p ++ emitted;
         poolErrorCh := poolErrorCh p ++ reported;
         goroutines := <[choice.1 := g1]> (goroutines p) |}
  | _, _ => p
  end.

(** The time after which a goroutine left alone goes on: a caller of [Wait]
    at the first of a token and its deadline, a call when it is back. *)
Definition wakeDelay (ctx : Context) (g : Goroutine) (w : World) : Z :=
  match g with
  | Waiting since =>
      let rl := rateLimiter (theClient w) in
      let deadline :=
        default (clock w) (doneAt (WithTimeout since ctx (5 * Second))) in
      let wake :=
        if (0 <? tokens rl)%nat then clock w
        else if negb (closed rl) && (nextTick rl <? deadline) then nextTick rl
        else deadline in
      wake - clock w
  | Calling returnsAt _ => returnsAt - clock w
  | _ => 0
  end.

Definition resume (env : Remote) (ctx : Context) (bc : BaseCollector)
  (who : nat) (p : Pool) : Pool :=
  match goroutines p !! who with
  | Some g => poolStep env ctx bc (who, wakeDelay ctx g (poolWorld p)) p
  | None => p
  end.

Definition pendingOf (g : option Goroutine) : nat :=
  match g with
  | Some (Sending _ pending _) => length pending
  | _ => O
  end.

(** Goroutine [who] runs on, without the others, until it returns: at most
    four steps take it to the loop over the data points. *)
Definition finish (env : Remote) (ctx : Context) (bc : BaseCollector)
  (who : nat) (p : Pool) : Pool :=
  let p1 := Nat.iter 4 (resume env ctx bc who) p in
  Nat.iter (S (pendingOf (goroutines p1 !! who))) (resume env ctx bc who) p1.

(** [wg.Wait()]: the goroutines that have not returned run on, one after the
    other, those that hold a slot first. *)
Definition drain (env : Remote) (ctx : Context) (bc : BaseCollector)
  (p : Pool) : Pool :=
  let all := seq 0 (length (goroutines p)) in
  let p1 :=
    foldl (λ p who,
             match goroutines p !! who with
             | Some g => if holdsSlot g then finish env ctx bc who p else p
             | None => p
             end)
      p all in
  foldl (λ p who, finish env ctx bc who p) p1 all.

(** The goroutines take their steps as [goInterleaving] has it, and then run
    on until all have returned. *)
Definition collectMetricsPool (env : Remote) (ctx : Context)
  (bc : BaseCollector) (w : World) : Pool :=
  let k := length (Metrics (config bc)) in
  drain env ctx bc
    (foldl (λ p choice, poolStep env ctx bc choice p)
       {| poolWorld := w; poolCh := []; poolErrorCh := [];
          goroutines := replicate k Queued |}
       (goInterleaving env k)).

Definition collectMetricsConcurrently (env : Remote) (ctx : Context)
  (bc : BaseCollector) (w : World) : World * (list Metric * nat) :=
  let p := collectMetricsPool env ctx bc w in
  (poolWorld p, (poolCh p, length (poolErrorCh p))).

Definition RDSCollector_Collect (env : Remote) (ctx : Context)
  (c : RDSCollector) (w : World)
  : World * RDSCollector * list Metric * option error :=
  let bc := rdsBase c in
  let '(w1, bc1, sent, err) :=
    collectWith "RDS" (collectMetricsConcurrently env ctx bc) bc w in
  (w1, {| rdsBase := bc1 |}, sent, err).

(** *** SLBCollector

    The collector that enriches its samples with tags.  The source holds two
    versions of it: the one below calls [GetSLBInstanceTags]; the other adds a
    region label, and of it only [buildDynamicSLBLabelValues] is embedded
    (as [buildDynamicSLBLabelValuesWithRegion]), the client method it calls
    not being part of the client above. *)

Record SLBCollector : Type := { slbBase : BaseCollector }.

Definition NewSLBCollector (cfg : ServiceConfig)
  (globalLabels : gmap string string) (metricPrefix : string) : SLBCollector :=
  {| slbBase := NewBaseCollector cfg "slb" globalLabels metricPrefix |}.

(** [tagsMap[id]] on a map of maps that may be nil: nil when absent. *)
Definition tagsOf (tagsMap : option (gmap string (option (gmap string string))))
  (id : string) : option (gmap string string) :=
  match tagsMap with
  | Some m => default None (m !! id)
  | None => None
  end.

(** [if val, ok := tags[key]; ok { x = val }] after [x := ""]. *)
Definition tagValue (tags : gmap string string) (key : string) : string :=
  match tags !! key with
  | Some val => val
  | None => ""
  end.

Definition buildSLBLabelValues (c : SLBCollector) (data : MetricData)
  (tags : option (gmap string string)) : list string :=
  if decide (serviceName (slbBase c) = "slb") then
    let '(team, group, name) :=
      match tags with
      | Some tags => (tagValue tags "Team", tagValue tags "Group", tagValue tags "Name")
      | None => ("", "", "")
      end in
    [InstanceID data; Protocol data; Port data; Vip data; team; group; name]
  else buildLabelValues (slbBase c) data.

Definition buildDynamicSLBLabelValues (data : MetricData)
  (tags : option (gmap string string)) (tagKeys : list string) : list string :=
  let labelValues := [InstanceID data; Protocol data; Port data; Vip data] in
  let '(team, group, name) :=
    match tags with
    | Some tags => (tagValue tags "team", tagValue tags "Group", tagValue tags "Name")
    | None => ("", "", "")
    end in
  labelValues ++ [team; group; name].

Definition buildDynamicSLBLabelValuesWithRegion (cl : Client)
  (data : MetricData) (tags : option (gmap string string)) (region : string)
  (tagKeys : list string) : list string :=
  let instanceRegion := if decide (region = "") then GetRegion cl else region in
  let labelValues :=
    [InstanceID data; Protocol data; Port data; Vip data; instanceRegion] in
  let '(team, group, name) :=
    match tags with
    | Some tags => (tagValue tags "team", tagValue tags "Group", tagValue tags "Name")
    | None => ("", "", "")
    end in
  labelValues ++ [team; group; name].

(** The set of the instance identifiers the data points name. *)
Definition instanceSetOf (metricData : list MetricData) : gset string :=
  foldl (λ instanceSet data,
           if decide (InstanceID data = "") then instanceSet
           else {[InstanceID data]} ∪ instanceSet)
    ∅ metricData.

Definition CollectSLBMetric (env : Remote) (ctx : Context)
  (metricName : string) (c : SLBCollector) (w : World)
  : World * (list Metric * option error) :=
  let bc := slbBase c in
  let '(w1, fetched) :=
    fetchMetricData env ctx (Namespace (config bc)) metricName w in
  match fetched with
  | Return err => (w1, ([], err))
  | Decoded metricData =>
      let instanceIDs := elements (instanceSetOf metricData) in
      let '(w2, tagsMap) :=
        if decide (0 < length instanceIDs)%nat then
          let '(w2, (tagsMap, err)) := GetSLBInstanceTags env ctx instanceIDs w1 in
          match err with
          | Some _ => (w2, Some ∅)
          | None => (w2, tagsMap)
          end
        else (w1, Some ∅) in
      let tagKeys := ["Team"; "Group"; "Name"] in
      let labels := ["instance_id"; "protocol"; "port"; "vip"] ++ tagKeys in
      let dynamicDesc :=
        NewDesc (BuildFQName (metricPrefix bc) (serviceName bc) metricName)
          (metricName +:+ " metric from Alicloud CMS") labels (globalLabels bc) in
      (w2,
       emitMetrics env
         (λ data,
            buildDynamicSLBLabelValues data (tagsOf tagsMap (InstanceID data)) tagKeys)
         dynamicDesc metricName metricData)
  end.

Definition SLBCollector_Collect (env : Remote) (ctx : Context)
  (c : SLBCollector) (w : World)
  : World * SLBCollector * list Metric * option error :=
  let bc := slbBase c in
  let '(w1, bc1, sent, err) :=
    collectWith "SLB"
      (collectEach (λ metricName, CollectSLBMetric env ctx metricName c)
         (Metrics (config bc)) 0)
      bc w in
  (w1, {| slbBase := bc1 |}, sent, err).

(** *** The interface ServiceCollector, as a sum of its implementations *)

Inductive ServiceCollector : Type :=
| SLB (c : SLBCollector)
| Redis (c : RedisCollector)
| RDS (c : RDSCollector).

Definition baseOf (col : ServiceCollector) : BaseCollector :=
  match col with
  | SLB c => slbBase c
  | Redis c => redisBase c
  | RDS c => rdsBase c
  end.

Definition Name (col : ServiceCollector) : string :=
  BaseCollector_Name (baseOf col).

Definition IsEnabled (col : ServiceCollector) : bool :=
  BaseCollector_Enabled (baseOf col).

Definition Collect (env : Remote) (ctx : Context) (col : ServiceCollector)
  (w : World) : World * ServiceCollector * list Metric * option error :=
  match col with
  | SLB c =>
      let '(w1, c1, sent, err) := SLBCollector_Collect env ctx c w in
      (w1, SLB c1, sent, err)
  | Redis c =>
      let '(w1, c1, sent, err) := RedisCollector_Collect env ctx c w in
      (w1, Redis c1, sent, err)
  | RDS c =>
      let '(w1, c1, sent, err) := RDSCollector_Collect env ctx c w in
      (w1, RDS c1, sent, err)
  end.

End Collection.

End collector.

Module exporter.
Import client config collector.

(** *** Exporter

    The internal metrics are fields: gauges hold their value, counters their
    count, the histogram the durations it has observed. *)

Record Exporter : Type := {
  cfgMetricPrefix : string;
  collectors : list ServiceCollector;
  up : float;
  totalScrapes : nat;
  scrapeErrors : nat;
  scrapeDuration : list Z;
  lastScrapeTime : Z;
  lastScrapeError : float;
}.

Section Scrape.

Variable unmarshal : string → option (list MetricData).

(** The goroutines of [Collect], one per enabled collector, run one after the
    other in the order [sched] gives, goroutine [i] being the one of
    [e.collectors[i]].  A collector is a pointer: the state its [Collect]
    leaves is written back at its index. *)
Fixpoint runCollectors (env : Remote) (ctx : Context) (sched : list nat)
  (cols : list ServiceCollector) (errorCh : list error) (w : World)
  : World * list ServiceCollector * list Metric * list error :=
  match sched with
  | [] => (w, cols, [], errorCh)
  | i :: rest =>
      match cols !! i with
      | None => runCollectors env ctx rest cols errorCh w
      | Some col =>
          if negb (IsEnabled col) then runCollectors env ctx rest cols errorCh w
          else
            let '(w1, col1, sent, err) := Collect unmarshal env ctx col w in
            let errorCh :=
              match err with
              | Some e => errorCh ++ [Errorf ("collector " +:+ Name col +:+ " failed") e]
              | None => errorCh
              end in
            let '(w2, cols2, sent2, errorCh) :=
              runCollectors env ctx rest (<[i := col1]> cols) errorCh w1 in
            (w2, cols2, sent ++ sent2, errorCh)
      end
  end.

Definition Exporter_Collect (env : Remote) (e : Exporter) (w : World)
  : Exporter * World * list Metric :=
  let prefix := cfgMetricPrefix e in
  let start := clock w in
  let totalScrapes := S (totalScrapes e) in
  let ctx := WithTimeout start Background (120 * Second) in
  let '(w1, herr) := Health env ctx w in
  let '(up, scrapeErrors, lastScrapeError) :=
    match herr with
    | Some _ => (0%float, S (scrapeErrors e), 1%float)
    | None => (1%float, scrapeErrors e, 0%float)
    end in
  let '(w2, cols, sent, errorCh) :=
    runCollectors env ctx (goSchedule env (length (collectors e)))
      (collectors e) [] w1 in
  let errorCount := length errorCh in
  let '(scrapeErrors, lastScrapeError) :=
    if (0 <? errorCount)%nat
    then ((scrapeErrors + errorCount)%nat, 1%float)
    else (scrapeErrors, 0%float) in
  let duration := clock w2 - start in
  ({| cfgMetricPrefix := prefix; collectors := cols; up := up; totalScrapes := totalScrapes;
      scrapeErrors := scrapeErrors;
      scrapeDuration := scrapeDuration e ++ [duration];
      lastScrapeTime := clock w2 `div` Second;
      lastScrapeError := lastScrapeError |},
   w2,
   sent ++
   [LiveMetric (BuildFQName prefix "" "up");
    LiveMetric (BuildFQName prefix "" "scrapes_total");
    LiveMetric (BuildFQName prefix "" "scrape_errors_total");
    LiveMetric (BuildFQName prefix "" "scrape_duration_seconds");
    LiveMetric (BuildFQName prefix "" "last_scrape_timestamp_seconds");
    LiveMetric (BuildFQName prefix "" "last_scrape_error")]).

End Scrape.

(** [initCollectors]: one collector per enabled service, in this order. *)
Definition initCollectors (cfg : configuration.Config) : list ServiceCollector :=
  let services := configuration.Services cfg in
  let prom := configuration.Prometheus cfg in
  let collectors := [] in
  let collectors :=
    if Enabled (configuration.SLB services)
    then collectors ++
         [SLB (NewSLBCollector (configuration.SLB services)
                 (configuration.GlobalLabels prom) (configuration.MetricPrefix prom))]
    else collectors in
  let collectors :=
    if Enabled (configuration.Redis services)
    then collectors ++
         [Redis (NewRedisCollector (configuration.Redis services)
                   (configuration.GlobalLabels prom) (configuration.MetricPrefix prom))]
    else collectors in
  let collectors :=
    if Enabled (configuration.RDS services)
    then collectors ++
         [RDS (NewRDSCollector (configuration.RDS services)
                 (configuration.GlobalLabels prom) (configuration.MetricPrefix prom))]
    else collectors in
  collectors.

(** [New]: the exporter around a client already made; its gauges and
    counters start at zero. *)
Definition New (cfg : configuration.Config) : Exporter :=
  {| cfgMetricPrefix := configuration.MetricPrefix (configuration.Prometheus cfg);
     collectors := initCollectors cfg;
     up := 0%float; totalScrapes := 0; scrapeErrors := 0; scrapeDuration := [];
     lastScrapeTime := 0; lastScrapeError := 0%float |}.

End exporter.

Import client config collector exporter.

(** ** Notions the statements use *)

(** [n] consecutive calls of [Wait] by one caller, each made at the instant
    the previous one returned; [sel k] resolves the [select] of call [k]. *)
Fixpoint waitMany (sel : nat → bool) (ctx : Context) (n : nat) (now : Z)
  (rl : RateLimiter) : list WaitResult :=
  match n with
  | O => []
  | S k =>
      let r := RateLimiter_Wait (sel O) ctx now rl in
      r :: waitMany (λ i, sel (S i)) ctx k (waitEnd r) (waitRl r)
  end.

(** A data point of which only the three statistics matter. *)
Definition point (average maximum sum : float) : MetricData :=
  {| collector.Timestamp := 0; UserID := ""; InstanceID := "i-1"; Device := "";
     Port := ""; Protocol := ""; Vip := ""; State := ""; Diskname := "";
     Sum := sum; Maximum := maximum; Average := average; Minimum := 0%float |}.

(** A world whose client holds the given tag cache, at the given instant; its
    limiter is the one [NewRateLimiter] builds for one request per second and
    a burst of one. *)
Definition worldAt (now : Z) (tc : TagCache) (regions : list string) : World :=
  {| theClient :=
       {| cache := NewMetricCache (30 * Second); tagCache := tc;
          rateLimiter :=
            {| tokens := 1; burst := 1; requests := 1; period := Second;
               nextTick := now + Second; closed := false |};
          slbClients := regions; Region := "cn-hangzhou" |};
     clock := now; trace := [] |}.

(** [k] goroutines that all get their slot and all read the cache before
    any of them goes on. *)
Definition startedTogether (k : nat) : list (nat * Z) :=
  map (λ i, (i, 0)) (seq 0 k ++ seq 0 k).

(** A remote side on which every call succeeds at once, with no data; the
    goroutines run in the order they were started. *)
Definition quietRemote : Remote :=
  {| DescribeMetricLast := λ _ _ _, inr {| Datapoints := "" |};
     DescribeLoadBalancers := λ _ _, inr [];
     DescribeMetricMetaList := λ _, None;
     latency := λ _, O;
     selectToken := λ _, true;
     goSchedule := λ k, seq 0 k;
     goInterleaving := λ _, [];
     descError := λ _ _ _ _, None;
     validLabelValue := λ _, true |}.

(** The same, the CMS call failing for the metric names in [failing] and
    returning a payload for the others; goroutines that run together start
    together. *)
Definition failingFor (failing : list string) : Remote :=
  {| DescribeMetricLast := λ _ _ metricName,
       if decide (metricName ∈ failing) then inl (SdkError "Throttling")
       else inr {| Datapoints := "[point]" |};
     DescribeLoadBalancers := λ _ _, inr [];
     DescribeMetricMetaList := λ _, None;
     latency := λ _, O;
     selectToken := λ _, true;
     goSchedule := λ k, seq 0 k;
     goInterleaving := startedTogether;
     descError := λ _ _ _ _, None;
     validLabelValue := λ _, true |}.

(** A context cancelled from the start. *)
Definition cancelledCtx : Context := {| doneAt := Some 0; ctxErr := Canceled |}.

Definition remoteCalls (w : World) : list Event := filter isRemoteCall (trace w).

(** The invariant of the lookup: the identifiers still outstanding are among
    those asked for; every identifier asked for and no longer outstanding is
    in the tag cache, with the tags the result holds for it; the result holds
    nothing else. *)
Definition tagsResolved (ids : list string)
  (tagsMap : gmap string (option (gmap string string))) (tc : TagCache)
  (uncachedSet : gset string) : Prop :=
  (∀ id, id ∈ uncachedSet → id ∈ ids)
  ∧ (∀ id, id ∈ ids → id ∉ uncachedSet →
       is_Some (tc_cache tc !! id) ∧ tagsMap !! id = tc_cache tc !! id)
  ∧ (∀ id, id ∉ ids → tagsMap !! id = None).

(** A remote side whose one region lists the load balancer "lb-1". *)
Definition listingRemote : Remote :=
  {| DescribeMetricLast := λ _ _ _, inr {| Datapoints := "" |};
     DescribeLoadBalancers := λ _ _,
       inr [{| LoadBalancerId := "lb-1";
               Tags := [{| TagKey := "Team"; TagValue := "infra" |}] |}];
     DescribeMetricMetaList := λ _, None;
     latency := λ _, O;
     selectToken := λ _, true;
     goSchedule := λ k, seq 0 k;
     goInterleaving := λ _, [];
     descError := λ _ _ _ _, None;
     validLabelValue := λ _, true |}.




(** A decoder that reads every payload as one data point of average 0,
    maximum 7 and sum 12. *)
Definition decodeOnePoint (payload : string) : option (list MetricData) :=
  Some [point 0 7 12].

Definition fiveMetrics : ServiceConfig :=
  {| Enabled := true; Namespace := "acs_kvstore"; ScrapeInterval := 0;
     Metrics := ["CpuUsage"; "MemoryUsage"; "UsedQPS"; "HitRate"; "Keys"] |}.

(** The remote side [env], the health probe's call answering [outcome]. *)
Definition withProbe (outcome : option error) (env : Remote) : Remote :=
  {| DescribeMetricLast := DescribeMetricLast env;
     DescribeLoadBalancers := DescribeLoadBalancers env;
     DescribeMetricMetaList := λ _, outcome;
     latency := latency env;
     selectToken := selectToken env;
     goSchedule := goSchedule env;
     goInterleaving := goInterleaving env;
     descError := descError env;
     validLabelValue := validLabelValue env |}.

(** Two remote sides that differ at most in what the probe's call answers. *)
Definition sameButProbe (env1 env2 : Remote) : Prop :=
  DescribeMetricLast env1 = DescribeMetricLast env2
  ∧ DescribeLoadBalancers env1 = DescribeLoadBalancers env2
  ∧ latency env1 = latency env2
  ∧ selectToken env1 = selectToken env2
  ∧ goSchedule env1 = goSchedule env2
  ∧ goInterleaving env1 = goInterleaving env2
  ∧ descError env1 = descError env2
  ∧ validLabelValue env1 = validLabelValue env2.

(** An exporter with no collector, scraped for the first time. *)
Definition freshExporter : Exporter :=
  {| cfgMetricPrefix := "alicloud"; collectors := []; up := 0%float;
     totalScrapes := 0; exporter.scrapeErrors := 0;
     exporter.scrapeDuration := []; lastScrapeTime := 0;
     lastScrapeError := 0%float |}.

(** What the listing of the regions [regions] appends to the history: for
    each a token taken, then the call. *)
Definition listingEvents (regions : list string) : list Event :=
  concat (map (λ region, [EvWait None; EvDescribeLoadBalancers region]) regions).

(** The first load balancer of a listing that bears the identifier. *)
Fixpoint firstListed (id : string) (lbs : list LoadBalancer)
  : option LoadBalancer :=
  match lbs with
  | [] => None
  | lb :: rest =>
      if decide (LoadBalancerId lb = id) then Some lb else firstListed id rest
  end.

(** A remote side on which every listing of load balancers fails. *)
Definition noListing : Remote :=
  {| DescribeMetricLast := λ _ _ _, inr {| Datapoints := "[point]" |};
     DescribeLoadBalancers := λ _ _, inl (SdkError "Forbidden");
     DescribeMetricMetaList := λ _, None;
     latency := λ _, O;
     selectToken := λ _, true;
     goSchedule := λ k, seq 0 k;
     goInterleaving := λ _, [];
     descError := λ _ _ _ _, None;
     validLabelValue := λ _, true |}.

(** What identifies a collector: its name, its configuration and its
    descriptors. *)
Definition collectorIdentity (col : ServiceCollector)
  : string * ServiceConfig * gmap string Desc :=
  (Name col, config (baseOf col), metricDescs (baseOf col)).

(** The errors the collectors have counted themselves, all together: the
    sum of their [scrapeErrors] counters, each of which its collector's
    [Collect] increments when it returns an error. *)
Definition collectorErrors (cols : list ServiceCollector) : nat :=
  sum_list_with (λ col, collector.scrapeErrors (baseOf col)) cols.

(** The exporter's own six metrics, which [Collect] sends last. *)
Definition exporterMetrics (prefix : string) : list Metric :=
  [LiveMetric (BuildFQName prefix "" "up");
   LiveMetric (BuildFQName prefix "" "scrapes_total");
   LiveMetric (BuildFQName prefix "" "scrape_errors_total");
   LiveMetric (BuildFQName prefix "" "scrape_duration_seconds");
   LiveMetric (BuildFQName prefix "" "last_scrape_timestamp_seconds");
   LiveMetric (BuildFQName prefix "" "last_scrape_error")].

(** A service that is configured and switched off. *)
Definition switchedOff : ServiceConfig :=
  {| Enabled := false; Namespace := "acs_kvstore"; ScrapeInterval := 0;
     Metrics := ["CpuUsage"] |}.

(** The regions [NewClient] makes a regional client for. *)
Definition regionsOf (cfg : configuration.AlicloudConfig) : list string :=
  match configuration.Regions cfg with
  | [] => [configuration.Region cfg]
  | regions => regions
  end.

(** The objects of the values, separated by commas. *)
Fixpoint instanceIdObjects (values : list string) : string :=
  match values with
  | [] => ""
  | value :: rest =>
      match rest with
      | [] => instanceIdObject value
      | _ => instanceIdObject value +:+ "," +:+ instanceIdObjects rest
      end
  end.

(** A configuration that [Validate] accepts, with the given rate limit. *)
Definition validConfig (requestsPerSecond b : Z) : configuration.Config :=
  {| configuration.Server :=
       {| configuration.ListenAddress := ":9100";
          configuration.MetricsPath := "/metrics";
          configuration.LogLevel := "info";
          configuration.LogFormat := "json" |};
     configuration.Alicloud :=
       {| configuration.AccessKeyID := "id";
          configuration.AccessKeySecret := "secret";
          configuration.Region := "cn-hangzhou";
          configuration.Regions := [];
          configuration.RateLimit :=
            {| configuration.RequestsPerSecond := requestsPerSecond;
               configuration.Burst := b |} |};
     configuration.Services :=
       {| configuration.SLB := switchedOff;
          configuration.Redis := fiveMetrics;
          configuration.RDS := switchedOff |};
     configuration.Prometheus :=
       {| configuration.GlobalLabels := ∅;
          configuration.MetricPrefix := "alicloud";
          configuration.IncludeGoMetrics := false;
          configuration.IncludeProcessMetrics := false |} |}.








(** The data points before the first of which the library refuses a label
    value. *)
Fixpoint accepted (env : Remote) (labelsOf : MetricData → list string)
  (metricData : list MetricData) : list MetricData :=
  match metricData with
  | [] => []
  | data :: rest =>
      if forallb (validLabelValue env) (labelsOf data)
      then data :: accepted env labelsOf rest
      else []
  end.

(** What the loop over the data points sends and returns when every data
    point is given as many label values as the descriptor has labels: with a
    descriptor that carries an error, nothing and that error, at the first
    data point; otherwise a sample per data point, up to the first of which
    the library refuses a label value. *)
Definition emitted (env : Remote) (labelsOf : MetricData → list string)
  (desc : Desc) (metricName : string) (metricData : list MetricData)
  : list Metric * option error :=
  match descError env (fqName desc) (help desc) (variableLabels desc)
          (constLabels desc) with
  | Some err =>
      ([],
       match metricData with
       | [] => None
       | _ :: _ => Some (Errorf ("failed to create metric for " +:+ metricName) err)
       end)
  | None =>
      let ok := accepted env labelsOf metricData in
      (map (λ data, ConstMetric desc (sampleValue data) (labelsOf data)) ok,
       if decide (length ok = length metricData) then None
       else Some (Errorf ("failed to create metric for " +:+ metricName)
                    (MetricError "label value is not valid UTF-8")))
  end.

(** The remote side [noListing], with a library that refuses a descriptor
    of which a variable label is a constant label as well. *)
Definition duplicateLabels : error :=
  MetricError "duplicate label names in constant and variable labels".

Definition strictLibrary : Remote :=
  {| DescribeMetricLast := DescribeMetricLast noListing;
     DescribeLoadBalancers := DescribeLoadBalancers noListing;
     DescribeMetricMetaList := DescribeMetricMetaList noListing;
     latency := latency noListing;
     selectToken := selectToken noListing;
     goSchedule := goSchedule noListing;
     goInterleaving := goInterleaving noListing;
     descError := λ _ _ variableLabels constLabels,
       if decide (Exists (λ label, is_Some (constLabels !! label)) variableLabels)
       then Some duplicateLabels else None;
     validLabelValue := validLabelValue noListing |}.

(** ** Sample values *)

Lemma sampleValue_average (data : MetricData) :
  (Average data =? 0)%float = false → sampleValue data = Average data.
Proof. intros H. unfold sampleValue. rewrite H. simpl. by rewrite H. Qed.

Lemma sampleValue_maximum (data : MetricData) :
  (Average data =? 0)%float = true → (Maximum data =? 0)%float = false →
  sampleValue data = Maximum data.
Proof. intros Ha Hm. unfold sampleValue. rewrite Ha. simpl. by rewrite Hm. Qed.

Lemma sampleValue_sum (data : MetricData) :
  (Average data =? 0)%float = true → (Maximum data =? 0)%float = true →
  sampleValue data = Sum data.
Proof. intros Ha Hm. unfold sampleValue. rewrite Ha. simpl. by rewrite Hm. Qed.

Lemma NewConstMetric_inr env desc value labelValues metric :
  NewConstMetric env desc value labelValues = inr metric →
  metric = ConstMetric desc value labelValues.
Proof.
  unfold NewConstMetric. destruct (descError env _ _ _ _); [done|].
  case_decide; [|done]. destruct (forallb _ _); [|done]. congruence.
Qed.

Lemma emitMetrics_sent env labelsOf desc metricName (metricData : list MetricData) :
  let sent := (emitMetrics env labelsOf desc metricName metricData).1 in
  sent =
  take (length sent)
    (map (λ data, ConstMetric desc (sampleValue data) (labelsOf data)) metricData).
Proof.
  induction metricData as [|data rest IH]; simpl; [done|].
  destruct (NewConstMetric env desc _ _) as [e|metric] eqn:Hm; [done|].
  apply NewConstMetric_inr in Hm as ->.
  destruct (emitMetrics env labelsOf desc metricName rest) as [sent err] eqn:E.
  simpl in *. by rewrite <- IH.
Qed.

(** End to end: a metric whose payload decodes to the data point of average
    0, maximum 7 and sum 12 is sent as one sample of value 7. *)
Example CollectMetric_sends_maximum :
  let bc := redisBase (NewRedisCollector fiveMetrics ∅ "alicloud") in
  (CollectMetric decodeOnePoint (failingFor []) Background "CpuUsage" bc
     (worldAt 0 (NewTagCache (5 * Minute)) [])).2
  = ([ConstMetric
        (NewDesc "alicloud_redis_CpuUsage" "CpuUsage metric from Alicloud CMS"
           ["instance_id"] ∅)
        7%float ["i-1"]],
     None).
Proof. vm_compute. reflexivity. Qed.

(** C1. The value of a sample is the data point's average; when the average
    is zero it is the maximum; when the maximum is zero too it is the sum.
    Every sample the loop over the data points sends carries that value, and
    the two data points of the specification yield 7 and 12. *)
Theorem C1_value_precedence :
  (∀ data : MetricData,
     sampleValue data =
     if (Average data =? 0)%float
     then if (Maximum data =? 0)%float then Sum data else Maximum data
     else Average data)
  ∧ (∀ env labelsOf desc metricName (metricData : list MetricData),
       let sent := (emitMetrics env labelsOf desc metricName metricData).1 in
       sent =
       take (length sent)
         (map (λ data, ConstMetric desc (sampleValue data) (labelsOf data))
            metricData))
  ∧ sampleValue (point 0 7 12) = 7%float
  ∧ sampleValue (point 0 0 12) = 12%float.
Proof.
  split; [|split; [apply emitMetrics_sent|split; reflexivity]].
  intros data.
  destruct (Average data =? 0)%float eqn:Ha.
  - destruct (Maximum data =? 0)%float eqn:Hm.
    + by apply sampleValue_sum.
    + by apply sampleValue_maximum.
  - by apply sampleValue_average.
Qed.

(** ** The caches *)

Lemma MetricCache_Get_absent now key (mc : MetricCache) :
  mc_cache mc !! key = None → MetricCache_Get now key mc = (None, false).
Proof. intros H. unfold MetricCache_Get. by rewrite H. Qed.

Lemma MetricCache_Get_expired now key (mc : MetricCache) entry :
  mc_cache mc !! key = Some entry → TTL entry < now - client.Timestamp entry →
  MetricCache_Get now key mc = (None, false).
Proof.
  intros H Hage. unfold MetricCache_Get, IsExpired. rewrite H.
  destruct (Z.ltb_spec (TTL entry) (now - client.Timestamp entry)); [done|lia].
Qed.

Lemma MetricCache_Get_fresh now key (mc : MetricCache) entry :
  mc_cache mc !! key = Some entry → now - client.Timestamp entry ≤ TTL entry →
  MetricCache_Get now key mc = (Some (Data entry), true).
Proof.
  intros H Hage. unfold MetricCache_Get, IsExpired. rewrite H.
  destruct (Z.ltb_spec (TTL entry) (now - client.Timestamp entry)); [lia|done].
Qed.

Lemma MetricCache_Get_Set now now' key data (mc : MetricCache) :
  now' - now ≤ mc_ttl mc →
  MetricCache_Get now' key (MetricCache_Set now key data mc) = (Some data, true).
Proof.
  intros H.
  rewrite (MetricCache_Get_fresh now' key _
             {| Data := data; client.Timestamp := now; TTL := mc_ttl mc |});
    [done| |done].
  apply lookup_insert_eq.
Qed.

(** [Clear] is what removes an expired entry. *)
Lemma MetricCache_Clear_expired now key (mc : MetricCache) entry :
  mc_cache mc !! key = Some entry → TTL entry < now - client.Timestamp entry →
  mc_cache (MetricCache_Clear now mc) !! key = None.
Proof.
  intros H Hage. unfold MetricCache_Clear; simpl.
  apply map_lookup_filter_None. right. intros x Hx. simpl.
  rewrite H in Hx. injection Hx as <-. unfold IsExpired.
  destruct (Z.ltb_spec (TTL entry) (now - client.Timestamp entry)); [done|lia].
Qed.

Lemma TagCache_Get_absent key (tc : TagCache) :
  tc_cache tc !! key = None → TagCache_Get key tc = (None, false).
Proof. intros H. unfold TagCache_Get. by rewrite H. Qed.

Lemma TagCache_Get_Set key tags (tc : TagCache) :
  TagCache_Get key (TagCache_Set key tags tc) = (tags, true).
Proof. unfold TagCache_Get, TagCache_Set; simpl. by rewrite lookup_insert_eq. Qed.

(** C2. For the metric cache [Get] reports [found = false] for an absent key
    and for an entry older than its TTL, which [Get] leaves in place.  The tag
    cache does so for an absent key only: tags stored in a tag cache of TTL
    five minutes are still found ten minutes later, and a lookup through the
    client is then answered from the cache. *)
Theorem C2_TagCache_Get_ignores_ttl :
  let tags : option (gmap string string) := Some {["Team" := "infra"]} in
  let tc := TagCache_Set "lb-1" tags (NewTagCache (5 * Minute)) in
  TagCache_Get "lb-1" tc = (tags, true)
  ∧ ∀ env : Remote,
      let w := worldAt (10 * Minute) tc ["cn-hangzhou"] in
      GetSLBInstanceTags env Background ["lb-1"] w
      = (w, (Some {["lb-1" := tags]}, None)).
Proof. split; [reflexivity|]. intros env. vm_compute. reflexivity. Qed.

(** ** The labels of an enriched sample *)

Lemma buildDynamicSLBLabelValues_shape data tags tagKeys :
  ∃ team group name,
    buildDynamicSLBLabelValues data tags tagKeys
    = [InstanceID data; Protocol data; Port data; Vip data; team; group; name].
Proof.
  unfold buildDynamicSLBLabelValues. destruct tags; simpl; eauto.
Qed.

Lemma buildDynamicSLBLabelValues_nil data tagKeys :
  buildDynamicSLBLabelValues data None tagKeys
  = [InstanceID data; Protocol data; Port data; Vip data; ""; ""; ""].
Proof. reflexivity. Qed.

(** Tags under any other key never reach the labels. *)
Lemma buildDynamicSLBLabelValues_other_keys data (tags : gmap string string)
  key val tagKeys :
  key ≠ "team" → key ≠ "Group" → key ≠ "Name" →
  buildDynamicSLBLabelValues data (Some (<[key := val]> tags)) tagKeys
  = buildDynamicSLBLabelValues data (Some tags) tagKeys.
Proof.
  intros H1 H2 H3. unfold buildDynamicSLBLabelValues, tagValue.
  by rewrite !lookup_insert_ne.
Qed.

(** C8. Seven label values are built, the last three for Team, Group and
    Name.  The team is looked up under "team" only, the group under "Group"
    only and the name under "Name" only, in both versions of the function: a
    tag stored as "Team", "group" or "name" yields the empty string, where
    [buildSLBLabelValues] reads "Team". *)
Theorem C8_one_casing_per_key :
  let data := point 1 0 0 in
  let tagKeys := ["Team"; "Group"; "Name"] in
  let cl := theClient (worldAt 0 (NewTagCache (5 * Minute)) []) in
  buildDynamicSLBLabelValues data (Some {["Team" := "infra"]}) tagKeys
  = ["i-1"; ""; ""; ""; ""; ""; ""]
  ∧ buildDynamicSLBLabelValues data (Some {["team" := "infra"]}) tagKeys
    = ["i-1"; ""; ""; ""; "infra"; ""; ""]
  ∧ buildDynamicSLBLabelValues data
      (Some (<["group" := "core"]> {["name" := "edge"]})) tagKeys
    = ["i-1"; ""; ""; ""; ""; ""; ""]
  ∧ buildDynamicSLBLabelValuesWithRegion cl data (Some {["Team" := "infra"]})
      "" tagKeys
    = ["i-1"; ""; ""; ""; "cn-hangzhou"; ""; ""; ""]
  ∧ buildSLBLabelValues (NewSLBCollector
        {| Enabled := true; Namespace := "acs_slb_dashboard";
           ScrapeInterval := 0; Metrics := [] |} ∅ "alicloud")
      data (Some {["Team" := "infra"]})
    = ["i-1"; ""; ""; ""; "infra"; ""; ""].
Proof. repeat split; vm_compute; reflexivity. Qed.

(** ** The rate limiter *)

Lemma worldAt_rateLimiter now tc regions :
  NewRateLimiter now 1 1 = Some (rateLimiter (theClient (worldAt now tc regions))).
Proof. reflexivity. Qed.

Lemma fillTokens_spec (n : nat) (rl : RateLimiter) :
  (tokens rl + n ≤ burst rl)%nat →
  fillTokens n rl = Some (setTokens (tokens rl + n) rl).
Proof.
  revert rl. induction n as [|n IH]; intros rl Hle; simpl.
  - f_equal. destruct rl; unfold setTokens; simpl. f_equal. lia.
  - destruct (Nat.ltb_spec (tokens rl) (burst rl)); [|lia].
    rewrite IH; simpl; [|lia]. f_equal. unfold setTokens; simpl. f_equal. lia.
Qed.

(** A limiter that is constructed starts full, with its first tick one
    period ahead. *)
Lemma NewRateLimiter_Some now requestsPerSecond b rl :
  NewRateLimiter now requestsPerSecond b = Some rl →
  rl = {| tokens := Z.to_nat b; burst := Z.to_nat b;
          requests := requestsPerSecond;
          period := Second ÷ requestsPerSecond;
          nextTick := now + Second ÷ requestsPerSecond; closed := false |}
  ∧ 0 ≤ b ∧ 0 < Second ÷ requestsPerSecond.
Proof.
  unfold NewRateLimiter.
  destruct (Z.ltb_spec b 0); [done|].
  destruct (Z.eqb_spec requestsPerSecond 0); [done|].
  destruct (Z.leb_spec (Second ÷ requestsPerSecond) 0); [done|].
  rewrite fillTokens_spec; simpl; [|lia].
  intros [= <-]. done.
Qed.

(** The constructor returns whenever the configuration is sound. *)
Lemma NewRateLimiter_total now requestsPerSecond b :
  0 ≤ b → 0 < requestsPerSecond ≤ Second →
  is_Some (NewRateLimiter now requestsPerSecond b).
Proof.
  intros Hb Hr. unfold NewRateLimiter.
  destruct (Z.ltb_spec b 0); [lia|].
  destruct (Z.eqb_spec requestsPerSecond 0); [lia|].
  assert (0 < Second ÷ requestsPerSecond).
  { rewrite Z.quot_div_nonneg by (unfold Second; lia).
    apply Z.div_str_pos. lia. }
  destruct (Z.leb_spec (Second ÷ requestsPerSecond) 0); [lia|].
  rewrite fillTokens_spec; simpl; [eauto|lia].
Qed.

Lemma refillTokens_early now (rl : RateLimiter) :
  now < nextTick rl → refillTokens now rl = rl.
Proof.
  intros H. unfold refillTokens, ticksDue.
  destruct (closed rl); [|destruct (Z.ltb_spec now (nextTick rl)); [|lia]];
    simpl; destruct rl; unfold setNextTick; simpl; f_equal; lia.
Qed.

Lemma refillTokens_closed now (rl : RateLimiter) :
  closed rl = true → refillTokens now rl = rl.
Proof.
  intros H. unfold refillTokens, ticksDue. rewrite H. simpl.
  destruct rl; unfold setNextTick; simpl; f_equal; lia.
Qed.

Lemma isDone_WithTimeout now ctx :
  isDone now ctx = false →
  isDone now (WithTimeout now ctx (5 * Second)) = false
  ∧ ∃ deadline,
      doneAt (WithTimeout now ctx (5 * Second)) = Some deadline
      ∧ now < deadline ≤ now + 5 * Second.
Proof.
  unfold isDone, WithTimeout, Second. intros H.
  destruct (doneAt ctx) as [t|] eqn:E.
  - destruct (Z.leb_spec t now); [done|].
    destruct (Z.leb_spec t (now + 5 * 1000000000)).
    + rewrite E. split; [by apply Z.leb_gt|]. exists t. split; [done|lia].
    + simpl. split; [apply Z.leb_gt; lia|]. eexists. split; [done|lia].
  - simpl. split; [apply Z.leb_gt; lia|]. eexists. split; [done|lia].
Qed.

Lemma WithTimeout_deadline now ctx d :
  ∃ deadline,
    doneAt (WithTimeout now ctx d) = Some deadline ∧ deadline ≤ now + d.
Proof.
  unfold WithTimeout. destruct (doneAt ctx) as [t|] eqn:E.
  - destruct (Z.leb_spec t (now + d)); [rewrite E|simpl];
      (eexists; split; [done|lia]).
  - simpl. eexists. split; [done|lia].
Qed.

(** A buffered token and a live context: the token is taken at once. *)
Lemma Wait_token sel ctx now (rl : RateLimiter) n :
  tokens rl = S n → now < nextTick rl ∨ closed rl = true →
  isDone now ctx = false →
  RateLimiter_Wait sel ctx now rl
  = {| waitErr := None; waitEnd := now; waitRl := setTokens n rl |}.
Proof.
  intros Ht Htick Hctx. unfold RateLimiter_Wait.
  assert (refillTokens now rl = rl) as ->.
  { destruct Htick; [by apply refillTokens_early|by apply refillTokens_closed]. }
  rewrite Ht. by destruct (isDone_WithTimeout now ctx Hctx) as [-> _].
Qed.

(** An empty bucket and a live context: the caller parks, and returns later,
    with a token at the next tick or with the context's error at its
    deadline. *)
Lemma Wait_parked sel ctx now (rl : RateLimiter) :
  tokens rl = O → closed rl = false → now < nextTick rl →
  isDone now ctx = false →
  let r := RateLimiter_Wait sel ctx now rl in
  let timeoutCtx := WithTimeout now ctx (5 * Second) in
  now < waitEnd r
  ∧ match waitErr r with
    | None => waitEnd r = nextTick rl
    | Some e => doneAt timeoutCtx = Some (waitEnd r) ∧ e = ctxErr timeoutCtx
    end.
Proof.
  intros Ht Hc Htick Hctx. unfold RateLimiter_Wait.
  rewrite (refillTokens_early now rl Htick), Ht, Hc.
  destruct (isDone_WithTimeout now ctx Hctx) as [-> (deadline & -> & Hd)].
  simpl.
  destruct (Z.ltb_spec (nextTick rl) deadline); simpl; [done|].
  destruct (Z.eqb_spec (nextTick rl) deadline); simpl.
  - destruct sel; simpl; [done|]. split; [lia|done].
  - split; [lia|done].
Qed.

Lemma waitMany_tokens ctx now (n extra : nat) :
  ∀ (sel' : nat → bool) (rl : RateLimiter),
    tokens rl = n → now < nextTick rl → isDone now ctx = false →
    ∃ pre,
      waitMany sel' ctx (n + extra) now rl
      = pre ++ waitMany (λ i, sel' (n + i)%nat) ctx extra now (setTokens O rl)
      ∧ length pre = n
      ∧ Forall (λ r, waitErr r = None ∧ waitEnd r = now) pre.
Proof.
  induction n as [|n IH]; intros sel' rl Ht Htick Hctx.
  - exists []. simpl. split; [|done].
    f_equal. destruct rl; unfold setTokens; simpl in *. by subst.
  - simpl. rewrite (Wait_token _ ctx now rl n Ht (or_introl Htick) Hctx). simpl.
    destruct (IH (λ i, sel' (S i)) (setTokens n rl)) as (pre & E & Hlen & Hall);
      [done..|].
    eexists (_ :: pre). rewrite E. simpl. split; [done|].
    split; [by rewrite Hlen|]. by constructor.
Qed.

(** C3. A limiter just constructed with burst B admits B consecutive [Wait]
    calls at once (each returns nil at the instant it is called), and the
    call after them parks: it returns later, with a token at the first refill
    tick, or with the context's error when its deadline comes first. *)
Theorem C3_burst_then_wait now requestsPerSecond b (rl : RateLimiter) ctx sel :
  NewRateLimiter now requestsPerSecond b = Some rl →
  isDone now ctx = false →
  let B := Z.to_nat b in
  let rs := waitMany sel ctx (S B) now rl in
  let timeoutCtx := WithTimeout now ctx (5 * Second) in
  length (take B rs) = B
  ∧ Forall (λ r, waitErr r = None ∧ waitEnd r = now) (take B rs)
  ∧ ∃ r, rs !! B = Some r
      ∧ now < waitEnd r
      ∧ match waitErr r with
        | None => waitEnd r = now + Second ÷ requestsPerSecond
        | Some e => doneAt timeoutCtx = Some (waitEnd r) ∧ e = ctxErr timeoutCtx
        end.
Proof.
  intros Hnew Hctx B rs timeoutCtx.
  destruct (NewRateLimiter_Some _ _ _ _ Hnew) as (Hrl & Hb & Hd).
  assert (tokens rl = B) as Ht by (by rewrite Hrl).
  assert (now < nextTick rl) as Htick by (rewrite Hrl; simpl; lia).
  destruct (waitMany_tokens ctx now B 1 sel rl Ht Htick Hctx)
    as (pre & E & Hlen & Hall).
  subst rs. replace (S B) with (B + 1)%nat by lia. rewrite E.
  rewrite take_app_length' by done.
  split; [done|]. split; [done|].
  rewrite lookup_app_r by lia. rewrite Hlen, Nat.sub_diag. simpl.
  eexists. split; [done|].
  pose proof (Wait_parked (sel (B + 0)%nat) ctx now (setTokens O rl)) as Hp.
  simpl in Hp. replace (nextTick rl) with (now + Second ÷ requestsPerSecond) in Hp
    by (by rewrite Hrl).
  apply Hp; [done| by rewrite Hrl | lia | done].
Qed.

Lemma C3_burst_then_wait_witness :
  ∃ rl, NewRateLimiter 0 10 3 = Some rl
    ∧ isDone 0 Background = false
    ∧ map (λ r, (waitErr r, waitEnd r)) (waitMany (λ _, true) Background 4 0 rl)
      = [(None, 0); (None, 0); (None, 0); (None, 100000000)]
    ∧ Forall (λ r, waitErr r = None ∧ waitEnd r = 0)
        (take 3 (waitMany (λ _, true) Background 4 0 rl)).
Proof.
  eexists. split; [reflexivity|]. split; [reflexivity|].
  split; [vm_compute; reflexivity|].
  exact (proj1 (proj2
    (C3_burst_then_wait 0 10 3 _ Background (λ _, true) eq_refl eq_refl))).
Defined.

(** [Close] marks the limiter closed and keeps the tokens it holds. *)
Lemma RateLimiter_Close_closed now (rl : RateLimiter) :
  closed (RateLimiter_Close now rl) = true.
Proof. reflexivity. Qed.

(** A closed limiter with an empty bucket: the caller is released by its
    context only. *)
Lemma Wait_closed_empty sel ctx now (rl : RateLimiter) :
  tokens rl = O → closed rl = true → isDone now ctx = false →
  let r := RateLimiter_Wait sel ctx now rl in
  let timeoutCtx := WithTimeout now ctx (5 * Second) in
  waitErr r = Some (ctxErr timeoutCtx)
  ∧ doneAt timeoutCtx = Some (waitEnd r)
  ∧ now < waitEnd r ≤ now + 5 * Second
  ∧ waitRl r = rl.
Proof.
  intros Ht Hc Hctx. unfold RateLimiter_Wait.
  rewrite (refillTokens_closed now rl Hc), Ht, Hc.
  destruct (isDone_WithTimeout now ctx Hctx) as [-> (deadline & -> & Hd)].
  done.
Qed.

Lemma setClosed_refill t (rl : RateLimiter) :
  refillTokens t (setClosed rl) = setClosed rl.
Proof. by apply refillTokens_closed. Qed.

(** As long as the ticks keep being delivered, a limiter that is closed
    later is to its caller the limiter that is not closed. *)
Lemma WaitClosing_tick_first sel selTick ctx now closeAt (rl0 : RateLimiter) :
  tickBeforeClose selTick closeAt (refillTokens now rl0) = true →
  RateLimiter_WaitClosing sel selTick ctx now closeAt rl0
  = RateLimiter_Wait sel ctx now rl0.
Proof.
  intros Htick. unfold RateLimiter_WaitClosing, RateLimiter_Wait.
  rewrite Htick.
  assert (closed (refillTokens now rl0) = false) as ->; [|done].
  unfold tickBeforeClose in Htick. by destruct (closed (refillTokens now rl0)).
Qed.

(** C4, as the code has it.  [Wait] does not read the closed state, and
    [Close] wakes no one.  A call that [Close] finds parked (the bucket was
    empty when it was made, no tick was delivered before [Close], and its
    context was still live then) stays parked: it returns the error of its
    context when that is done, after [Close] and at most five seconds after
    it was made, and never a token.  Once [Close] has been called the bucket
    is never refilled: a later call with a live context takes a leftover
    token at once when there is one, and otherwise returns the error of its
    context when that is done, at most five seconds after the call. *)
Theorem C4_Wait_after_Close sel ctx now (rl0 : RateLimiter) :
  let timeoutCtx := WithTimeout now ctx (5 * Second) in
  (∀ selTick closeAt,
     let rl := refillTokens now rl0 in
     let r := RateLimiter_WaitClosing sel selTick ctx now closeAt rl0 in
     closed rl0 = false → tokens rl = O →
     now ≤ closeAt → isDone closeAt timeoutCtx = false →
     tickBeforeClose selTick closeAt rl = false →
     waitErr r = Some (ctxErr timeoutCtx)
     ∧ doneAt timeoutCtx = Some (waitEnd r)
     ∧ closeAt < waitEnd r ≤ now + 5 * Second
     ∧ waitRl r = setClosed rl
     ∧ ∀ t, refillTokens t (waitRl r) = waitRl r)
  ∧ (∀ closedAt,
       let rl := RateLimiter_Close closedAt rl0 in
       let r := RateLimiter_Wait sel ctx now rl in
       isDone now ctx = false →
       (∀ t, refillTokens t rl = rl)
       ∧ match tokens rl with
         | S n => waitErr r = None ∧ waitEnd r = now ∧ waitRl r = setTokens n rl
         | O =>
             waitErr r = Some (ctxErr timeoutCtx)
             ∧ doneAt timeoutCtx = Some (waitEnd r)
             ∧ now < waitEnd r ≤ now + 5 * Second
             ∧ waitRl r = rl
         end).
Proof.
  intros timeoutCtx. split.
  - intros selTick closeAt rl r Hopen Hempty Hle Hlive Htick.
    subst r. unfold RateLimiter_WaitClosing. fold rl. fold timeoutCtx.
    rewrite Hempty, Htick.
    destruct (WithTimeout_deadline now ctx (5 * Second))
      as (deadline & Hd & Hmax).
    fold timeoutCtx in Hd.
    assert (closeAt < deadline) as Hlt.
    { unfold isDone in Hlive. rewrite Hd in Hlive. by apply Z.leb_gt in Hlive. }
    assert (isDone now timeoutCtx = false) as ->.
    { unfold isDone. rewrite Hd. apply Z.leb_gt. lia. }
    rewrite Hd. cbn [default from_option id waitErr waitEnd waitRl].
    destruct (Z.leb_spec closeAt deadline); [|lia].
    split_and!; [done|done|lia|done|done|]. intros t. apply setClosed_refill.
  - intros closedAt rl r Hctx.
    split; [intros t; by apply refillTokens_closed|].
    destruct (tokens rl) as [|n] eqn:Ht.
    + by apply Wait_closed_empty.
    + subst r. by rewrite (Wait_token sel ctx now rl n Ht (or_intror eq_refl) Hctx).
Qed.

Lemma C4_Wait_after_Close_witness :
  let rl0 :=
    {| tokens := 1; burst := 1; requests := 10; period := 100000000;
       nextTick := 100000000; closed := false |} in
  NewRateLimiter 0 10 1 = Some rl0
  ∧ isDone 7 Background = false
  ∧ waitErr
      (RateLimiter_WaitClosing false false Background 7 8 (setTokens 0 rl0))
    = Some DeadlineExceeded
  ∧ waitEnd
      (RateLimiter_WaitClosing false false Background 7 8 (setTokens 0 rl0))
    = 7 + 5 * Second
  ∧ waitErr (RateLimiter_Wait false Background 7 (RateLimiter_Close 5 rl0)) = None
  ∧ waitErr
      (RateLimiter_Wait false Background 7
         (RateLimiter_Close 6 (setTokens 0 rl0)))
    = Some DeadlineExceeded.
Proof.
  intros rl0. split; [reflexivity|]. split; [reflexivity|].
  destruct (C4_Wait_after_Close false Background 7 (setTokens 0 rl0))
    as [Hpending Hlater].
  destruct (Hpending false 8) as (Herr & Hend & _);
    [reflexivity|reflexivity|lia|reflexivity|reflexivity|].
  split; [exact Herr|]. split.
  { apply (inj Some). rewrite <- Hend. reflexivity. }
  split.
  - destruct (C4_Wait_after_Close false Background 7 rl0) as [_ H].
    specialize (H 5 eq_refl). simpl in H. exact (proj1 (proj2 H)).
  - specialize (Hlater 6 eq_refl). simpl in Hlater. exact (proj1 (proj2 Hlater)).
Defined.

(** C4 as stated fails: after [Close], a [Wait] finds the two tokens the
    limiter was filled with and succeeds at once, taking one; with an empty
    bucket the call returns its error only five seconds later; and so does
    the call that [Close] finds parked. *)
Lemma C4_Wait_succeeds_after_Close :
  ∃ rl0, NewRateLimiter 0 10 2 = Some rl0
    ∧ (let r := RateLimiter_Wait false Background 0 (RateLimiter_Close 0 rl0) in
       waitErr r = None ∧ waitEnd r = 0 ∧ tokens (waitRl r) = 1%nat)
    ∧ (let r :=
         RateLimiter_Wait false Background 0
           (RateLimiter_Close 0 (setTokens 0 rl0)) in
       waitErr r = Some DeadlineExceeded ∧ waitEnd r = 5 * Second)
    ∧ (let r :=
         RateLimiter_WaitClosing false false Background 0 1000000
           (setTokens 0 rl0) in
       waitErr r = Some DeadlineExceeded ∧ waitEnd r = 5 * Second).
Proof. eexists. split; [reflexivity|]. repeat split; vm_compute; done. Qed.

(** ** GetMetricData *)

Lemma GetMetricData_hit env ctx namespace metricName (w : World) cached :
  MetricCache_Get (clock w) (cacheKey namespace metricName) (cache (theClient w))
  = (cached, true) →
  GetMetricData env ctx namespace metricName w = (w, (cached, None)).
Proof. intros H. unfold GetMetricData. by rewrite H. Qed.

Lemma GetMetricData_miss env ctx namespace metricName (w : World) cached :
  MetricCache_Get (clock w) (cacheKey namespace metricName) (cache (theClient w))
  = (cached, false) →
  GetMetricData env ctx namespace metricName w
  = let '(w1, werr) := acquire env ctx w in
    match werr with
    | Some err => (w1, (None, Some (Errorf "rate limiter wait failed" err)))
    | None =>
        let w2 := remoteCall env (EvDescribeMetricLast namespace metricName) w1 in
        match DescribeMetricLast env (length (trace w1)) namespace metricName with
        | inl err =>
            (w2, (None, Some (Errorf (getMetricFailed namespace metricName) err)))
        | inr response =>
            (setCache
               (MetricCache_Set (clock w2) (cacheKey namespace metricName)
                  response (cache (theClient w2))) w2,
             (Some response, None))
        end
    end.
Proof. intros H. unfold GetMetricData. by rewrite H. Qed.

(** A nil response comes with an error only. *)
Lemma GetMetricData_response env ctx namespace metricName (w : World) :
  let '(_, (response, err)) := GetMetricData env ctx namespace metricName w in
  err = None → is_Some response.
Proof.
  unfold GetMetricData, MetricCache_Get.
  destruct (mc_cache (cache (theClient w)) !! cacheKey namespace metricName)
    as [entry|]; [destruct (IsExpired (clock w) entry)|]; simpl; eauto;
    destruct (waitErr _); simpl; try done;
    destruct (DescribeMetricLast env _ namespace metricName); simpl; eauto; done.
Qed.

(** C5. [GetMetricData] consults the metric cache first.
    - Hit: the cached response is returned and the world is unchanged, so no
      token is taken and no remote call is made.
    - Miss, and the wait for a token fails: the error is returned, wrapped;
      no remote call is made and the cache is unchanged.
    - Miss, a token is taken, the remote call fails: the error is returned,
      wrapped, and the cache is unchanged.
    - Miss, a token is taken, the remote call succeeds: the response is
      returned, and stored in the cache under the key at the instant the call
      returned. *)
Theorem C5_GetMetricData env ctx namespace metricName (w : World) :
  let key := cacheKey namespace metricName in
  let lookup := MetricCache_Get (clock w) key (cache (theClient w)) in
  let wait :=
    RateLimiter_Wait (selectToken env (length (trace w))) ctx (clock w)
      (rateLimiter (theClient w)) in
  let remote :=
    DescribeMetricLast env (S (length (trace w))) namespace metricName in
  let w' := (GetMetricData env ctx namespace metricName w).1 in
  let result := (GetMetricData env ctx namespace metricName w).2 in
  (lookup.2 = true → w' = w ∧ result = (lookup.1, None))
  ∧ (lookup.2 = false → ∀ e, waitErr wait = Some e →
       result = (None, Some (Errorf "rate limiter wait failed" e))
       ∧ cache (theClient w') = cache (theClient w)
       ∧ trace w' = trace w ++ [EvWait (Some e)]
       ∧ remoteCalls w' = remoteCalls w)
  ∧ (lookup.2 = false → waitErr wait = None → ∀ e, remote = inl e →
       result = (None, Some (Errorf (getMetricFailed namespace metricName) e))
       ∧ cache (theClient w') = cache (theClient w)
       ∧ trace w'
         = trace w ++ [EvWait None; EvDescribeMetricLast namespace metricName]
       ∧ rateLimiter (theClient w') = waitRl wait)
  ∧ (lookup.2 = false → waitErr wait = None → ∀ response, remote = inr response →
       result = (Some response, None)
       ∧ cache (theClient w')
         = MetricCache_Set (clock w') key response (cache (theClient w))
       ∧ trace w'
         = trace w ++ [EvWait None; EvDescribeMetricLast namespace metricName]
       ∧ rateLimiter (theClient w') = waitRl wait).
Proof.
  intros key lookup wait remote w' result.
  destruct lookup as [cached found] eqn:Hl. simpl.
  subst w' result. split; [|split; [|split]].
  - intros ->. by rewrite (GetMetricData_hit _ _ _ _ _ _ Hl).
  - intros -> e He. rewrite (GetMetricData_miss _ _ _ _ _ _ Hl).
    unfold acquire. fold wait. rewrite He. simpl.
    repeat split. unfold remoteCalls. simpl.
    by rewrite filter_app, app_nil_r.
  - intros -> Hw e He. rewrite (GetMetricData_miss _ _ _ _ _ _ Hl).
    unfold acquire. fold wait. rewrite Hw. simpl.
    rewrite length_app, Nat.add_comm. simpl. fold remote. rewrite He. simpl.
    by rewrite <- app_assoc.
  - intros -> Hw response He. rewrite (GetMetricData_miss _ _ _ _ _ _ Hl).
    unfold acquire. fold wait. rewrite Hw. simpl.
    assert (length (trace w ++ [EvWait None]) = S (length (trace w))) as Hlen
      by (rewrite length_app; simpl; lia).
    rewrite !Hlen. fold remote. rewrite He. simpl.
    rewrite !Hlen. by rewrite <- app_assoc.
Qed.

Lemma C5_GetMetricData_witness :
  let w0 := worldAt 0 (NewTagCache (5 * Minute)) [] in
  let w1 := (GetMetricData quietRemote Background "acs_kvstore" "CpuUsage" w0).1 in
  (GetMetricData quietRemote Background "acs_kvstore" "CpuUsage" w0).2
  = (Some {| Datapoints := "" |}, None)
  ∧ (GetMetricData quietRemote Background "acs_kvstore" "CpuUsage" w1).1 = w1
  ∧ (GetMetricData quietRemote cancelledCtx "acs_kvstore" "MemoryUsage" w1).2
    = (None, Some (Errorf "rate limiter wait failed" Canceled))
  ∧ (GetMetricData (failingFor ["CpuUsage"]) Background "acs_kvstore" "CpuUsage" w0).2
    = (None,
       Some (Errorf "failed to get metric data for acs_kvstore/CpuUsage"
               (SdkError "Throttling"))).
Proof.
  intros w0 w1. split; [|split; [|split]].
  - pose proof (C5_GetMetricData quietRemote Background "acs_kvstore" "CpuUsage" w0)
      as (_ & _ & _ & H).
    exact (proj1 (H ltac:(vm_compute; reflexivity) ltac:(vm_compute; reflexivity)
                    _ ltac:(vm_compute; reflexivity))).
  - pose proof (C5_GetMetricData quietRemote Background "acs_kvstore" "CpuUsage" w1)
      as (H & _).
    exact (proj1 (H ltac:(vm_compute; reflexivity))).
  - pose proof (C5_GetMetricData quietRemote cancelledCtx "acs_kvstore" "MemoryUsage" w1)
      as (_ & H & _).
    exact (proj1 (H ltac:(vm_compute; reflexivity) _ ltac:(vm_compute; reflexivity))).
  - pose proof (C5_GetMetricData (failingFor ["CpuUsage"]) Background
                  "acs_kvstore" "CpuUsage" w0) as (_ & _ & H & _).
    exact (proj1 (H ltac:(vm_compute; reflexivity) ltac:(vm_compute; reflexivity)
                    _ ltac:(vm_compute; reflexivity))).
Defined.

(** ** GetSLBInstanceTags *)

Section TagLookup.

Implicit Types (tc : TagCache) (ids : list string) (w : World).
Implicit Types (tagsMap : gmap string (option (gmap string string))).
Implicit Types (uncachedSet : gset string).

Lemma filter_none {A} (P : A → Prop) `{∀ x, Decision (P x)} (l : list A) :
  (∀ x, x ∈ l → ¬ P x) → filter P l = [].
Proof.
  induction l as [|x l IH]; intros Hl; [done|].
  rewrite filter_cons_False by (apply Hl; by left).
  apply IH. intros y Hy. apply Hl. by right.
Qed.

Lemma checkTagCache_cached tc ids : ∀ tagsMap uncachedIDs id tags,
  id ∈ ids → tc_cache tc !! id = Some tags →
  (checkTagCache tc ids tagsMap uncachedIDs).1 !! id = Some tags.
Proof.
  induction ids as [|i rest IH]; intros tagsMap uncachedIDs id tags Hin Hc.
  - by apply elem_of_nil in Hin.
  - simpl. unfold TagCache_Get.
    destruct (decide (id ∈ rest)) as [Hr|Hr].
    + destruct (tc_cache tc !! i); by apply IH.
    + apply elem_of_cons in Hin as [->|]; [|done]. rewrite Hc.
      clear IH Hc. revert tagsMap uncachedIDs.
      assert (∀ tagsMap uncachedIDs,
                 tagsMap !! i = Some tags →
                 (checkTagCache tc rest tagsMap uncachedIDs).1 !! i = Some tags)
        as Hkeep.
      { induction rest as [|j rest IH]; intros tagsMap uncachedIDs Hi; [done|].
        simpl. unfold TagCache_Get.
        apply not_elem_of_cons in Hr as [Hne Hr].
        destruct (tc_cache tc !! j); apply IH; try done.
        by rewrite lookup_insert_ne. }
      intros tagsMap uncachedIDs. apply Hkeep. apply lookup_insert_eq.
Qed.

Lemma checkTagCache_other tc ids : ∀ tagsMap uncachedIDs id,
  id ∉ ids ∨ tc_cache tc !! id = None →
  (checkTagCache tc ids tagsMap uncachedIDs).1 !! id = tagsMap !! id.
Proof.
  induction ids as [|i rest IH]; intros tagsMap uncachedIDs id H; [done|].
  simpl. unfold TagCache_Get.
  assert (id ∉ rest ∨ tc_cache tc !! id = None) as H'.
  { destruct H as [H|H]; [left|by right]. by apply not_elem_of_cons in H as [_ ?]. }
  destruct (tc_cache tc !! i) as [tags|] eqn:Hi; rewrite IH by done; [|done].
  apply lookup_insert_ne. intros ->.
  destruct H as [H|H]; [|congruence]. apply H. by left.
Qed.

Lemma checkTagCache_uncached tc ids : ∀ tagsMap uncachedIDs,
  (checkTagCache tc ids tagsMap uncachedIDs).2
  = uncachedIDs ++ filter (λ id, tc_cache tc !! id = None) ids.
Proof.
  induction ids as [|i rest IH]; intros tagsMap uncachedIDs; simpl.
  - by rewrite app_nil_r.
  - unfold TagCache_Get. destruct (tc_cache tc !! i) as [tags|] eqn:Hi.
    + rewrite IH. rewrite filter_cons_False; [done|]. by rewrite Hi.
    + rewrite IH. rewrite filter_cons_True by done. by rewrite <- app_assoc.
Qed.

(** When the tag cache holds every identifier asked for, the call is answered
    from it and leaves the world as it was. *)
Lemma GetSLBInstanceTags_cached env ctx ids w :
  (∀ id, id ∈ ids → is_Some (tc_cache (tagCache (theClient w)) !! id)) →
  GetSLBInstanceTags env ctx ids w
  = (w, (Some (checkTagCache (tagCache (theClient w)) ids ∅ []).1, None)).
Proof.
  intros Hall. unfold GetSLBInstanceTags.
  destruct ids as [|i rest]; [done|].
  case_decide as Hlen; [done|]. clear Hlen.
  destruct (checkTagCache (tagCache (theClient w)) (i :: rest) ∅ [])
    as [tagsMap uncachedIDs] eqn:E.
  assert (uncachedIDs = []) as ->.
  { change uncachedIDs with (tagsMap, uncachedIDs).2. rewrite <- E.
    rewrite checkTagCache_uncached. apply filter_none.
    intros id Hin Hnone. destruct (Hall id Hin) as [tags Htags]. congruence. }
  done.
Qed.

(** C10. With no identifier to look up, the result is an empty map that is
    not nil and no error, and the world is unchanged: no token is taken, no
    remote call is made, the tag cache is as it was.  When the tag cache holds
    every identifier asked for, the call returns what the cache holds for
    them, and again leaves the world unchanged. *)
Theorem C10_empty_or_cached env ctx w :
  GetSLBInstanceTags env ctx [] w = (w, (Some ∅, None))
  ∧ ∀ ids,
      (∀ id, id ∈ ids → is_Some (tc_cache (tagCache (theClient w)) !! id)) →
      ∃ tagsMap,
        GetSLBInstanceTags env ctx ids w = (w, (Some tagsMap, None))
        ∧ (∀ id, id ∈ ids →
             tagsMap !! id = tc_cache (tagCache (theClient w)) !! id)
        ∧ (∀ id, id ∉ ids → tagsMap !! id = None).
Proof.
  split; [done|]. intros ids Hall.
  eexists. split; [by apply GetSLBInstanceTags_cached|]. split.
  - intros id Hin. destruct (Hall id Hin) as [tags Htags].
    rewrite Htags. by apply checkTagCache_cached.
  - intros id Hin. rewrite checkTagCache_other by (by left). done.
Qed.

Lemma C10_empty_or_cached_witness :
  let tags : option (gmap string string) := Some {["Team" := "infra"]} in
  let w :=
    worldAt 0 (TagCache_Set "lb-1" tags (NewTagCache (5 * Minute)))
      ["cn-hangzhou"] in
  (∀ id, id ∈ ["lb-1"] → is_Some (tc_cache (tagCache (theClient w)) !! id))
  ∧ ∃ tagsMap,
      GetSLBInstanceTags quietRemote Background ["lb-1"] w
      = (w, (Some tagsMap, None))
      ∧ tagsMap !! "lb-1" = Some tags.
Proof.
  intros tags w.
  assert (∀ id, id ∈ ["lb-1"] →
                is_Some (tc_cache (tagCache (theClient w)) !! id)) as Hall.
  { intros id Hin. apply list_elem_of_singleton in Hin as ->.
    exists tags. vm_compute. reflexivity. }
  split; [exact Hall|].
  destruct (proj2 (C10_empty_or_cached quietRemote Background w) ["lb-1"] Hall)
    as (tagsMap & Hcall & Hin & _).
  exists tagsMap. split; [exact Hcall|].
  rewrite (Hin "lb-1") by (by left). vm_compute. reflexivity.
Defined.

Lemma tagsResolved_step ids tagsMap tc uncachedSet x tags :
  tagsResolved ids tagsMap tc uncachedSet → x ∈ ids →
  tagsResolved ids (<[x := tags]> tagsMap) (TagCache_Set x tags tc)
    (uncachedSet ∖ {[x]}).
Proof.
  intros (Hsub & Hres & Hout) Hx. split; [|split].
  - intros id Hid. apply Hsub. by apply elem_of_difference in Hid as [? _].
  - intros id Hin Hnot. simpl. destruct (decide (id = x)) as [->|Hne].
    + rewrite !lookup_insert_eq. eauto.
    + rewrite !lookup_insert_ne by done. apply Hres; [done|].
      intros Hu. apply Hnot, elem_of_difference. split; [done|].
      by intros ?%elem_of_singleton.
  - intros id Hid. rewrite lookup_insert_ne by (intros ->; done). by apply Hout.
Qed.

Lemma tagsResolved_initial tc ids :
  tagsResolved ids (checkTagCache tc ids ∅ []).1 tc
    (list_to_set (checkTagCache tc ids ∅ []).2).
Proof.
  rewrite checkTagCache_uncached. simpl. split; [|split].
  - intros id Hid. apply elem_of_list_to_set, list_elem_of_filter in Hid.
    by destruct Hid.
  - intros id Hin Hnot.
    destruct (tc_cache tc !! id) as [tags|] eqn:Hc.
    + split; [eauto|]. by apply checkTagCache_cached.
    + exfalso. apply Hnot. apply elem_of_list_to_set, list_elem_of_filter. done.
  - intros id Hid. rewrite checkTagCache_other by (by left). done.
Qed.

Lemma processLoadBalancers_resolved ids lbs : ∀ tagsMap tc uncachedSet,
  tagsResolved ids tagsMap tc uncachedSet →
  let '(tagsMap', tc', uncachedSet') :=
    processLoadBalancers lbs tagsMap tc uncachedSet in
  tagsResolved ids tagsMap' tc' uncachedSet'.
Proof.
  induction lbs as [|lb rest IH]; intros tagsMap tc uncachedSet Hinv; [done|].
  simpl. case_decide as Hneeded; [|by apply IH].
  apply IH. apply tagsResolved_step; [done|]. by apply Hinv.
Qed.

Lemma lookupRegions_resolved ids env ctx regions : ∀ tagsMap uncachedSet w,
  tagsResolved ids tagsMap (tagCache (theClient w)) uncachedSet →
  let '(w', (tagsMap', uncachedSet', _)) :=
    lookupRegions env ctx regions tagsMap uncachedSet w in
  tagsResolved ids tagsMap' (tagCache (theClient w')) uncachedSet'.
Proof.
  induction regions as [|region rest IH]; intros tagsMap uncachedSet w Hinv;
    [done|].
  simpl. case_decide as Hsize; [done|].
  destruct (waitErr _); [done|].
  destruct (DescribeLoadBalancers env _ region) as [err|response].
  - by apply IH.
  - pose proof (processLoadBalancers_resolved ids response tagsMap
                  (tagCache (theClient w)) uncachedSet Hinv) as Hp.
    simpl.
    destruct (processLoadBalancers response tagsMap (tagCache (theClient w))
                uncachedSet) as [[tagsMap' tc'] uncachedSet'].
    by apply IH.
Qed.

Lemma cacheEmptyTags_resolved ids remaining : ∀ tagsMap tc uncachedSet,
  tagsResolved ids tagsMap tc uncachedSet →
  (∀ id, id ∈ remaining → id ∈ ids) →
  let '(tagsMap', tc') := cacheEmptyTags remaining tagsMap tc in
  tagsResolved ids tagsMap' tc' (uncachedSet ∖ list_to_set remaining).
Proof.
  unfold cacheEmptyTags.
  induction remaining as [|x rest IH]; intros tagsMap tc uncachedSet Hinv Hin.
  - simpl. by rewrite difference_empty_L.
  - simpl.
    rewrite <- difference_difference_l_L.
    apply IH.
    + apply tagsResolved_step; [done|]. apply Hin. by left.
    + intros id Hid. apply Hin. by right.
Qed.

(** With nothing outstanding, the cache answers for every identifier asked
    for, and the result is what a lookup in the cache alone yields. *)
Lemma tagsResolved_done ids tagsMap tc :
  tagsResolved ids tagsMap tc ∅ →
  (∀ id, id ∈ ids → is_Some (tc_cache tc !! id))
  ∧ tagsMap = (checkTagCache tc ids ∅ []).1.
Proof.
  intros (_ & Hres & Hout). split.
  - intros id Hin. by apply Hres.
  - apply map_eq. intros id. destruct (decide (id ∈ ids)) as [Hin|Hin].
    + destruct (Hres id Hin) as [[tags Htags] ->]; [apply not_elem_of_empty|].
      rewrite Htags. symmetry. by apply checkTagCache_cached.
    + rewrite Hout by done. rewrite checkTagCache_other by (by left). done.
Qed.

(** A call that returns no error leaves every identifier asked for in the
    tag cache, and returns what the cache then holds for them. *)
Lemma GetSLBInstanceTags_ok env ctx ids w :
  let r := GetSLBInstanceTags env ctx ids w in
  r.2.2 = None →
  (∀ id, id ∈ ids → is_Some (tc_cache (tagCache (theClient r.1)) !! id))
  ∧ r.2.1 = Some (checkTagCache (tagCache (theClient r.1)) ids ∅ []).1.
Proof.
  unfold GetSLBInstanceTags.
  case_decide as Hempty.
  { destruct ids; [|done]. simpl. intros _. split; [|done].
    intros id Hin. by apply elem_of_nil in Hin. }
  pose proof (tagsResolved_initial (tagCache (theClient w)) ids) as Hinit.
  destruct (checkTagCache (tagCache (theClient w)) ids ∅ [])
    as [tagsMap uncachedIDs] eqn:E. simpl in Hinit.
  case_decide as Hcached.
  { destruct uncachedIDs; [|done]. simpl. intros _.
    destruct (tagsResolved_done ids tagsMap _ Hinit) as [Hall ->].
    split; [done|]. by rewrite E. }
  pose proof (lookupRegions_resolved ids env ctx (slbClients (theClient w))
                tagsMap (list_to_set uncachedIDs) w Hinit) as Hloop.
  destruct (lookupRegions env ctx (slbClients (theClient w)) tagsMap
              (list_to_set uncachedIDs) w)
    as [w1 [[tagsMap1 uncachedSet1] [e|]]]; [done|].
  pose proof (cacheEmptyTags_resolved ids (elements uncachedSet1) tagsMap1
                (tagCache (theClient w1)) uncachedSet1 Hloop) as Hlast.
  destruct (cacheEmptyTags (elements uncachedSet1) tagsMap1
              (tagCache (theClient w1))) as [tagsMap2 tc2].
  simpl. intros _.
  rewrite list_to_set_elements_L, difference_diag_L in Hlast.
  destruct (tagsResolved_done ids tagsMap2 tc2) as [Hall ->]; [|done].
  apply Hlast. intros id Hid. apply Hloop. by apply elem_of_elements.
Qed.

(** C6, as the code has it.  When the first call returns no error, every
    identifier asked for is in the tag cache after it, and a second call with
    the same identifiers, whatever the remote side would answer, returns the
    same tags and leaves the world as the first call left it: no token is
    taken and no region is listed. *)
Theorem C6_second_call_from_cache env1 ctx1 env2 ctx2 ids w :
  let first := GetSLBInstanceTags env1 ctx1 ids w in
  first.2.2 = None →
  (∀ id, id ∈ ids → is_Some (tc_cache (tagCache (theClient first.1)) !! id))
  ∧ GetSLBInstanceTags env2 ctx2 ids first.1 = (first.1, (first.2.1, None)).
Proof.
  intros first Hok.
  destruct (GetSLBInstanceTags_ok env1 ctx1 ids w Hok) as [Hall Htags].
  split; [done|]. fold first in Htags. rewrite Htags.
  by apply GetSLBInstanceTags_cached.
Qed.

End TagLookup.

Lemma C6_second_call_from_cache_witness :
  let w := worldAt 0 (NewTagCache (5 * Minute)) ["cn-hangzhou"] in
  let first := GetSLBInstanceTags listingRemote Background ["lb-1"; "lb-2"] w in
  first.2
  = (Some (<["lb-1" := Some {["Team" := "infra"]}]> {["lb-2" := Some ∅]}), None)
  ∧ remoteCalls first.1 = [EvDescribeLoadBalancers "cn-hangzhou"]
  ∧ GetSLBInstanceTags quietRemote cancelledCtx ["lb-1"; "lb-2"] first.1
    = (first.1, (first.2.1, None)).
Proof.
  intros w first. split; [vm_compute; reflexivity|].
  split; [vm_compute; reflexivity|].
  exact (proj2 (C6_second_call_from_cache listingRemote Background quietRemote
                  cancelledCtx ["lb-1"; "lb-2"] w
                  ltac:(vm_compute; reflexivity))).
Defined.

(** C6 as stated fails.  The bucket is empty and the first call is made with
    a context that is done: the wait for a token fails, the call returns the
    error and "lb-1" is not cached.  The second call, made next with a live
    context, gets its token at the next tick and lists the region. *)
Lemma C6_first_call_fails :
  let w0 := worldAt 0 (NewTagCache (5 * Minute)) ["cn-hangzhou"] in
  let w := (acquire quietRemote Background w0).1 in
  let first := GetSLBInstanceTags listingRemote cancelledCtx ["lb-1"] w in
  let second := GetSLBInstanceTags listingRemote Background ["lb-1"] first.1 in
  tokens (rateLimiter (theClient w)) = O
  ∧ first.2 = (Some ∅, Some (Errorf "rate limiter error" Canceled))
  ∧ TagCache_Get "lb-1" (tagCache (theClient first.1)) = (None, false)
  ∧ remoteCalls first.1 = []
  ∧ remoteCalls second.1 = [EvDescribeLoadBalancers "cn-hangzhou"].
Proof. repeat split; vm_compute; reflexivity. Qed.

(** ** Collecting a list of metrics *)




Section CollectTheorems.

Variable unmarshal : string → option (list MetricData).

Lemma collectWith_disabled service loop (bc : BaseCollector) (w : World) :
  BaseCollector_Enabled bc = false →
  collectWith service loop bc w = (w, bc, [], None).
Proof. intros H. unfold collectWith. by rewrite H. Qed.


(** ** The goroutines of the RDS collector *)













Lemma poolStep_goroutines env ctx bc choice (p : Pool) :
  goroutines (poolStep unmarshal env ctx bc choice p)
  = match goroutines p !! choice.1, Metrics (config bc) !! choice.1 with
    | Some g, Some metric =>
        <[choice.1 :=
            (goStep unmarshal env ctx bc metric (slotsTaken (goroutines p)) g
               (advance choice.2 (poolWorld p))).1.1.1]> (goroutines p)
    | _, _ => goroutines p
    end.
Proof.
  unfold poolStep. destruct (goroutines p !! choice.1); [|done].
  destruct (Metrics (config bc) !! choice.1); [|done].
  by destruct (goStep _ _ _ _ _ _ _ _) as [[[g1 w1] emitted] reported].
Qed.










Lemma finish_length env ctx bc who (p : Pool) :
  length (goroutines (finish unmarshal env ctx bc who p)) = length (goroutines p).
Proof.
  unfold finish.
  assert (∀ q, length (goroutines (resume unmarshal env ctx bc who q))
               = length (goroutines q)) as Hresume.
  { intros q. unfold resume. destruct (goroutines q !! who) as [g|] eqn:Hg; [|done].
    rewrite poolStep_goroutines. cbn [fst]. rewrite Hg.
    destruct (Metrics (config bc) !! who); [|done]. by rewrite length_insert. }
  assert (∀ n q, length (goroutines (Nat.iter n (resume unmarshal env ctx bc who) q))
                 = length (goroutines q)) as Hiter.
  { induction n as [|n IH]; intros q; [done|].
    by rewrite Nat.iter_succ, Hresume. }
  by rewrite !Hiter.
Qed.



End CollectTheorems.


(** Eight goroutines that start together at 0.5 s on a limiter of one
    token and one request per second made at 0 s: one takes the token, five
    are handed the tokens of the ticks at 1 s to 5 s, and the last two give up
    at their deadline, 5.5 s.  Six samples follow the two live metrics, and
    the error reports two failures. *)
Example RDSCollector_Collect_waits_together :
  let cfg :=
    {| Enabled := true; Namespace := "acs_rds_dashboard"; ScrapeInterval := 0;
       Metrics := ["CpuUsage"; "DiskUsage"; "IOPSUsage"; "MemoryUsage";
                   "ConnectionUsage"; "MySQL_QPS"; "MySQL_TPS";
                   "MySQL_ActiveSessions"] |} in
  let w := advance (Second / 2) (worldAt 0 (NewTagCache (5 * Minute)) []) in
  let r :=
    RDSCollector_Collect decodeOnePoint (failingFor []) Background
      (NewRDSCollector cfg ∅ "alicloud") w in
  r.2 = Some (CollectFailed 2 "RDS")
  ∧ length r.1.2 = 8%nat
  ∧ clock r.1.1.1 = 5500000000.
Proof. repeat split; vm_compute; reflexivity. Qed.

(** ** The scrape *)

Lemma withProbe_sameButProbe outcome1 outcome2 env :
  sameButProbe (withProbe outcome1 env) (withProbe outcome2 env).
Proof. by repeat split. Qed.

Section ProbeFrame.

Variable unmarshal : string → option (list MetricData).
Variables env1 env2 : Remote.
Hypothesis Hsame : sameButProbe env1 env2.

Lemma acquire_same ctx (w : World) : acquire env1 ctx w = acquire env2 ctx w.
Proof. destruct Hsame as (_ & _ & _ & Hsel & _). unfold acquire. by rewrite Hsel. Qed.

Lemma remoteCall_same ev (w : World) : remoteCall env1 ev w = remoteCall env2 ev w.
Proof. destruct Hsame as (_ & _ & Hlat & _). unfold remoteCall. by rewrite Hlat. Qed.

Lemma GetMetricData_same ctx namespace metricName (w : World) :
  GetMetricData env1 ctx namespace metricName w
  = GetMetricData env2 ctx namespace metricName w.
Proof.
  unfold GetMetricData. rewrite acquire_same.
  destruct (MetricCache_Get _ _ _) as [cached found].
  destruct found; [done|].
  destruct (acquire env2 ctx w) as [w1 [e|]]; [done|].
  rewrite remoteCall_same. destruct Hsame as (-> & _). done.
Qed.

Lemma lookupRegions_same ctx regions : ∀ tagsMap uncachedSet (w : World),
  lookupRegions env1 ctx regions tagsMap uncachedSet w
  = lookupRegions env2 ctx regions tagsMap uncachedSet w.
Proof.
  induction regions as [|region rest IH]; intros tagsMap uncachedSet w; [done|].
  cbn [lookupRegions]. case_decide; [done|].
  rewrite acquire_same. destruct (acquire env2 ctx w) as [w1 [e|]]; [done|].
  rewrite remoteCall_same. destruct Hsame as (_ & -> & _).
  destruct (DescribeLoadBalancers env2 _ region) as [e|response]; [apply IH|].
  cbv zeta.
  destruct (processLoadBalancers response tagsMap _ uncachedSet) as [[? ?] ?].
  apply IH.
Qed.

Lemma GetSLBInstanceTags_same ctx ids (w : World) :
  GetSLBInstanceTags env1 ctx ids w = GetSLBInstanceTags env2 ctx ids w.
Proof.
  unfold GetSLBInstanceTags. case_decide; [done|].
  destruct (checkTagCache _ ids ∅ []) as [tagsMap uncachedIDs].
  case_decide; [done|]. by rewrite lookupRegions_same.
Qed.

Lemma fetchMetricData_same ctx namespace metricName (w : World) :
  fetchMetricData unmarshal env1 ctx namespace metricName w
  = fetchMetricData unmarshal env2 ctx namespace metricName w.
Proof. unfold fetchMetricData. by rewrite GetMetricData_same. Qed.

Lemma NewConstMetric_same desc value labelValues :
  NewConstMetric env1 desc value labelValues
  = NewConstMetric env2 desc value labelValues.
Proof.
  destruct Hsame as (_ & _ & _ & _ & _ & _ & Hd & Hv).
  unfold NewConstMetric. by rewrite Hd, Hv.
Qed.

Lemma emitMetrics_same labelsOf desc metricName (metricData : list MetricData) :
  emitMetrics env1 labelsOf desc metricName metricData
  = emitMetrics env2 labelsOf desc metricName metricData.
Proof.
  induction metricData as [|data rest IH]; [done|].
  cbn [emitMetrics]. by rewrite NewConstMetric_same, IH.
Qed.

Lemma emitFetched_same bc metricName fetched :
  emitFetched env1 bc metricName fetched = emitFetched env2 bc metricName fetched.
Proof.
  unfold emitFetched. destruct fetched as [err|metricData]; [done|].
  destruct (metricDescs bc !! metricName); [|done]. apply emitMetrics_same.
Qed.

Lemma CollectMetric_same ctx metricName bc (w : World) :
  CollectMetric unmarshal env1 ctx metricName bc w
  = CollectMetric unmarshal env2 ctx metricName bc w.
Proof.
  unfold CollectMetric. rewrite fetchMetricData_same.
  destruct (fetchMetricData _ _ _ _ _ _) as [w1 fetched].
  by rewrite emitFetched_same.
Qed.

Lemma CollectSLBMetric_same ctx metricName c (w : World) :
  CollectSLBMetric unmarshal env1 ctx metricName c w
  = CollectSLBMetric unmarshal env2 ctx metricName c w.
Proof.
  unfold CollectSLBMetric. rewrite fetchMetricData_same.
  destruct (fetchMetricData _ _ _ _ _ _) as [w1 [err|metricData]]; [done|].
  rewrite GetSLBInstanceTags_same.
  match goal with
  | |- context [if ?d then ?a else ?b] => destruct (if d then a else b) as [w2 tagsMap]
  end.
  by rewrite emitMetrics_same.
Qed.

Lemma collectEach_ext
  (f g : string → World → World * (list Metric * option error)) metrics :
  (∀ m w, f m w = g m w) →
  ∀ errorCount (w : World),
    collectEach f metrics errorCount w = collectEach g metrics errorCount w.
Proof.
  intros Hfg. induction metrics as [|m rest IH]; intros errorCount w; [done|].
  simpl. rewrite Hfg. destruct (g m w) as [w1 [sent err]]. by rewrite IH.
Qed.

Lemma goStep_same ctx bc metric slots g (w : World) :
  goStep unmarshal env1 ctx bc metric slots g w
  = goStep unmarshal env2 ctx bc metric slots g w.
Proof.
  destruct Hsame as (Hcms & _ & Hlat & Hsel & _).
  destruct g as [| |since|returnsAt answer|sent pending err|sent err];
    cbn [goStep]; try done.
  - destruct (MetricCache_Get _ _ _) as [cachedData found].
    destruct found; [|done]. by rewrite emitFetched_same.
  - rewrite Hcms, Hlat, Hsel.
    destruct (((0 <? _)%nat || _) && _); [done|].
    destruct (isDone _ _); [|done]. by rewrite emitFetched_same.
  - destruct (_ <? _); [done|].
    destruct answer; by rewrite emitFetched_same.
Qed.

Lemma poolStep_same ctx bc choice (p : Pool) :
  poolStep unmarshal env1 ctx bc choice p = poolStep unmarshal env2 ctx bc choice p.
Proof.
  unfold poolStep. destruct (goroutines p !! choice.1); [|done].
  destruct (Metrics (config bc) !! choice.1); [|done].
  by rewrite goStep_same.
Qed.

Lemma resume_same ctx bc who (p : Pool) :
  resume unmarshal env1 ctx bc who p = resume unmarshal env2 ctx bc who p.
Proof.
  unfold resume. destruct (goroutines p !! who); [|done].
  apply poolStep_same.
Qed.

Lemma iter_ext {A} (f g : A → A) (n : nat) (x : A) :
  (∀ x, f x = g x) → Nat.iter n f x = Nat.iter n g x.
Proof.
  intros Hfg. induction n as [|n IH]; [done|].
  by rewrite !Nat.iter_succ, IH, Hfg.
Qed.

Lemma foldl_ext_all {A B} (f g : A → B → A) (l : list B) :
  (∀ x b, f x b = g x b) → ∀ x, foldl f x l = foldl g x l.
Proof.
  intros Hfg. induction l as [|b l IH]; intros x; [done|].
  simpl. by rewrite Hfg, IH.
Qed.

Lemma finish_same ctx bc who (p : Pool) :
  finish unmarshal env1 ctx bc who p = finish unmarshal env2 ctx bc who p.
Proof.
  unfold finish.
  rewrite (iter_ext _ (resume unmarshal env2 ctx bc who) 4)
    by apply resume_same.
  apply iter_ext, resume_same.
Qed.

Lemma drain_same ctx bc (p : Pool) :
  drain unmarshal env1 ctx bc p = drain unmarshal env2 ctx bc p.
Proof.
  unfold drain.
  rewrite (foldl_ext_all (λ p who, finish unmarshal env1 ctx bc who p)
             (λ p who, finish unmarshal env2 ctx bc who p))
    by (intros; apply finish_same).
  f_equal. apply foldl_ext_all. intros q who.
  destruct (goroutines q !! who) as [g|]; [|reflexivity].
  destruct (holdsSlot g); [apply finish_same|reflexivity].
Qed.

Lemma collectMetricsPool_same ctx bc (w : World) :
  collectMetricsPool unmarshal env1 ctx bc w
  = collectMetricsPool unmarshal env2 ctx bc w.
Proof.
  unfold collectMetricsPool. rewrite drain_same.
  destruct Hsame as (_ & _ & _ & _ & _ & -> & _).
  f_equal. apply foldl_ext_all. intros. apply poolStep_same.
Qed.

Lemma collectWith_ext service
  (loop1 loop2 : World → World * (list Metric * nat)) bc (w : World) :
  (∀ w, loop1 w = loop2 w) →
  collectWith service loop1 bc w = collectWith service loop2 bc w.
Proof. intros H. unfold collectWith. by rewrite H. Qed.

Lemma Collect_same ctx col (w : World) :
  Collect unmarshal env1 ctx col w = Collect unmarshal env2 ctx col w.
Proof.
  destruct col as [c|c|c]; simpl.
  - unfold SLBCollector_Collect.
    rewrite (collectWith_ext "SLB" _
               (collectEach (λ m, CollectSLBMetric unmarshal env2 ctx m c)
                  (Metrics (config (slbBase c))) 0)); [done|].
    intros w'. apply collectEach_ext. intros m w''.
    apply CollectSLBMetric_same.
  - unfold RedisCollector_Collect.
    rewrite (collectWith_ext "Redis" _
               (collectEach (λ m, CollectMetric unmarshal env2 ctx m (redisBase c))
                  (Metrics (config (redisBase c))) 0)); [done|].
    intros w'. apply collectEach_ext. intros m w''. apply CollectMetric_same.
  - unfold RDSCollector_Collect.
    rewrite (collectWith_ext "RDS" _
               (collectMetricsConcurrently unmarshal env2 ctx (rdsBase c)));
      [done|].
    intros w'. unfold collectMetricsConcurrently.
    by rewrite collectMetricsPool_same.
Qed.

Lemma runCollectors_same ctx sched : ∀ cols errorCh (w : World),
  runCollectors unmarshal env1 ctx sched cols errorCh w
  = runCollectors unmarshal env2 ctx sched cols errorCh w.
Proof.
  induction sched as [|i rest IH]; intros cols errorCh w; [done|].
  simpl. destruct (cols !! i) as [col|]; [|apply IH].
  destruct (negb (IsEnabled col)); [apply IH|].
  rewrite Collect_same.
  destruct (Collect unmarshal env2 ctx col w) as [[[w1 col1] sent] err].
  by rewrite IH.
Qed.

End ProbeFrame.

(** C9, as the code has it.  The same scrape with the health probe failing
    and with it succeeding (the probe taking the same time): the samples
    sent, the client, the clock, the trace and the collectors are the same,
    and so are the scrape count, the observed duration, the scrape time and
    the last-scrape-error flag the scrape ends with.  Two fields differ: [up]
    is 0 instead of 1, and the scrape-error counter is one higher. *)
Theorem C9_probe_failure unmarshal env (e : Exporter) (w : World) err :
  let ok := Exporter_Collect unmarshal (withProbe None env) e w in
  let failed := Exporter_Collect unmarshal (withProbe (Some err) env) e w in
  failed.2 = ok.2
  ∧ failed.1.2 = ok.1.2
  ∧ up ok.1.1 = 1%float
  ∧ failed.1.1
    = {| cfgMetricPrefix := cfgMetricPrefix ok.1.1;
         collectors := collectors ok.1.1;
         up := 0%float;
         totalScrapes := totalScrapes ok.1.1;
         exporter.scrapeErrors := S (exporter.scrapeErrors ok.1.1);
         exporter.scrapeDuration := exporter.scrapeDuration ok.1.1;
         lastScrapeTime := lastScrapeTime ok.1.1;
         lastScrapeError := lastScrapeError ok.1.1 |}.
Proof.
  intros ok failed. subst ok failed. unfold Exporter_Collect, Health.
  rewrite (remoteCall_same (withProbe (Some err) env) (withProbe None env)
             (withProbe_sameButProbe _ _ env)).
  cbn [DescribeMetricMetaList withProbe goSchedule].
  rewrite (runCollectors_same unmarshal (withProbe (Some err) env)
             (withProbe None env) (withProbe_sameButProbe _ _ env)).
  destruct (runCollectors unmarshal (withProbe None env) _ _ _ _ _)
    as [[[w2 cols] sent] errorCh].
  destruct (0 <? length errorCh)%nat; simpl; done.
Qed.

(** C9 as stated fails: the failing probe is counted as a scrape error. *)
Lemma C9_probe_failure_is_counted :
  let w := worldAt 0 (NewTagCache (5 * Minute)) [] in
  let ok := Exporter_Collect decodeOnePoint quietRemote freshExporter w in
  let failed :=
    Exporter_Collect decodeOnePoint
      (withProbe (Some (SdkError "timeout")) quietRemote) freshExporter w in
  exporter.scrapeErrors ok.1.1 = 0%nat
  ∧ exporter.scrapeErrors failed.1.1 = 1%nat
  ∧ up failed.1.1 = 0%float
  ∧ lastScrapeError failed.1.1 = 0%float.
Proof. repeat split; vm_compute; reflexivity. Qed.

(** * Further properties of the code *)

(** ** The metric cache *)

(** X1. [Get] after [Set]: the key just set is found, with the data set,
    exactly while no more than the cache's TTL has elapsed since the [Set],
    whatever entry the key held before; every other key is answered as
    before the [Set]. *)
Theorem MetricCache_Get_after_Set now now' key key' data (mc : MetricCache) :
  MetricCache_Get now' key' (MetricCache_Set now key data mc)
  = if decide (key' = key)
    then if mc_ttl mc <? now' - now then (None, false) else (Some data, true)
    else MetricCache_Get now' key' mc.
Proof.
  unfold MetricCache_Get, MetricCache_Set, IsExpired; simpl.
  case_decide as Hk.
  - subst. by rewrite lookup_insert_eq.
  - by rewrite lookup_insert_ne.
Qed.

(** X2. [Clear] removes the entries that are expired and only those, and no
    [Get] made at the instant of the sweep or later can tell that it ran. *)
Theorem MetricCache_Clear_unobservable now now' key (mc : MetricCache) :
  now ≤ now' →
  MetricCache_Get now' key (MetricCache_Clear now mc) = MetricCache_Get now' key mc
  ∧ ∀ entry,
      mc_cache (MetricCache_Clear now mc) !! key = Some entry
      ↔ mc_cache mc !! key = Some entry ∧ IsExpired now entry = false.
Proof.
  intros Hle.
  assert (∀ entry,
            mc_cache (MetricCache_Clear now mc) !! key = Some entry
            ↔ mc_cache mc !! key = Some entry ∧ IsExpired now entry = false)
    as Hlookup.
  { intros entry. unfold MetricCache_Clear; simpl.
    by rewrite map_lookup_filter_Some. }
  split; [|done].
  assert (∀ o, (∀ entry, o = Some entry
                  ↔ mc_cache mc !! key = Some entry ∧ IsExpired now entry = false) →
               match o with
               | Some entry =>
                   if IsExpired now' entry then (None, false)
                   else (Some (Data entry), true)
               | None => (None, false)
               end = MetricCache_Get now' key mc) as Hcase.
  { intros o Ho. unfold MetricCache_Get. destruct o as [entry|].
    - destruct (proj1 (Ho entry) eq_refl) as [-> _]. done.
    - destruct (mc_cache mc !! key) as [entry|] eqn:Hm; [|done].
      destruct (IsExpired now entry) eqn:Hexp.
      + assert (IsExpired now' entry = true) as ->; [|done].
        unfold IsExpired in *. apply Z.ltb_lt. apply Z.ltb_lt in Hexp. lia.
      + discriminate (proj2 (Ho entry) (conj eq_refl Hexp)). }
  by apply Hcase.
Qed.

Lemma MetricCache_Clear_unobservable_witness :
  let mc := MetricCache_Set 0 "acs_kvstore:CpuUsage" {| Datapoints := "[point]" |}
              (NewMetricCache (30 * Second)) in
  40 * Second ≤ 50 * Second
  ∧ mc_cache (MetricCache_Clear (40 * Second) mc) = ∅
  ∧ MetricCache_Get (50 * Second) "acs_kvstore:CpuUsage"
      (MetricCache_Clear (40 * Second) mc)
    = MetricCache_Get (50 * Second) "acs_kvstore:CpuUsage" mc.
Proof.
  intros mc. split; [unfold Second; lia|]. split; [vm_compute; reflexivity|].
  apply (MetricCache_Clear_unobservable (40 * Second) (50 * Second)).
  unfold Second; lia.
Defined.

(** ** The rate limiter, continued *)

Lemma iter_refillTick (n : nat) (rl : RateLimiter) :
  (tokens rl ≤ burst rl)%nat →
  Nat.iter n refillTick rl
  = setTokens (Nat.min (burst rl) (tokens rl + n)) rl.
Proof.
  intros Hle. induction n as [|n IH]; simpl.
  - destruct rl; unfold setTokens; simpl in *. f_equal. lia.
  - rewrite IH. unfold refillTick, setTokens; simpl.
    destruct (Nat.ltb_spec (Nat.min (burst rl) (tokens rl + n)) (burst rl));
      simpl; f_equal; lia.
Qed.

Lemma iter_refillTick_fields (n : nat) (rl : RateLimiter) :
  burst (Nat.iter n refillTick rl) = burst rl
  ∧ period (Nat.iter n refillTick rl) = period rl
  ∧ closed (Nat.iter n refillTick rl) = closed rl
  ∧ requests (Nat.iter n refillTick rl) = requests rl
  ∧ (tokens rl ≤ tokens (Nat.iter n refillTick rl))%nat.
Proof.
  induction n as [|n IH]; [done|]. destruct IH as (Hb & Hp & Hc & Hr & Ht).
  change (Nat.iter (S n) refillTick rl)
    with (refillTick (Nat.iter n refillTick rl)).
  set (r := Nat.iter n refillTick rl) in *.
  unfold refillTick. destruct (tokens r <? burst r)%nat; simpl;
    repeat split; try done; lia.
Qed.

Lemma refillTokens_fields now (rl : RateLimiter) :
  burst (refillTokens now rl) = burst rl
  ∧ period (refillTokens now rl) = period rl
  ∧ closed (refillTokens now rl) = closed rl
  ∧ requests (refillTokens now rl) = requests rl.
Proof.
  unfold refillTokens; simpl.
  destruct (iter_refillTick_fields (ticksDue now rl) rl) as (? & ? & ? & ? & _).
  done.
Qed.

Lemma refillTokens_tokens now (rl : RateLimiter) :
  (tokens rl ≤ burst rl)%nat →
  tokens (refillTokens now rl)
  = Nat.min (burst rl) (tokens rl + ticksDue now rl).
Proof. intros Hle. unfold refillTokens. by rewrite iter_refillTick. Qed.

Lemma refillTokens_grows now (rl : RateLimiter) :
  (tokens rl ≤ tokens (refillTokens now rl))%nat.
Proof.
  unfold refillTokens; simpl.
  by destruct (iter_refillTick_fields (ticksDue now rl) rl) as (_ & _ & _ & _ & ?).
Qed.

(** After the refill the next tick lies ahead. *)
Lemma refillTokens_nextTick now (rl : RateLimiter) :
  0 < period rl → closed rl = false → now < nextTick (refillTokens now rl).
Proof.
  intros Hp Hc. unfold refillTokens, ticksDue. rewrite Hc. simpl.
  destruct (Z.ltb_spec now (nextTick rl)); simpl; [lia|].
  rewrite Z2Nat.id.
  - pose proof (Z.mul_succ_div_gt (now - nextTick rl) (period rl) Hp). lia.
  - pose proof (Z.div_pos (now - nextTick rl) (period rl)). lia.
Qed.

Lemma NewRateLimiter_defined now requestsPerSecond b :
  is_Some (NewRateLimiter now requestsPerSecond b)
  ↔ 0 ≤ b ∧ 1 ≤ requestsPerSecond ≤ 1000000000.
Proof.
  split.
  - intros [rl Hrl].
    destruct (NewRateLimiter_Some _ _ _ _ Hrl) as (_ & Hb & Hd).
    split; [done|]. unfold Second in Hd.
    destruct (Z.lt_trichotomy requestsPerSecond 0) as [Hneg|[->|Hpos]].
    + exfalso.
      replace requestsPerSecond with (- - requestsPerSecond) in Hd by lia.
      rewrite Z.quot_opp_r in Hd by lia.
      pose proof (Z.quot_pos 1000000000 (- requestsPerSecond)). lia.
    + by vm_compute in Hd.
    + split; [lia|].
      destruct (Z.le_gt_cases requestsPerSecond 1000000000); [done|].
      rewrite Z.quot_small in Hd by lia. lia.
  - intros [Hb Hr]. apply NewRateLimiter_total; [done|]. unfold Second. lia.
Qed.

(** X3. [NewRateLimiter] returns exactly when the burst is not negative and
    the rate is between 1 and 10^9 requests per second; otherwise it panics.
    The limiter it returns is full. *)
Theorem NewRateLimiter_returns_iff now requestsPerSecond b :
  (is_Some (NewRateLimiter now requestsPerSecond b)
   ↔ 0 ≤ b ∧ 1 ≤ requestsPerSecond ≤ 1000000000)
  ∧ ∀ rl, NewRateLimiter now requestsPerSecond b = Some rl →
          tokens rl = burst rl ∧ burst rl = Z.to_nat b.
Proof.
  split; [apply NewRateLimiter_defined|].
  intros rl Hrl.
  destruct (NewRateLimiter_Some _ _ _ _ Hrl) as (-> & _ & _). done.
Qed.

(** X4. The bucket never holds more than its capacity: if it does not before
    a refill, a [Wait] or a [Close], it does not after, and none of them
    changes the capacity. *)
Theorem RateLimiter_never_overflows sel ctx now (rl : RateLimiter) :
  (tokens rl ≤ burst rl)%nat →
  ((tokens (refillTokens now rl) ≤ burst rl)%nat
   ∧ burst (refillTokens now rl) = burst rl)
  ∧ ((tokens (waitRl (RateLimiter_Wait sel ctx now rl)) ≤ burst rl)%nat
     ∧ burst (waitRl (RateLimiter_Wait sel ctx now rl)) = burst rl)
  ∧ ((tokens (RateLimiter_Close now rl) ≤ burst rl)%nat
     ∧ burst (RateLimiter_Close now rl) = burst rl).
Proof.
  intros Hle.
  assert (∀ t r, (tokens r ≤ burst r)%nat →
                 (tokens (refillTokens t r) ≤ burst r)%nat
                 ∧ burst (refillTokens t r) = burst r) as Hrefill.
  { intros t r Hr. split; [|apply refillTokens_fields].
    rewrite refillTokens_tokens by done. lia. }
  destruct (Hrefill now rl Hle) as [Ht Hb].
  split; [done|]. split; [|by simpl].
  unfold RateLimiter_Wait.
  remember (refillTokens now rl) as rl1 eqn:Hrl1. clear Hrl1.
  destruct (tokens rl1) as [|n] eqn:Hn;
    destruct (isDone now (WithTimeout now ctx (5 * Second))); cbn [waitRl tokens burst setTokens setNextTick].
  - rewrite ?Hn, ?Hb. split; first [done|lia].
  - destruct (closed rl1); cbn [waitRl tokens burst setTokens setNextTick];
      [rewrite ?Hn, ?Hb; split; first [done|lia]|].
    destruct (_ <? _); cbn [waitRl tokens burst setTokens setNextTick]; [rewrite ?Hn, ?Hb; split; first [done|lia]|].
    destruct (_ =? _); cbn [waitRl tokens burst setTokens setNextTick]; [|rewrite ?Hn, ?Hb; split; first [done|lia]].
    destruct sel; cbn [waitRl tokens burst setTokens setNextTick]; [rewrite ?Hn, ?Hb; split; first [done|lia]|].
    destruct (Hrefill (default now (doneAt (WithTimeout now ctx (5 * Second))))
                rl1) as [Ht2 Hb2]; [lia|].
    rewrite Hb2, Hb. split; [lia|done].
  - destruct sel; cbn [waitRl tokens burst setTokens setNextTick]; rewrite ?Hn, ?Hb; split; first [done|lia].
  - rewrite ?Hb. split; first [done|lia].
Qed.

Lemma RateLimiter_never_overflows_witness :
  let rl :=
    {| tokens := 2; burst := 3; requests := 10; period := 100000000;
       nextTick := 100000000; closed := false |} in
  (tokens rl ≤ burst rl)%nat
  ∧ tokens (refillTokens Second rl) = 3%nat
  ∧ (tokens (refillTokens Second rl) ≤ burst rl)%nat.
Proof.
  intros rl. split; [simpl; lia|]. split; [vm_compute; reflexivity|].
  apply (RateLimiter_never_overflows true Background Second rl). simpl. lia.
Defined.

(** X6. [Wait] returns no earlier than it is called and no later than five
    seconds after, whatever the context and the bucket; the only error it
    returns is the error of its timeout context. *)
Theorem RateLimiter_Wait_bounded sel ctx now (rl : RateLimiter) :
  0 < period rl →
  let r := RateLimiter_Wait sel ctx now rl in
  now ≤ waitEnd r ≤ now + 5 * Second
  ∧ ∀ e, waitErr r = Some e → e = ctxErr (WithTimeout now ctx (5 * Second)).
Proof.
  intros Hp r. subst r. unfold RateLimiter_Wait.
  destruct (refillTokens_fields now rl) as (_ & Hper & Hcl & _).
  pose proof (refillTokens_nextTick now rl Hp) as Hnext.
  remember (refillTokens now rl) as rl1 eqn:Hrl1. clear Hrl1.
  destruct (WithTimeout_deadline now ctx (5 * Second)) as (deadline & Hd & Hle).
  unfold isDone. rewrite Hd. simpl.
  assert (0 < 5 * Second) by (unfold Second; lia).
  destruct (tokens rl1) as [|n]; destruct (Z.leb_spec deadline now); simpl.
  - split; [lia|]. by intros ? [= <-].
  - destruct (closed rl1) eqn:Hc1; simpl; [split; [lia|by intros ? [= <-]]|].
    assert (now < nextTick rl1) as Htick.
    { apply Hnext. congruence. }
    destruct (Z.ltb_spec (nextTick rl1) deadline); simpl; [split; [lia|done]|].
    destruct (Z.eqb_spec (nextTick rl1) deadline); simpl.
    + destruct sel; simpl; [split; [lia|done]|]. split; [lia|by intros ? [= <-]].
    + split; [lia|by intros ? [= <-]].
  - destruct sel; simpl; [split; [lia|done]|]. split; [lia|by intros ? [= <-]].
  - split; [lia|done].
Qed.

Lemma RateLimiter_Wait_bounded_witness :
  let rl :=
    {| tokens := 0; burst := 1; requests := 1; period := Second;
       nextTick := 20 * Second; closed := false |} in
  0 < period rl
  ∧ waitEnd (RateLimiter_Wait true Background Second rl) = 6 * Second
  ∧ Second ≤ waitEnd (RateLimiter_Wait true Background Second rl)
    ≤ Second + 5 * Second.
Proof.
  intros rl. split; [simpl; unfold Second; lia|].
  split; [vm_compute; reflexivity|].
  apply (RateLimiter_Wait_bounded true Background Second rl).
  simpl; unfold Second; lia.
Defined.

(** X7. A [Wait] that fails takes no token: the bucket holds at least what it
    held when the call was made.  A [Wait] that succeeds leaves one token
    fewer than were buffered when it was called, or none when it was handed
    its token by a tick. *)
Theorem RateLimiter_Wait_takes_one sel ctx now (rl : RateLimiter) :
  let buffered := tokens (refillTokens now rl) in
  let r := RateLimiter_Wait sel ctx now rl in
  match waitErr r with
  | Some _ => (buffered ≤ tokens (waitRl r))%nat
  | None => tokens (waitRl r) = Nat.pred buffered
  end.
Proof.
  intros buffered r. subst buffered r. unfold RateLimiter_Wait.
  pose proof (refillTokens_grows (default now (doneAt (WithTimeout now ctx (5 * Second))))
                (refillTokens now rl)) as Hgrow.
  remember (refillTokens now rl) as rl1 eqn:Hrl1. clear Hrl1.
  destruct (tokens rl1) as [|n] eqn:Hn;
    destruct (isDone now (WithTimeout now ctx (5 * Second))); simpl.
  - lia.
  - destruct (closed rl1); simpl; [lia|].
    destruct (_ <? _); simpl; [done|].
    destruct (_ =? _); simpl; [|lia].
    destruct sel; simpl; [done|]. lia.
  - destruct sel; simpl; [done|lia].
  - done.
Qed.

(** ** GetMetricData, continued *)

(** X8. [GetMetricData] returns either a response and no error, or no
    response and an error; the error wraps the rate limiter's error or the
    remote call's, under the message of its origin. *)
Theorem GetMetricData_response_or_error env ctx namespace metricName (w : World) :
  let result := (GetMetricData env ctx namespace metricName w).2 in
  match result.2 with
  | None => is_Some result.1
  | Some e =>
      result.1 = None
      ∧ ∃ cause,
          e = Errorf "rate limiter wait failed" cause
          ∨ e = Errorf (getMetricFailed namespace metricName) cause
  end.
Proof.
  simpl. unfold GetMetricData, MetricCache_Get.
  destruct (mc_cache (cache (theClient w)) !! cacheKey namespace metricName)
    as [entry|]; [destruct (IsExpired (clock w) entry)|]; simpl; eauto;
    destruct (waitErr _); simpl; eauto;
    destruct (DescribeMetricLast env _ namespace metricName); simpl; eauto.
Qed.

(** X9. After a call that returned no error, the same call made next is
    answered from the metric cache: it returns the same response and leaves
    the world as it was, taking no token and making no remote call. *)
Theorem GetMetricData_twice env1 ctx1 env2 ctx2 namespace metricName (w : World) :
  0 ≤ mc_ttl (cache (theClient w)) →
  let first := GetMetricData env1 ctx1 namespace metricName w in
  first.2.2 = None →
  GetMetricData env2 ctx2 namespace metricName first.1 = (first.1, first.2).
Proof.
  intros Httl first. subst first.
  destruct (MetricCache_Get (clock w) (cacheKey namespace metricName)
              (cache (theClient w))) as [cached found] eqn:Hl.
  destruct found.
  - rewrite (GetMetricData_hit _ _ _ _ _ _ Hl). simpl. intros _.
    by apply GetMetricData_hit.
  - rewrite (GetMetricData_miss _ _ _ _ _ _ Hl). unfold acquire.
    destruct (waitErr _); [done|]. cbv zeta.
    destruct (DescribeMetricLast env1 _ namespace metricName) as [e|response];
      [done|].
    simpl. intros _. apply GetMetricData_hit. simpl.
    apply MetricCache_Get_Set. lia.
Qed.

Lemma GetMetricData_twice_witness :
  let w := worldAt 0 (NewTagCache (5 * Minute)) [] in
  let first := GetMetricData quietRemote Background "acs_kvstore" "CpuUsage" w in
  0 ≤ mc_ttl (cache (theClient w))
  ∧ first.2.2 = None
  ∧ GetMetricData (failingFor ["CpuUsage"]) cancelledCtx "acs_kvstore" "CpuUsage"
      first.1
    = (first.1, (Some {| Datapoints := "" |}, None)).
Proof.
  intros w first.
  assert (0 ≤ mc_ttl (cache (theClient w))) as Httl by (vm_compute; discriminate).
  split; [done|]. split; [reflexivity|].
  exact (GetMetricData_twice quietRemote Background (failingFor ["CpuUsage"])
           cancelledCtx "acs_kvstore" "CpuUsage" w Httl eq_refl).
Defined.

(** X10. [GetMetricData] makes at most one remote call, preceded by one wait
    for a token, and appends nothing else to the history; it never touches
    the tag cache, the regional clients or the cache's TTL. *)
Theorem GetMetricData_frame env ctx namespace metricName (w : World) :
  let w' := (GetMetricData env ctx namespace metricName w).1 in
  tagCache (theClient w') = tagCache (theClient w)
  ∧ slbClients (theClient w') = slbClients (theClient w)
  ∧ mc_ttl (cache (theClient w')) = mc_ttl (cache (theClient w))
  ∧ ∃ events,
      trace w' = trace w ++ events
      ∧ (events = []
         ∨ (∃ e, events = [EvWait (Some e)])
         ∨ events = [EvWait None; EvDescribeMetricLast namespace metricName]).
Proof.
  simpl. unfold GetMetricData.
  destruct (MetricCache_Get _ _ _) as [cached found].
  destruct found.
  - simpl. repeat split. exists []. split; [by rewrite app_nil_r|by left].
  - unfold acquire. destruct (waitErr _) as [e|] eqn:He; cbv zeta.
    + simpl. repeat split. eexists. split; [done|]. right; left. eauto.
    + destruct (DescribeMetricLast env _ namespace metricName); simpl;
        repeat split; eexists; (split; [by rewrite <- app_assoc|]);
        right; right; done.
Qed.

(** ** GetSLBInstanceTags, continued *)

Lemma lookupRegions_trace env ctx regions :
  ∀ (tagsMap : gmap string (option (gmap string string)))
    (uncachedSet : gset string) (w : World),
    let r := lookupRegions env ctx regions tagsMap uncachedSet w in
    ∃ k events,
      trace r.1 = trace w ++ listingEvents (take k regions) ++ events
      ∧ ((r.2.2 = None ∧ events = [])
         ∨ ∃ cause,
             r.2.2 = Some (Errorf "rate limiter error" cause)
             ∧ events = [EvWait (Some cause)]).
Proof.
  induction regions as [|region rest IH]; intros tagsMap uncachedSet w.
  - exists O, []. simpl. rewrite app_nil_r. eauto.
  - cbn [lookupRegions]. case_decide.
    { exists O, []. simpl. rewrite app_nil_r. eauto. }
    unfold acquire. destruct (waitErr _) as [cause|] eqn:Hw; cbv zeta.
    { exists O. eexists. simpl. split; [done|]. right. eauto. }
    remember (remoteCall env (EvDescribeLoadBalancers region) _) as w2 eqn:Ew2.
    assert (trace w2 = trace w ++ [EvWait None; EvDescribeLoadBalancers region])
      as Hw2 by (rewrite Ew2; simpl; by rewrite <- app_assoc).
    clear Ew2.
    destruct (DescribeLoadBalancers env _ region) as [e|response].
    + destruct (IH tagsMap uncachedSet w2) as (k & events & Ht & Herr).
      exists (S k), events. rewrite Ht, Hw2. split; [|done].
      simpl. by rewrite <- !app_assoc.
    + destruct (processLoadBalancers response tagsMap _ uncachedSet)
        as [[tagsMap' tc'] uncachedSet'].
      destruct (IH tagsMap' uncachedSet' (setTagCache tc' w2))
        as (k & events & Ht & Herr).
      exists (S k), events. rewrite Ht.
      change (trace (setTagCache tc' w2)) with (trace w2). rewrite Hw2.
      split; [|done]. simpl. by rewrite <- !app_assoc.
Qed.

(** X11. [GetSLBInstanceTags] always returns a map that is not nil, and the
    only error it ever returns is the rate limiter's: a region whose listing
    fails is passed over. *)
Theorem GetSLBInstanceTags_only_limiter_error env ctx ids (w : World) :
  let result := (GetSLBInstanceTags env ctx ids w).2 in
  is_Some result.1
  ∧ match result.2 with
    | None => True
    | Some e => ∃ cause, e = Errorf "rate limiter error" cause
    end.
Proof.
  simpl. unfold GetSLBInstanceTags. case_decide; [simpl; eauto|].
  destruct (checkTagCache _ ids ∅ []) as [tagsMap uncachedIDs].
  case_decide; [simpl; eauto|].
  destruct (lookupRegions_trace env ctx (slbClients (theClient w)) tagsMap
              (list_to_set uncachedIDs) w) as (k & events & _ & Herr).
  destruct (lookupRegions env ctx _ tagsMap _ w) as [w1 [[tagsMap1 us1] err]].
  simpl in Herr. destruct Herr as [[-> _]|(cause & -> & _)].
  - destruct (cacheEmptyTags _ _ _). simpl. eauto.
  - simpl. eauto.
Qed.

(** X12. The history of a call: the regions are listed in the order of
    [slbClients], each at most once and each after one token was taken; the
    call lists a prefix of them, and appends nothing else but, when it
    returns an error, the failed wait the error comes from. *)
Theorem GetSLBInstanceTags_lists_a_prefix env ctx ids (w : World) :
  let r := GetSLBInstanceTags env ctx ids w in
  ∃ k events,
    trace r.1
    = trace w ++ listingEvents (take k (slbClients (theClient w))) ++ events
    ∧ ((r.2.2 = None ∧ events = [])
       ∨ ∃ cause,
           r.2.2 = Some (Errorf "rate limiter error" cause)
           ∧ events = [EvWait (Some cause)]).
Proof.
  simpl. unfold GetSLBInstanceTags.
  case_decide; [exists O, []; simpl; rewrite app_nil_r; eauto|].
  destruct (checkTagCache _ ids ∅ []) as [tagsMap uncachedIDs].
  case_decide; [exists O, []; simpl; rewrite app_nil_r; eauto|].
  destruct (lookupRegions_trace env ctx (slbClients (theClient w)) tagsMap
              (list_to_set uncachedIDs) w) as (k & events & Ht & Herr).
  destruct (lookupRegions env ctx _ tagsMap _ w) as [w1 [[tagsMap1 us1] err]].
  simpl in Ht, Herr. exists k, events.
  destruct Herr as [[-> ->]|(cause & -> & ->)].
  - destruct (cacheEmptyTags _ _ _). simpl. split; [done|by left].
  - simpl. split; [done|]. right. eauto.
Qed.

(** X13. The tags of a load balancer are read off its tag list from first to
    last, so that of several tags with one key the last gives the value. *)
Theorem extractTags_last_wins (lb : LoadBalancer) key :
  extractTags lb !! key
  = TagValue <$> last (filter (λ tag, TagKey tag = key) (Tags lb)).
Proof.
  unfold extractTags. induction (Tags lb) as [|tag tags IH] using rev_ind.
  - done.
  - rewrite foldl_app, filter_app. simpl.
    destruct (decide (TagKey tag = key)) as [<-|Hne].
    + rewrite lookup_insert_eq.
      rewrite filter_cons_True by done. rewrite filter_nil.
      by rewrite last_snoc.
    + rewrite lookup_insert_ne by done.
      rewrite filter_cons_False by done. rewrite filter_nil, app_nil_r.
      apply IH.
Qed.

(** X14. One listing is filtered against the identifiers still outstanding:
    an outstanding identifier that is listed gets the tags of the first load
    balancer listed with it, in the result and in the tag cache, and is then
    outstanding no more; for every other identifier the result and the tag
    cache are as they were. *)
Theorem processLoadBalancers_first_match lbs :
  ∀ (tagsMap : gmap string (option (gmap string string))) (tc : TagCache)
    (uncachedSet : gset string),
    let r := processLoadBalancers lbs tagsMap tc uncachedSet in
    r.2 = uncachedSet ∖ list_to_set (map LoadBalancerId lbs)
    ∧ tc_ttl r.1.2 = tc_ttl tc
    ∧ ∀ id,
        let found :=
          if decide (id ∈ uncachedSet) then firstListed id lbs else None in
        r.1.1 !! id
        = match found with
          | Some lb => Some (Some (extractTags lb))
          | None => tagsMap !! id
          end
        ∧ tc_cache r.1.2 !! id
          = match found with
            | Some lb => Some (Some (extractTags lb))
            | None => tc_cache tc !! id
            end.
Proof.
  induction lbs as [|lb rest IH]; intros tagsMap tc uncachedSet.
  - simpl. split; [by rewrite difference_empty_L|]. split; [done|].
    intros id. by case_decide.
  - cbn [processLoadBalancers map list_to_set firstListed].
    case_decide as Hin.
    + destruct (IH (<[LoadBalancerId lb := Some (extractTags lb)]> tagsMap)
                  (TagCache_Set (LoadBalancerId lb) (Some (extractTags lb)) tc)
                  (uncachedSet ∖ {[LoadBalancerId lb]})) as (Hset & Httl & Hl).
      split; [by rewrite Hset, difference_difference_l_L|]. split; [done|].
      intros id. destruct (Hl id) as [Hm Hc]. cbv zeta in *.
      destruct (decide (LoadBalancerId lb = id)) as [<-|Hne].
      * rewrite decide_True by done.
        rewrite decide_False in Hm, Hc
          by (intros [_ Hn]%elem_of_difference; apply Hn; by apply elem_of_singleton).
        rewrite Hm, Hc. simpl. by rewrite !lookup_insert_eq.
      * destruct (decide (id ∈ uncachedSet)) as [Hid|Hid].
        -- rewrite decide_True in Hm, Hc
             by (apply elem_of_difference; split;
                 [done|by intros ?%elem_of_singleton]).
           rewrite Hm, Hc. simpl. rewrite !lookup_insert_ne by done. done.
        -- rewrite decide_False in Hm, Hc
             by (by intros [? _]%elem_of_difference).
           rewrite Hm, Hc. simpl. rewrite !lookup_insert_ne by done. done.
    + destruct (IH tagsMap tc uncachedSet) as (Hset & Httl & Hl).
      split.
      { rewrite Hset. rewrite <- difference_difference_l_L.
        f_equal. apply set_eq. intros x. rewrite elem_of_difference.
        split; [|by intros [? _]]. intros Hx. split; [done|].
        intros ->%elem_of_singleton. done. }
      split; [done|].
      intros id. destruct (Hl id) as [Hm Hc]. cbv zeta in *.
      destruct (decide (id ∈ uncachedSet)) as [Hid|Hid]; [|done].
      rewrite decide_False by (intros Heq; rewrite Heq in Hin; done). done.
Qed.

Lemma cacheEmptyTags_lookup remaining :
  ∀ (tagsMap : gmap string (option (gmap string string))) (tc : TagCache) id,
    let r := cacheEmptyTags remaining tagsMap tc in
    (r.1 !! id = if decide (id ∈ remaining) then Some (Some ∅) else tagsMap !! id)
    ∧ (tc_cache r.2 !! id
       = if decide (id ∈ remaining) then Some (Some ∅) else tc_cache tc !! id)
    ∧ tc_ttl r.2 = tc_ttl tc.
Proof.
  unfold cacheEmptyTags.
  induction remaining as [|x rest IH] using rev_ind; intros tagsMap tc id.
  - pose proof (not_elem_of_nil id). simpl. repeat case_decide; done.
  - rewrite foldl_app. simpl.
    destruct (IH tagsMap tc id) as (Hm & Hc & Httl).
    destruct (foldl _ (tagsMap, tc) rest) as [tagsMap1 tc1]. simpl in *.
    assert (id ∈ rest ++ [x] ↔ id ∈ rest ∨ id = x) as Hin
      by (by rewrite elem_of_app, list_elem_of_singleton).
    destruct (decide (x = id)) as [->|Hne].
    + rewrite !lookup_insert_eq.
      repeat case_decide; try done; exfalso; intuition congruence.
    + rewrite !lookup_insert_ne by done. rewrite Hm, Hc.
      repeat case_decide; try done; exfalso; intuition congruence.
Qed.

(** The loop over the regions writes the result and the tag cache at
    outstanding identifiers only, and leaves the rest of the client alone. *)
Lemma lookupRegions_frame env ctx regions :
  ∀ (tagsMap : gmap string (option (gmap string string)))
    (uncachedSet : gset string) (w : World),
    let r := lookupRegions env ctx regions tagsMap uncachedSet w in
    cache (theClient r.1) = cache (theClient w)
    ∧ slbClients (theClient r.1) = slbClients (theClient w)
    ∧ tc_ttl (tagCache (theClient r.1)) = tc_ttl (tagCache (theClient w))
    ∧ (∀ id, id ∈ r.2.1.2 → id ∈ uncachedSet)
    ∧ ∀ id, id ∉ uncachedSet →
        r.2.1.1 !! id = tagsMap !! id
        ∧ tc_cache (tagCache (theClient r.1)) !! id
          = tc_cache (tagCache (theClient w)) !! id.
Proof.
  induction regions as [|region rest IH]; intros tagsMap uncachedSet w.
  - simpl. done.
  - cbn [lookupRegions]. case_decide; [simpl; done|].
    unfold acquire. destruct (waitErr _); cbv zeta; [simpl; done|].
    remember (remoteCall env (EvDescribeLoadBalancers region) _) as w2 eqn:Ew2.
    assert (cache (theClient w2) = cache (theClient w)
            ∧ slbClients (theClient w2) = slbClients (theClient w)
            ∧ tagCache (theClient w2) = tagCache (theClient w)) as (Hc2 & Hs2 & Ht2)
      by (by rewrite Ew2).
    clear Ew2.
    destruct (DescribeLoadBalancers env _ region) as [e|response].
    + destruct (IH tagsMap uncachedSet w2) as (Hc & Hs & Ht & Hsub & Hl).
      rewrite Hc, Hs, Ht, Hc2, Hs2, Ht2. repeat split; try done.
      * by apply Hl.
      * rewrite <- Ht2. by apply Hl.
    + destruct (processLoadBalancers_first_match response tagsMap
                  (tagCache (theClient w2)) uncachedSet) as (Hset & Httl & Hp).
      destruct (processLoadBalancers response tagsMap _ uncachedSet)
        as [[tagsMap' tc'] uncachedSet']. simpl in Hset, Httl, Hp.
      destruct (IH tagsMap' uncachedSet' (setTagCache tc' w2))
        as (Hc & Hs & Ht & Hsub & Hl).
      rewrite Hc, Hs, Ht. simpl. rewrite Httl, Ht2.
      repeat split; try done.
      * intros id Hid. apply Hsub in Hid. rewrite Hset in Hid.
        by apply elem_of_difference in Hid as [? _].
      * destruct (Hl id) as [-> _].
        { rewrite Hset. by intros [? _]%elem_of_difference. }
        destruct (Hp id) as [Hm _]. by rewrite decide_False in Hm.
      * destruct (Hl id) as [_ ->].
        { rewrite Hset. by intros [? _]%elem_of_difference. }
        simpl. destruct (Hp id) as [_ Hm]. rewrite decide_False in Hm by done.
        by rewrite Hm, Ht2.
Qed.

(** X15. A call never touches the metric cache, and writes the tag cache at
    no other key than the identifiers asked for that the cache did not hold:
    what is cached stays cached, unchanged. *)
Theorem GetSLBInstanceTags_writes_only_missing env ctx ids (w : World) id :
  id ∉ ids ∨ is_Some (tc_cache (tagCache (theClient w)) !! id) →
  let w' := (GetSLBInstanceTags env ctx ids w).1 in
  cache (theClient w') = cache (theClient w)
  ∧ tc_cache (tagCache (theClient w')) !! id
    = tc_cache (tagCache (theClient w)) !! id.
Proof.
  intros Hid. simpl. unfold GetSLBInstanceTags.
  case_decide; [done|].
  pose proof (checkTagCache_uncached (tagCache (theClient w)) ids ∅ []) as Hun.
  destruct (checkTagCache _ ids ∅ []) as [tagsMap uncachedIDs].
  simpl in Hun. case_decide; [done|].
  assert (id ∉ (list_to_set uncachedIDs : gset string)) as Hout.
  { rewrite Hun. intros [Hin Hnone]%elem_of_list_to_set%list_elem_of_filter.
    destruct Hid as [Hid|[tags Htags]]; [done|congruence]. }
  destruct (lookupRegions_frame env ctx (slbClients (theClient w)) tagsMap
              (list_to_set uncachedIDs) w) as (Hc & _ & _ & Hsub & Hl).
  destruct (lookupRegions env ctx _ tagsMap _ w) as [w1 [[tagsMap1 us1] [e|]]];
    simpl in *.
  - split; [done|]. by apply Hl.
  - destruct (cacheEmptyTags_lookup (elements us1) tagsMap1
                (tagCache (theClient w1)) id) as (_ & Hce & _).
    destruct (cacheEmptyTags _ _ _) as [tagsMap2 tc2]. simpl in *.
    split; [done|]. rewrite Hce.
    rewrite decide_False by (intros ?%elem_of_elements%Hsub; done).
    by apply Hl.
Qed.

Lemma GetSLBInstanceTags_writes_only_missing_witness :
  let tags : option (gmap string string) := Some {["Team" := "infra"]} in
  let w :=
    worldAt 0 (TagCache_Set "lb-9" tags (NewTagCache (5 * Minute)))
      ["cn-hangzhou"] in
  let w' := (GetSLBInstanceTags listingRemote Background ["lb-1"; "lb-9"] w).1 in
  is_Some (tc_cache (tagCache (theClient w)) !! "lb-9")
  ∧ tc_cache (tagCache (theClient w')) !! "lb-1" = Some (Some {["Team" := "infra"]})
  ∧ tc_cache (tagCache (theClient w')) !! "lb-9" = Some tags.
Proof.
  intros tags w w'.
  assert (is_Some (tc_cache (tagCache (theClient w)) !! "lb-9")) as Hc
    by (exists tags; vm_compute; reflexivity).
  split; [done|]. split; [vm_compute; reflexivity|]. unfold w'.
  rewrite (proj2 (GetSLBInstanceTags_writes_only_missing listingRemote Background
                    ["lb-1"; "lb-9"] w "lb-9" (or_intror Hc))).
  vm_compute. reflexivity.
Defined.

(** X16. When the call returns no error, the map it returns has an entry for
    each identifier asked for and for no other, and each entry is what the
    tag cache holds for the identifier after the call. *)
Theorem GetSLBInstanceTags_result_is_cached env ctx ids (w : World) :
  let r := GetSLBInstanceTags env ctx ids w in
  r.2.2 = None →
  ∃ tagsMap,
    r.2.1 = Some tagsMap
    ∧ (∀ id, is_Some (tagsMap !! id) ↔ id ∈ ids)
    ∧ ∀ id, id ∈ ids → tagsMap !! id = tc_cache (tagCache (theClient r.1)) !! id.
Proof.
  intros r Hok. destruct (GetSLBInstanceTags_ok env ctx ids w Hok) as [Hall Htags].
  fold r in Hall, Htags. eexists. split; [done|].
  assert (∀ id, id ∈ ids →
            (checkTagCache (tagCache (theClient r.1)) ids ∅ []).1 !! id
            = tc_cache (tagCache (theClient r.1)) !! id) as Hin.
  { intros id Hid. destruct (Hall id Hid) as [tags Hc]. rewrite Hc.
    by apply checkTagCache_cached. }
  split; [|done]. intros id. split.
  - intros Hsome. destruct (decide (id ∈ ids)) as [|Hout]; [done|].
    rewrite checkTagCache_other in Hsome by (by left).
    rewrite lookup_empty in Hsome. by destruct Hsome.
  - intros Hid. rewrite Hin by done. by apply Hall.
Qed.

Lemma GetSLBInstanceTags_result_is_cached_witness :
  let w := worldAt 0 (NewTagCache (5 * Minute)) ["cn-hangzhou"] in
  let r := GetSLBInstanceTags listingRemote Background ["lb-1"; "lb-2"] w in
  r.2.2 = None
  ∧ ∃ tagsMap,
      r.2.1 = Some tagsMap
      ∧ (is_Some (tagsMap !! "lb-2") ↔ "lb-2" ∈ ["lb-1"; "lb-2"]).
Proof.
  intros w r. split; [reflexivity|].
  destruct (GetSLBInstanceTags_result_is_cached listingRemote Background
              ["lb-1"; "lb-2"] w eq_refl) as (tagsMap & Hr & Hdom & _).
  exists tagsMap. split; [exact Hr|apply Hdom].
Defined.

Lemma lookupRegions_no_listing env ctx regions :
  (∀ n region, ∃ e, DescribeLoadBalancers env n region = inl e) →
  ∀ (tagsMap : gmap string (option (gmap string string)))
    (uncachedSet : gset string) (w : World),
    let r := lookupRegions env ctx regions tagsMap uncachedSet w in
    r.2.1 = (tagsMap, uncachedSet)
    ∧ tagCache (theClient r.1) = tagCache (theClient w).
Proof.
  intros Hfail.
  induction regions as [|region rest IH]; intros tagsMap uncachedSet w; [done|].
  cbn [lookupRegions]. case_decide; [done|].
  unfold acquire. destruct (waitErr _); cbv zeta; [done|].
  match goal with
  | |- context [DescribeLoadBalancers env ?n region] =>
      destruct (Hfail n region) as [e ->]
  end.
  match goal with
  | |- context [lookupRegions env ctx rest tagsMap uncachedSet ?w2] =>
      destruct (IH tagsMap uncachedSet w2) as [-> ->]
  end.
  done.
Qed.

(** X17. When no region can be listed, the call still succeeds as long as
    its tokens are granted: every identifier the tag cache did not hold gets
    the empty tag set, in the result and in the cache, and the others get
    what the cache held. *)
Theorem GetSLBInstanceTags_without_listing env ctx ids (w : World) :
  (∀ n region, ∃ e, DescribeLoadBalancers env n region = inl e) →
  let r := GetSLBInstanceTags env ctx ids w in
  r.2.2 = None →
  ∃ tagsMap,
    r.2.1 = Some tagsMap
    ∧ ∀ id, id ∈ ids →
        let tags := default (Some ∅) (tc_cache (tagCache (theClient w)) !! id) in
        tagsMap !! id = Some tags
        ∧ tc_cache (tagCache (theClient r.1)) !! id = Some tags.
Proof.
  intros Hfail r. subst r. unfold GetSLBInstanceTags.
  case_decide as Hempty.
  { destruct ids; [|done]. simpl. intros _. eexists. split; [done|].
    intros id Hin. by apply elem_of_nil in Hin. }
  pose proof (checkTagCache_uncached (tagCache (theClient w)) ids ∅ []) as Hun.
  pose proof (checkTagCache_cached (tagCache (theClient w)) ids ∅ []) as Hhit.
  destruct (checkTagCache _ ids ∅ []) as [tagsMap uncachedIDs].
  simpl in Hun, Hhit. case_decide as Hcached.
  { destruct uncachedIDs; [|done]. simpl. intros _. eexists. split; [done|].
    intros id Hin.
    destruct (tc_cache (tagCache (theClient w)) !! id) as [tags|] eqn:Hc.
    - simpl. split; [by apply Hhit|done].
    - exfalso. apply (elem_of_nil id). rewrite Hun, list_elem_of_filter.
      done. }
  destruct (lookupRegions_no_listing env ctx (slbClients (theClient w)) Hfail
              tagsMap (list_to_set uncachedIDs) w) as [Hr Htc].
  destruct (lookupRegions env ctx _ tagsMap _ w) as [w1 [[tagsMap1 us1] [e|]]];
    [done|].
  simpl in Hr, Htc. injection Hr as -> ->.
  pose proof (cacheEmptyTags_lookup
                (elements (list_to_set uncachedIDs : gset string)) tagsMap
                (tagCache (theClient w1))) as Hce.
  destruct (cacheEmptyTags _ _ _) as [tagsMap2 tc2]. simpl in *. intros _.
  eexists. split; [done|]. intros id Hin.
  destruct (Hce id) as (Hm & Hc & _). rewrite Hm, Hc, Htc.
  assert (id ∈ elements (list_to_set uncachedIDs : gset string)
          ↔ tc_cache (tagCache (theClient w)) !! id = None) as Hmiss.
  { rewrite elem_of_elements, elem_of_list_to_set, Hun, list_elem_of_filter.
    tauto. }
  destruct (tc_cache (tagCache (theClient w)) !! id) as [tags|] eqn:Hcache.
  - repeat case_decide; try (exfalso; by apply Hmiss in H).
    simpl. split; [by apply Hhit|done].
  - repeat case_decide; try done; exfalso; tauto.
Qed.

Lemma GetSLBInstanceTags_without_listing_witness :
  let tags : option (gmap string string) := Some {["Team" := "infra"]} in
  let w :=
    worldAt 0 (TagCache_Set "lb-9" tags (NewTagCache (5 * Minute)))
      ["cn-hangzhou"] in
  let r := GetSLBInstanceTags noListing Background ["lb-1"; "lb-9"] w in
  (∀ n region, ∃ e, DescribeLoadBalancers noListing n region = inl e)
  ∧ r.2 = (Some (<["lb-1" := Some ∅]> {["lb-9" := tags]}), None)
  ∧ ∃ tagsMap, r.2.1 = Some tagsMap ∧ tagsMap !! "lb-1" = Some (Some ∅).
Proof.
  intros tags w r.
  assert (∀ n region, ∃ e, DescribeLoadBalancers noListing n region = inl e)
    as Hfail by (intros n region; by eexists).
  split; [done|]. split; [vm_compute; reflexivity|].
  destruct (GetSLBInstanceTags_without_listing noListing Background
              ["lb-1"; "lb-9"] w Hfail eq_refl) as (tagsMap & Hr & Hl).
  exists tagsMap. split; [exact Hr|].
  destruct (Hl "lb-1" ltac:(by left)) as [H1 _]. rewrite H1.
  vm_compute. reflexivity.
Defined.

Lemma lookupRegions_done env ctx regions
  (tagsMap : gmap string (option (gmap string string)))
  (uncachedSet : gset string) (w : World) :
  uncachedSet = ∅ →
  lookupRegions env ctx regions tagsMap uncachedSet w
  = (w, (tagsMap, uncachedSet, None)).
Proof.
  intros ->. destruct regions; [done|]. cbn [lookupRegions].
  by rewrite decide_True by apply size_empty.
Qed.

(** X18. The lookup stops as soon as nothing is outstanding: when the
    listing of the first region names every identifier the tag cache did not
    hold, that listing is the only one made, however many regions are
    configured, and the call returns no error. *)
Theorem GetSLBInstanceTags_stops_early env ctx ids (w : World) region rest lbs :
  slbClients (theClient w) = region :: rest →
  waitErr (RateLimiter_Wait (selectToken env (length (trace w))) ctx (clock w)
             (rateLimiter (theClient w))) = None →
  DescribeLoadBalancers env (S (length (trace w))) region = inr lbs →
  (∀ id, id ∈ ids →
     is_Some (tc_cache (tagCache (theClient w)) !! id)
     ∨ id ∈ map LoadBalancerId lbs) →
  let r := GetSLBInstanceTags env ctx ids w in
  r.2.2 = None
  ∧ (trace r.1 = trace w
     ∨ trace r.1 = trace w ++ [EvWait None; EvDescribeLoadBalancers region]).
Proof.
  intros Hregions Hwait Hlist Hall r. subst r. unfold GetSLBInstanceTags.
  case_decide; [simpl; eauto|].
  pose proof (checkTagCache_uncached (tagCache (theClient w)) ids ∅ []) as Hun.
  destruct (checkTagCache _ ids ∅ []) as [tagsMap uncachedIDs].
  simpl in Hun. case_decide as Hsome; [simpl; eauto|].
  rewrite Hregions. cbn [lookupRegions].
  rewrite decide_False.
  2:{ intros Hsz. apply size_empty_iff in Hsz. destruct uncachedIDs; [done|].
      apply (not_elem_of_empty (C:=gset string) s). rewrite <- Hsz.
      apply elem_of_list_to_set. by left. }
  unfold acquire. rewrite Hwait. cbv zeta.
  cbn [trace]. rewrite length_app, Nat.add_comm. cbn [length Nat.add].
  rewrite Hlist.
  match goal with
  | |- context [processLoadBalancers lbs tagsMap ?tc ?us] =>
      destruct (processLoadBalancers_first_match lbs tagsMap tc us)
        as (Hset & _ & _);
      destruct (processLoadBalancers lbs tagsMap tc us)
        as [[tagsMap' tc'] uncachedSet']
  end.
  simpl in Hset.
  assert (uncachedSet' = ∅) as ->.
  { rewrite Hset. apply set_eq. intros id.
    rewrite elem_of_difference, !elem_of_list_to_set, Hun, list_elem_of_filter.
    split; [|by intros ?%not_elem_of_empty].
    intros [[Hnone Hin] Hnot]. destruct (Hall id Hin) as [[tags Htags]|Hl];
      [congruence|done]. }
  rewrite lookupRegions_done by done.
  destruct (cacheEmptyTags _ _ _) as [tagsMap2 tc2]. simpl.
  split; [done|]. right. by rewrite <- app_assoc.
Qed.

Lemma GetSLBInstanceTags_stops_early_witness :
  let w := worldAt 0 (NewTagCache (5 * Minute)) ["cn-hangzhou"; "cn-beijing"] in
  let r := GetSLBInstanceTags listingRemote Background ["lb-1"] w in
  slbClients (theClient w) = ["cn-hangzhou"; "cn-beijing"]
  ∧ r.2.2 = None
  ∧ remoteCalls r.1 = [EvDescribeLoadBalancers "cn-hangzhou"].
Proof.
  intros w r. split; [reflexivity|].
  assert (∀ id, id ∈ ["lb-1"] →
            is_Some (tc_cache (tagCache (theClient w)) !! id)
            ∨ id ∈ map LoadBalancerId
                     [{| LoadBalancerId := "lb-1";
                         Tags := [{| TagKey := "Team"; TagValue := "infra" |}] |}])
    as Hall.
  { intros id ->%list_elem_of_singleton. right. by left. }
  split.
  - exact (proj1 (GetSLBInstanceTags_stops_early listingRemote Background ["lb-1"]
                    w "cn-hangzhou" ["cn-beijing"] _ eq_refl eq_refl eq_refl Hall)).
  - vm_compute. reflexivity.
Defined.

(** ** Descriptors and samples of a collector *)

Lemma foldl_insert_lookup {A} (f : string → A) (keys : list string) :
  ∀ (m : gmap string A) k,
    foldl (λ acc key, <[key := f key]> acc) m keys !! k
    = if decide (k ∈ keys) then Some (f k) else m !! k.
Proof.
  induction keys as [|x rest IH]; intros m k; cbn [foldl].
  - rewrite decide_False; [done|]. apply not_elem_of_nil.
  - rewrite IH. destruct (decide (k = x)) as [->|Hne].
    + rewrite lookup_insert_eq.
      rewrite (decide_True (P := x ∈ x :: rest)) by (by left).
      by case_decide.
    + rewrite lookup_insert_ne by done.
      assert (k ∈ x :: rest ↔ k ∈ rest) as Hin
        by (rewrite elem_of_cons; tauto).
      repeat case_decide; try done; exfalso; tauto.
Qed.

Lemma emitMetrics_emitted env labelsOf desc metricName
  (metricData : list MetricData) :
  (∀ data, length (labelsOf data) = length (variableLabels desc)) →
  emitMetrics env labelsOf desc metricName metricData
  = emitted env labelsOf desc metricName metricData.
Proof.
  intros Hlen. unfold emitted.
  destruct (descError env _ _ _ _) as [e|] eqn:Hdesc.
  - destruct metricData as [|data rest]; [done|].
    cbn [emitMetrics]. unfold NewConstMetric. by rewrite Hdesc.
  - induction metricData as [|data rest IH]; [done|].
    cbn [emitMetrics accepted]. unfold NewConstMetric.
    rewrite Hdesc, decide_True by apply Hlen.
    destruct (forallb _ _); [|done].
    rewrite IH. cbn [map length fst snd].
    repeat case_decide; try done; lia.
Qed.

(** When the library accepts the descriptor and every label value, the loop
    sends a sample for every data point and returns nil. *)
Lemma emitted_all env labelsOf desc metricName (metricData : list MetricData) :
  descError env (fqName desc) (help desc) (variableLabels desc)
    (constLabels desc) = None →
  Forall (λ data, forallb (validLabelValue env) (labelsOf data) = true)
    metricData →
  emitted env labelsOf desc metricName metricData
  = (map (λ data, ConstMetric desc (sampleValue data) (labelsOf data)) metricData,
     None).
Proof.
  intros Hdesc Hall. unfold emitted. rewrite Hdesc.
  assert (accepted env labelsOf metricData = metricData) as ->.
  { induction Hall as [|data rest Hd _ IH]; [done|].
    cbn [accepted]. by rewrite Hd, IH. }
  by rewrite decide_True.
Qed.

Lemma buildLabelValues_length (bc : BaseCollector) data :
  length (buildLabelValues bc data) = length (serviceLabels (serviceName bc)).
Proof. unfold buildLabelValues, serviceLabels. by case_decide. Qed.

(** X19. The collector [NewBaseCollector] builds has a descriptor for exactly
    the metric names of its configuration, a name listed twice having one;
    the descriptor's name is made of the prefix, the service and the metric,
    it carries the global labels, and it has as many labels as
    [buildLabelValues] gives values: four for "slb", one for any other
    service. *)
Theorem NewBaseCollector_descriptors cfg serviceName globalLabels metricPrefix
  metricName :
  let bc := NewBaseCollector cfg serviceName globalLabels metricPrefix in
  metricDescs bc !! metricName
  = (if decide (metricName ∈ Metrics cfg)
     then Some {| fqName := BuildFQName metricPrefix serviceName metricName;
                  help := metricName +:+ " metric from Alicloud CMS";
                  variableLabels := serviceLabels serviceName;
                  constLabels := globalLabels |}
     else None)
  ∧ ∀ desc data,
      metricDescs bc !! metricName = Some desc →
      length (buildLabelValues bc data) = length (variableLabels desc)
      ∧ length (variableLabels desc) = if decide (serviceName = "slb") then 4%nat else 1%nat.
Proof.
  intros bc.
  assert (metricDescs bc !! metricName
          = if decide (metricName ∈ Metrics cfg)
            then Some (NewDesc (BuildFQName metricPrefix serviceName metricName)
                         (metricName +:+ " metric from Alicloud CMS")
                         (serviceLabels serviceName) globalLabels)
            else None) as Hlookup.
  { unfold bc, NewBaseCollector, initMetricDescriptors. cbn [metricDescs].
    rewrite (foldl_insert_lookup
               (λ m, NewDesc (BuildFQName metricPrefix serviceName m)
                       (m +:+ " metric from Alicloud CMS")
                       (serviceLabels serviceName) globalLabels)).
    by case_decide. }
  split; [exact Hlookup|].
  intros desc data Hdesc. rewrite Hlookup in Hdesc.
  case_decide; [|done]. injection Hdesc as <-.
  rewrite buildLabelValues_length. unfold bc, NewBaseCollector, NewDesc.
  cbn [variableLabels collector.serviceName].
  split; [done|]. unfold serviceLabels. by case_decide.
Qed.

(** X20. On a collector built by [NewBaseCollector], [CollectMetric] never
    fails on the number of label values: once the data points are decoded
    and the name is one of the configured metrics, the only failures are the
    library's.  With a descriptor the library made with an error it sends
    nothing and returns that error at the first data point; otherwise it
    sends one sample per data point, in their order, up to the first of which
    the library refuses a label value, and returns nil when there is none.
    For a name that is not configured it sends nothing and reports that the
    descriptor is not found. *)
Theorem CollectMetric_one_sample_per_point unmarshal env ctx cfg serviceName
  globalLabels metricPrefix metricName (w : World) :
  let bc := NewBaseCollector cfg serviceName globalLabels metricPrefix in
  let desc :=
    NewDesc (BuildFQName metricPrefix serviceName metricName)
      (metricName +:+ " metric from Alicloud CMS")
      (serviceLabels serviceName) globalLabels in
  let fetched := fetchMetricData unmarshal env ctx (Namespace cfg) metricName w in
  CollectMetric unmarshal env ctx metricName bc w
  = (fetched.1,
     match fetched.2 with
     | Return err => ([], err)
     | Decoded metricData =>
         if decide (metricName ∈ Metrics cfg)
         then emitted env (buildLabelValues bc) desc metricName metricData
         else ([], Some (MetricError ("metric descriptor not found for "
                                      +:+ metricName)))
     end)
  ∧ ∀ metricData,
      descError env (fqName desc) (help desc) (variableLabels desc)
        (constLabels desc) = None →
      Forall (λ data, validLabelValue env (InstanceID data) = true
                      ∧ (serviceName = "slb" →
                         validLabelValue env (Protocol data) = true
                         ∧ validLabelValue env (Port data) = true
                         ∧ validLabelValue env (Vip data) = true))
        metricData →
      emitted env (buildLabelValues bc) desc metricName metricData
      = (map (λ data,
                ConstMetric desc (sampleValue data) (buildLabelValues bc data))
           metricData, None).
Proof.
  intros bc desc fetched. split.
  - unfold CollectMetric.
    change (Namespace (config bc)) with (Namespace cfg). fold fetched.
    destruct fetched as [w1 [err|metricData]]; [done|]. cbn [fst snd emitFetched].
    assert (metricDescs bc !! metricName
            = if decide (metricName ∈ Metrics cfg) then Some desc else None) as ->.
    { unfold bc, NewBaseCollector, initMetricDescriptors. cbn [metricDescs].
      rewrite (foldl_insert_lookup
                 (λ m, NewDesc (BuildFQName metricPrefix serviceName m)
                         (m +:+ " metric from Alicloud CMS")
                         (serviceLabels serviceName) globalLabels)).
      by case_decide. }
    case_decide; [|done].
    rewrite emitMetrics_emitted; [done|].
    intros data. by rewrite buildLabelValues_length.
  - intros metricData Hdesc Hall. apply emitted_all; [done|].
    eapply Forall_impl; [exact Hall|]. intros data [Hid Hslb].
    unfold buildLabelValues. cbn [collector.serviceName bc NewBaseCollector].
    case_decide as Hs; cbn [forallb]; rewrite Hid; [|done].
    destruct (Hslb Hs) as (-> & -> & ->). done.
Qed.

Lemma CollectMetric_one_sample_per_point_witness :
  let bc := NewBaseCollector fiveMetrics "redis" ∅ "alicloud" in
  let desc :=
    NewDesc "alicloud_redis_CpuUsage" "CpuUsage metric from Alicloud CMS"
      ["instance_id"] ∅ in
  let w := worldAt 0 (NewTagCache (5 * Minute)) [] in
  descError noListing (fqName desc) (help desc) (variableLabels desc)
    (constLabels desc) = None
  ∧ validLabelValue noListing (InstanceID (point 0 7 12)) = true
  ∧ (CollectMetric decodeOnePoint noListing Background "CpuUsage" bc w).2
    = ([ConstMetric desc 7%float ["i-1"]], None).
Proof.
  intros bc desc w. split; [reflexivity|]. split; [reflexivity|].
  destruct (CollectMetric_one_sample_per_point decodeOnePoint noListing
              Background fiveMetrics "redis" ∅ "alicloud" "CpuUsage" w)
    as [Hcall Hall].
  fold bc in Hcall. rewrite Hcall. cbn [snd].
  assert ((fetchMetricData decodeOnePoint noListing Background
             (Namespace fiveMetrics) "CpuUsage" w).2 = Decoded [point 0 7 12])
    as -> by (vm_compute; reflexivity).
  rewrite decide_True by (vm_compute; by left).
  refine (eq_trans (Hall [point 0 7 12] eq_refl _) _); [|reflexivity].
  repeat constructor; discriminate.
Defined.

(** A global label named as the collector's own label: the library makes
    the descriptor with an error, and [CollectMetric] sends no sample and
    returns that error. *)
Example CollectMetric_duplicate_label :
  let bc :=
    redisBase (NewRedisCollector fiveMetrics {["instance_id" := "x"]} "alicloud") in
  (CollectMetric decodeOnePoint strictLibrary Background "CpuUsage" bc
     (worldAt 0 (NewTagCache (5 * Minute)) [])).2
  = ([], Some (Errorf "failed to create metric for CpuUsage" duplicateLabels)).
Proof. vm_compute. reflexivity. Qed.

Lemma instanceSetOf_elem (metricData : list MetricData) id :
  id ∈ instanceSetOf metricData
  ↔ id ≠ "" ∧ id ∈ map InstanceID metricData.
Proof.
  unfold instanceSetOf.
  assert (∀ (s : gset string),
            id ∈ foldl (λ instanceSet data,
                          if decide (InstanceID data = "") then instanceSet
                          else {[InstanceID data]} ∪ instanceSet) s metricData
            ↔ id ∈ s ∨ (id ≠ "" ∧ id ∈ map InstanceID metricData)) as H.
  { induction metricData as [|data rest IH]; intros s; simpl.
    - rewrite elem_of_nil. tauto.
    - rewrite IH, elem_of_cons. case_decide as He.
      + split; [|intros [?|[? [->|?]]]; tauto]. tauto.
      + rewrite elem_of_union, elem_of_singleton.
        split; [intros [[->|?]|[? ?]]; tauto|].
        intros [?|[? [?|?]]]; tauto. }
  rewrite H. rewrite elem_of_empty. tauto.
Qed.

Lemma buildDynamicSLBLabelValues_values data tags tagKeys :
  ∃ team group name,
    buildDynamicSLBLabelValues data tags tagKeys
    = [InstanceID data; Protocol data; Port data; Vip data; team; group; name].
Proof. unfold buildDynamicSLBLabelValues. destruct tags; simpl; eauto. Qed.

(** X21. Once the data points are decoded, [CollectSLBMetric] does not fail
    on the tag lookup, on the metric's not being a configured one, or on the
    number of label values: its descriptor is built on the spot from the
    collector's prefix and service name with seven labels, every data point
    is given seven values, the first four read from the data point, and the
    only failures are the library's.  With a descriptor the library made
    with an error it sends nothing and returns that error at the first data
    point; otherwise it sends one sample per data point, in their order, up
    to the first of which the library refuses a label value, and returns nil
    when there is none. *)
Theorem CollectSLBMetric_one_sample_per_point unmarshal env ctx metricName
  (c : SLBCollector) (w : World) metricData :
  let bc := slbBase c in
  let fetched :=
    fetchMetricData unmarshal env ctx (Namespace (config bc)) metricName w in
  fetched.2 = Decoded metricData →
  let r := CollectSLBMetric unmarshal env ctx metricName c w in
  let desc :=
    NewDesc (BuildFQName (metricPrefix bc) (serviceName bc) metricName)
      (metricName +:+ " metric from Alicloud CMS")
      ["instance_id"; "protocol"; "port"; "vip"; "Team"; "Group"; "Name"]
      (globalLabels bc) in
  ∃ labelsOf,
    r.2 = emitted env labelsOf desc metricName metricData
    ∧ ∀ data, ∃ team group name,
        labelsOf data
        = [InstanceID data; Protocol data; Port data; Vip data; team; group; name].
Proof.
  intros bc fetched Hfetched r desc. subst r. unfold CollectSLBMetric.
  fold bc. fold fetched. destruct fetched as [w1 f]. simpl in Hfetched.
  subst f.
  match goal with
  | |- context [if ?d then ?a else ?b] => destruct (if d then a else b) as [w2 tagsMap]
  end.
  cbv zeta. cbn [snd].
  exists (λ data,
            buildDynamicSLBLabelValues data (tagsOf tagsMap (InstanceID data))
              ["Team"; "Group"; "Name"]).
  split; [|intros data; apply buildDynamicSLBLabelValues_values].
  apply emitMetrics_emitted. intros data.
  by destruct (buildDynamicSLBLabelValues_values data
                 (tagsOf tagsMap (InstanceID data)) ["Team"; "Group"; "Name"])
    as (team & group & name & ->).
Qed.

Lemma CollectSLBMetric_one_sample_per_point_witness :
  let c := NewSLBCollector fiveMetrics {["Team" := "infra"]} "alicloud" in
  let w := worldAt 0 (NewTagCache (5 * Minute)) ["cn-hangzhou"] in
  (fetchMetricData decodeOnePoint strictLibrary Background "acs_kvstore"
     "Unlisted" w).2 = Decoded [point 0 7 12]
  ∧ (CollectSLBMetric decodeOnePoint strictLibrary Background "Unlisted" c w).2
    = ([], Some (Errorf "failed to create metric for Unlisted" duplicateLabels))
  ∧ (CollectSLBMetric decodeOnePoint noListing Background "Unlisted" c w).2.2
    = None.
Proof.
  intros c w. split; [vm_compute; reflexivity|]. split.
  - destruct (CollectSLBMetric_one_sample_per_point decodeOnePoint strictLibrary
                Background "Unlisted" c w [point 0 7 12])
      as (labelsOf & Hr & _); [vm_compute; reflexivity|].
    rewrite Hr. reflexivity.
  - destruct (CollectSLBMetric_one_sample_per_point decodeOnePoint noListing
                Background "Unlisted" c w [point 0 7 12])
      as (labelsOf & Hr & Hvalues); [vm_compute; reflexivity|].
    rewrite Hr. unfold emitted. cbn [descError noListing accepted].
    destruct (Hvalues (point 0 7 12)) as (team & group & name & ->).
    reflexivity.
Defined.

(** X22. Tags are best effort.  When no data point names an instance, no tag
    lookup is made: the world is the one the fetch left.  When the lookup is
    made and fails, the failure is dropped.  In both cases the data points
    are sent with empty team, group and name values, as far as the library
    lets them. *)
Theorem CollectSLBMetric_without_tags unmarshal env ctx metricName
  (c : SLBCollector) (w : World) metricData :
  let bc := slbBase c in
  let fetched :=
    fetchMetricData unmarshal env ctx (Namespace (config bc)) metricName w in
  let lookup :=
    GetSLBInstanceTags env ctx (elements (instanceSetOf metricData)) fetched.1 in
  fetched.2 = Decoded metricData →
  Forall (λ data, InstanceID data = "") metricData ∨ lookup.2.2 ≠ None →
  let r := CollectSLBMetric unmarshal env ctx metricName c w in
  let desc :=
    NewDesc (BuildFQName (metricPrefix bc) (serviceName bc) metricName)
      (metricName +:+ " metric from Alicloud CMS")
      ["instance_id"; "protocol"; "port"; "vip"; "Team"; "Group"; "Name"]
      (globalLabels bc) in
  r.2 = emitted env
          (λ data,
             [InstanceID data; Protocol data; Port data; Vip data; ""; ""; ""])
          desc metricName metricData
  ∧ (Forall (λ data, InstanceID data = "") metricData → r.1 = fetched.1).
Proof.
  intros bc fetched lookup Hfetched Hcase r desc. subst r lookup.
  unfold CollectSLBMetric. fold bc. fold fetched.
  destruct fetched as [w1 f]. simpl in Hfetched, Hcase. subst f. cbn [fst].
  assert (Forall (λ data, InstanceID data = "") metricData →
          elements (instanceSetOf metricData) = []) as Hnone.
  { intros Hall. apply elements_empty_iff, set_equiv. intros id.
    rewrite instanceSetOf_elem, elem_of_empty, list_elem_of_fmap.
    split; [|done]. intros [Hne (data & -> & Hin)].
    rewrite Forall_forall in Hall. by apply Hne, Hall. }
  assert (∀ tagsMap : option (gmap string (option (gmap string string))),
            tagsMap = Some ∅ →
            emitMetrics env
              (λ data,
                 buildDynamicSLBLabelValues data (tagsOf tagsMap (InstanceID data))
                   ["Team"; "Group"; "Name"])
              desc metricName metricData
            = emitted env
                (λ data,
                   [InstanceID data; Protocol data; Port data; Vip data;
                    ""; ""; ""])
                desc metricName metricData) as Hsent.
  { intros tagsMap ->. by rewrite emitMetrics_emitted. }
  case_decide as Hids.
  - destruct (GetSLBInstanceTags env ctx _ w1) as [w2 [tagsMap [e|]]].
    + cbv zeta. cbn [fst snd]. split; [by apply Hsent|].
      intros Hall. rewrite (Hnone Hall) in Hids. simpl in Hids. lia.
    + exfalso. destruct Hcase as [Hall|Herr]; [|done].
      rewrite (Hnone Hall) in Hids. simpl in Hids. lia.
  - cbv zeta. cbn [fst snd]. split; [by apply Hsent|done].
Qed.

Lemma CollectSLBMetric_without_tags_witness :
  let c := NewSLBCollector fiveMetrics ∅ "alicloud" in
  let w := worldAt 0 (NewTagCache (5 * Minute)) ["cn-hangzhou"] in
  let w1 :=
    (fetchMetricData decodeOnePoint noListing cancelledCtx "acs_kvstore"
       "Traffic" w).1 in
  (GetSLBInstanceTags noListing cancelledCtx ["i-1"] w1).2.2
  = Some (Errorf "rate limiter error" Canceled)
  ∧ (CollectSLBMetric decodeOnePoint noListing cancelledCtx "Traffic" c w).2
    = ([ConstMetric
          (NewDesc "alicloud_slb_Traffic" "Traffic metric from Alicloud CMS"
             ["instance_id"; "protocol"; "port"; "vip"; "Team"; "Group"; "Name"] ∅)
          7%float ["i-1"; ""; ""; ""; ""; ""; ""]], None).
Proof.
  intros c w w1. split; [vm_compute; reflexivity|].
  assert ((fetchMetricData decodeOnePoint noListing cancelledCtx
             (Namespace (config (slbBase c))) "Traffic" w).2
          = Decoded [point 0 7 12]) as Hfetched by (vm_compute; reflexivity).
  refine (eq_trans
            (proj1 (CollectSLBMetric_without_tags decodeOnePoint noListing
                      cancelledCtx "Traffic" c w [point 0 7 12] Hfetched _)) _).
  - right. vm_compute. discriminate.
  - vm_compute. reflexivity.
Defined.

(** ** The books a collector keeps *)

Lemma collectWith_base service loop (bc : BaseCollector) (w : World) :
  let bc1 := (collectWith service loop bc w).1.1.2 in
  config bc1 = config bc
  ∧ serviceName bc1 = serviceName bc
  ∧ metricDescs bc1 = metricDescs bc
  ∧ globalLabels bc1 = globalLabels bc
  ∧ metricPrefix bc1 = metricPrefix bc.
Proof.
  unfold collectWith. destruct (negb _); [done|].
  destruct (loop w) as [w1 [sent n]]. by destruct (0 <? n)%nat.
Qed.

Lemma collectWith_books service loop (bc : BaseCollector) (w : World) :
  BaseCollector_Enabled bc = true →
  let r := collectWith service loop bc w in
  collector.scrapeErrors r.1.1.2
  = (collector.scrapeErrors bc + match r.2 with Some _ => 1 | None => 0 end)%nat
  ∧ collector.scrapeDuration r.1.1.2
    = collector.scrapeDuration bc ++ [clock r.1.1.1 - clock w]
  ∧ lastScrape r.1.1.2 = clock r.1.1.1.
Proof.
  intros H. unfold collectWith. rewrite H. cbn [negb].
  destruct (loop w) as [w1 [sent n]]. destruct (0 <? n)%nat; simpl.
  - split; [lia|done].
  - split; [lia|done].
Qed.

Lemma Collect_collectWith unmarshal env ctx (col : ServiceCollector) (w : World) :
  ∃ service loop,
    let r := collectWith service loop (baseOf col) w in
    let r' := Collect unmarshal env ctx col w in
    r'.1.1.1 = r.1.1.1 ∧ baseOf r'.1.1.2 = r.1.1.2
    ∧ r'.1.2 = r.1.2 ∧ r'.2 = r.2
    ∧ (BaseCollector_Enabled (baseOf col) = false → r'.1.1.2 = col).
Proof.
  destruct col as [c|c|c]; cbn [Collect baseOf].
  - exists "SLB",
      (collectEach (λ metricName, CollectSLBMetric unmarshal env ctx metricName c)
         (Metrics (config (slbBase c))) 0).
    unfold SLBCollector_Collect.
    destruct (collectWith _ _ _ _) as [[[w1 bc1] sent] err] eqn:E. simpl.
    split_and!; try done. intros Hoff.
    rewrite collectWith_disabled in E by done. injection E as <- <- <- <-.
    by destruct c.
  - exists "Redis",
      (collectEach (λ metricName, CollectMetric unmarshal env ctx metricName (redisBase c))
         (Metrics (config (redisBase c))) 0).
    unfold RedisCollector_Collect.
    destruct (collectWith _ _ _ _) as [[[w1 bc1] sent] err] eqn:E. simpl.
    split_and!; try done. intros Hoff.
    rewrite collectWith_disabled in E by done. injection E as <- <- <- <-.
    by destruct c.
  - exists "RDS", (collectMetricsConcurrently unmarshal env ctx (rdsBase c)).
    unfold RDSCollector_Collect.
    destruct (collectWith _ _ _ _) as [[[w1 bc1] sent] err] eqn:E. simpl.
    split_and!; try done. intros Hoff.
    rewrite collectWith_disabled in E by done. injection E as <- <- <- <-.
    by destruct c.
Qed.

(** What identifies a collector and never changes: its name, its
    configuration and its descriptors. *)
Lemma Collect_keeps unmarshal env ctx (col : ServiceCollector) (w : World) :
  let col1 := (Collect unmarshal env ctx col w).1.1.2 in
  Name col1 = Name col
  ∧ config (baseOf col1) = config (baseOf col)
  ∧ metricDescs (baseOf col1) = metricDescs (baseOf col).
Proof.
  destruct (Collect_collectWith unmarshal env ctx col w)
    as (service & loop & _ & Hbase & _).
  cbv zeta in *. unfold Name, BaseCollector_Name. rewrite Hbase.
  destruct (collectWith_base service loop (baseOf col) w) as (? & ? & ? & _).
  done.
Qed.

(** X23. The books of a collector.  A disabled collector's [Collect] does
    nothing at all: same world, same collector, nothing sent, nil.  An enabled
    one adds one to its error counter exactly when it returns an error,
    observes one duration, the time the call took, and sets its last scrape
    time to the instant it returns.  Neither changes the collector's name,
    configuration or descriptors. *)
Theorem Collect_bookkeeping unmarshal env ctx (col : ServiceCollector) (w : World) :
  let r := Collect unmarshal env ctx col w in
  let w1 := r.1.1.1 in
  let col1 := r.1.1.2 in
  Name col1 = Name col
  ∧ config (baseOf col1) = config (baseOf col)
  ∧ metricDescs (baseOf col1) = metricDescs (baseOf col)
  ∧ if IsEnabled col
    then collector.scrapeErrors (baseOf col1)
         = (collector.scrapeErrors (baseOf col)
            + match r.2 with Some _ => 1 | None => 0 end)%nat
         ∧ collector.scrapeDuration (baseOf col1)
           = collector.scrapeDuration (baseOf col) ++ [clock w1 - clock w]
         ∧ lastScrape (baseOf col1) = clock w1
    else r = (w, col, [], None).
Proof.
  intros r w1 col1.
  destruct (Collect_keeps unmarshal env ctx col w) as (Hn & Hc & Hd).
  split; [exact Hn|]. split; [exact Hc|]. split; [exact Hd|].
  destruct (Collect_collectWith unmarshal env ctx col w)
    as (service & loop & Hw & Hbase & Hsent & Herr & Hoff).
  cbv zeta in *. subst col1 w1 r. unfold IsEnabled.
  destruct (BaseCollector_Enabled (baseOf col)) eqn:Hon.
  - rewrite Hbase, Hw, Herr. by apply collectWith_books.
  - rewrite collectWith_disabled in Hw, Hsent, Herr by done.
    specialize (Hoff eq_refl).
    destruct (Collect unmarshal env ctx col w) as [[[w1 col1] sent] err].
    simpl in *. by subst.
Qed.

(** ** The scrape *)

Lemma runCollectors_keeps unmarshal env ctx sched :
  ∀ cols errorCh (w : World),
    let r := runCollectors unmarshal env ctx sched cols errorCh w in
    map collectorIdentity r.1.1.2 = map collectorIdentity cols
    ∧ (length errorCh ≤ length r.2 ≤ length errorCh + length sched)%nat.
Proof.
  induction sched as [|i rest IH]; intros cols errorCh w; [simpl; split; [done|lia]|].
  cbn [runCollectors length].
  destruct (cols !! i) as [col|] eqn:Hi.
  2:{ destruct (IH cols errorCh w) as [? ?]. split; [done|lia]. }
  destruct (negb (IsEnabled col)).
  { destruct (IH cols errorCh w) as [? ?]. split; [done|lia]. }
  destruct (Collect_keeps unmarshal env ctx col w) as (Hn & Hc & Hd).
  destruct (Collect unmarshal env ctx col w) as [[[w1 col1] sent] err].
  cbn [fst snd] in Hn, Hc, Hd.
  match goal with
  | |- context [runCollectors unmarshal env ctx rest (<[i:=col1]> cols) ?ech w1] =>
      destruct (IH (<[i:=col1]> cols) ech w1) as [Hk Hl];
      assert (length errorCh ≤ length ech ≤ S (length errorCh))%nat as Hech
        by (destruct err; [rewrite length_app; simpl; lia|lia]);
      destruct (runCollectors unmarshal env ctx rest (<[i:=col1]> cols) ech w1)
        as [[[w2 cols2] sent2] errorCh2]
  end.
  cbn [fst snd] in *. split; [|lia].
  rewrite Hk, list_fmap_insert. apply list_insert_id.
  rewrite list_lookup_fmap, Hi. cbn. f_equal.
  unfold collectorIdentity. by rewrite Hn, Hc, Hd.
Qed.

Lemma runCollectors_disabled unmarshal env ctx sched cols :
  Forall (λ col, IsEnabled col = false) cols →
  ∀ errorCh (w : World),
    runCollectors unmarshal env ctx sched cols errorCh w = (w, cols, [], errorCh).
Proof.
  intros Hoff. induction sched as [|i rest IH]; intros errorCh w; [done|].
  cbn [runCollectors]. destruct (cols !! i) as [col|] eqn:Hi; [|apply IH].
  rewrite Forall_lookup in Hoff. rewrite (Hoff i col Hi). cbn [negb]. apply IH.
Qed.

Lemma collectorErrors_insert (cols : list ServiceCollector) i col col1 :
  cols !! i = Some col →
  (collectorErrors (<[i := col1]> cols) + collector.scrapeErrors (baseOf col)
   = collectorErrors cols + collector.scrapeErrors (baseOf col1))%nat.
Proof.
  unfold collectorErrors. revert i.
  induction cols as [|c cols IH]; intros [|i] Hi; try done; simpl in *.
  - injection Hi as ->. lia.
  - specialize (IH i Hi). lia.
Qed.

(** Every error a goroutine of the scrape puts on the error channel is one
    its collector has counted, and the other way round; no collector's
    counter goes down. *)
Lemma runCollectors_errors unmarshal env ctx sched :
  ∀ cols errorCh (w : World),
    let r := runCollectors unmarshal env ctx sched cols errorCh w in
    (length r.2 + collectorErrors cols
     = length errorCh + collectorErrors r.1.1.2)%nat
    ∧ Forall2 (λ col col1,
                 (collector.scrapeErrors (baseOf col)
                  ≤ collector.scrapeErrors (baseOf col1))%nat)
        cols r.1.1.2.
Proof.
  induction sched as [|i rest IH]; intros cols errorCh w.
  { simpl. split; [done|]. by apply Forall_Forall2_diag, Forall_forall. }
  cbn [runCollectors].
  destruct (cols !! i) as [col|] eqn:Hi; [|apply IH].
  destruct (IsEnabled col) eqn:Hon; cbn [negb]; [|apply IH].
  destruct (Collect_collectWith unmarshal env ctx col w)
    as (service & loop & _ & Hbase & _ & Herr & _).
  destruct (collectWith_books service loop (baseOf col) w Hon) as (Hcount & _).
  cbv zeta in Hbase, Herr, Hcount. rewrite <- Hbase, <- Herr in Hcount.
  destruct (Collect unmarshal env ctx col w) as [[[w1 col1] sent] err].
  cbn [fst snd] in Hcount.
  pose proof (collectorErrors_insert cols i col col1 Hi) as Hins.
  match goal with
  | |- context [runCollectors unmarshal env ctx rest (<[i:=col1]> cols) ?ech w1] =>
      destruct (IH (<[i:=col1]> cols) ech w1) as [Hsum Hmono];
      assert (length ech
              = length errorCh + match err with Some _ => 1 | None => 0 end)%nat
        as Hech by (destruct err; [rewrite length_app; simpl; lia|lia]);
      destruct (runCollectors unmarshal env ctx rest (<[i:=col1]> cols) ech w1)
        as [[[w2 cols2] sent2] errorCh2]
  end.
  cbn [fst snd] in *. split; [lia|].
  eapply Forall2_trans; [| |exact Hmono].
  { intros x y z Hxy Hyz. exact (Nat.le_trans _ _ _ Hxy Hyz). }
  rewrite <- (list_insert_id cols i col Hi) at 1.
  apply Forall2_insert; [|lia].
  by apply Forall_Forall2_diag, Forall_forall.
Qed.

(** X25. The books of a scrape.  The scrape counter goes up by one; one
    duration is observed, the time the scrape took, and the scrape time is
    the second at which it ends; [up] is 1 exactly when the probe succeeded.
    The exporter's error counter grows by one for a failed probe plus the
    number of errors its collectors returned, which is what the collectors'
    own error counters, none of which goes down, have grown by all together;
    the last-scrape-error flag is 1 exactly when a collector returned an
    error, whatever the probe did.  The collectors keep their number, order,
    names, configurations and descriptors, and the six metrics of the
    exporter are the last ones sent. *)
Theorem Exporter_Collect_accounting unmarshal env (e : Exporter) (w : World) :
  let r := Exporter_Collect unmarshal env e w in
  let e1 := r.1.1 in
  let w1 := r.1.2 in
  let probeFailed :=
    match DescribeMetricMetaList env (length (trace w)) with
    | Some _ => 1%nat
    | None => 0%nat
    end in
  totalScrapes e1 = S (totalScrapes e)
  ∧ exporter.scrapeDuration e1 = exporter.scrapeDuration e ++ [clock w1 - clock w]
  ∧ lastScrapeTime e1 = clock w1 `div` Second
  ∧ up e1 = match probeFailed with O => 1%float | S _ => 0%float end
  ∧ cfgMetricPrefix e1 = cfgMetricPrefix e
  ∧ map collectorIdentity (collectors e1) = map collectorIdentity (collectors e)
  ∧ Forall2 (λ col col1,
               (collector.scrapeErrors (baseOf col)
                ≤ collector.scrapeErrors (baseOf col1))%nat)
      (collectors e) (collectors e1)
  ∧ (exporter.scrapeErrors e1 + collectorErrors (collectors e)
     = exporter.scrapeErrors e + probeFailed + collectorErrors (collectors e1))%nat
  ∧ lastScrapeError e1
    = (if decide (collectorErrors (collectors e1) = collectorErrors (collectors e))
       then 0%float else 1%float)
  ∧ ∃ sent, r.2 = sent ++ exporterMetrics (cfgMetricPrefix e).
Proof.
  intros r e1 w1 probeFailed. subst r e1 w1 probeFailed.
  unfold Exporter_Collect, Health.
  destruct (DescribeMetricMetaList env (length (trace w))) as [herr|].
  - match goal with
    | |- context [runCollectors unmarshal env ?ctx ?sched ?cols [] ?w0] =>
        destruct (runCollectors_keeps unmarshal env ctx sched cols [] w0)
          as [Hk _];
        destruct (runCollectors_errors unmarshal env ctx sched cols [] w0)
          as [Hsum Hmono];
        destruct (runCollectors unmarshal env ctx sched cols [] w0)
          as [[[w2 cols2] sent] errorCh]
    end.
    cbn [fst snd length] in Hk, Hsum, Hmono.
    destruct errorCh as [|err errorCh]; cbn [length] in Hsum;
      cbn -[collectorErrors];
      split_and!;
      first [done | lia | by rewrite decide_True by lia
            | by rewrite decide_False by lia | by eexists].
  - match goal with
    | |- context [runCollectors unmarshal env ?ctx ?sched ?cols [] ?w0] =>
        destruct (runCollectors_keeps unmarshal env ctx sched cols [] w0)
          as [Hk _];
        destruct (runCollectors_errors unmarshal env ctx sched cols [] w0)
          as [Hsum Hmono];
        destruct (runCollectors unmarshal env ctx sched cols [] w0)
          as [[[w2 cols2] sent] errorCh]
    end.
    cbn [fst snd length] in Hk, Hsum, Hmono.
    destruct errorCh as [|err errorCh]; cbn [length] in Hsum;
      cbn -[collectorErrors];
      split_and!;
      first [done | lia | by rewrite decide_True by lia
            | by rewrite decide_False by lia | by eexists].
Qed.

(** X26. A scrape of an exporter none of whose collectors is enabled makes
    the probe's call and nothing else: no token is taken, the client and the
    collectors are as they were, the trace grows by the probe's call alone,
    only the exporter's six metrics are sent, and the last-scrape-error flag
    is 0 even when the probe failed. *)
Theorem Exporter_Collect_nothing_enabled unmarshal env (e : Exporter) (w : World) :
  Forall (λ col, IsEnabled col = false) (collectors e) →
  let r := Exporter_Collect unmarshal env e w in
  theClient r.1.2 = theClient w
  ∧ trace r.1.2 = trace w ++ [EvDescribeMetricMetaList]
  ∧ clock r.1.2 = clock w + Z.of_nat (latency env (length (trace w)))
  ∧ collectors r.1.1 = collectors e
  ∧ lastScrapeError r.1.1 = 0%float
  ∧ r.2 = exporterMetrics (cfgMetricPrefix e).
Proof.
  intros Hoff r. subst r. unfold Exporter_Collect, Health.
  destruct (DescribeMetricMetaList env (length (trace w))) as [herr|];
    by rewrite runCollectors_disabled.
Qed.

Lemma Exporter_Collect_nothing_enabled_witness :
  let e :=
    {| cfgMetricPrefix := "alicloud";
       collectors := [Redis (NewRedisCollector switchedOff ∅ "alicloud")];
       up := 0%float; totalScrapes := 0; exporter.scrapeErrors := 0;
       exporter.scrapeDuration := []; lastScrapeTime := 0;
       lastScrapeError := 0%float |} in
  let w := worldAt 0 (NewTagCache (5 * Minute)) [] in
  let r :=
    Exporter_Collect decodeOnePoint
      (withProbe (Some (SdkError "timeout")) (failingFor [])) e w in
  Forall (λ col, IsEnabled col = false) (collectors e)
  ∧ trace r.1.2 = [EvDescribeMetricMetaList]
  ∧ exporter.scrapeErrors r.1.1 = 1%nat
  ∧ lastScrapeError r.1.1 = 0%float.
Proof.
  intros e w r.
  assert (Forall (λ col, IsEnabled col = false) (collectors e)) as Hoff
    by (repeat constructor).
  split; [exact Hoff|].
  destruct (Exporter_Collect_nothing_enabled decodeOnePoint
              (withProbe (Some (SdkError "timeout")) (failingFor [])) e w Hoff)
    as (_ & Htrace & _ & _ & Hflag & _).
  split; [exact Htrace|]. split; [vm_compute; reflexivity|exact Hflag].
Defined.

(** X27. [initCollectors] registers a collector for exactly the services
    that are enabled, in the order SLB, Redis, RDS; each is of its service's
    kind, bears its name, holds its configuration, and shares the global
    labels and the metric prefix.  So every collector of a new exporter is an
    enabled one. *)
Theorem initCollectors_enabled_services (cfg : configuration.Config) :
  let services := configuration.Services cfg in
  let prom := configuration.Prometheus cfg in
  let cols := collectors (New cfg) in
  map Name cols
  = (if Enabled (configuration.SLB services) then ["slb"] else [])
    ++ (if Enabled (configuration.Redis services) then ["redis"] else [])
    ++ (if Enabled (configuration.RDS services) then ["rds"] else [])
  ∧ Forall (λ col,
              IsEnabled col = true
              ∧ globalLabels (baseOf col) = configuration.GlobalLabels prom
              ∧ metricPrefix (baseOf col) = configuration.MetricPrefix prom
              ∧ config (baseOf col)
                = match col with
                  | SLB _ => configuration.SLB services
                  | Redis _ => configuration.Redis services
                  | RDS _ => configuration.RDS services
                  end
              ∧ Name col
                = match col with
                  | SLB _ => "slb"
                  | Redis _ => "redis"
                  | RDS _ => "rds"
                  end)
      cols.
Proof.
  intros services prom cols. subst cols services prom.
  unfold New, initCollectors. cbn [collectors].
  destruct (Enabled (configuration.SLB _)) eqn:Hslb;
    destruct (Enabled (configuration.Redis _)) eqn:Hredis;
    destruct (Enabled (configuration.RDS _)) eqn:Hrds;
    (split; [reflexivity|]); cbn [app];
    repeat (constructor;
            [split_and!; try done;
             unfold IsEnabled, BaseCollector_Enabled; by cbn|]);
    constructor.
Qed.

(** ** The configuration *)

Lemma contains_elem (slice : list string) (item : string) :
  configuration.contains slice item = true ↔ item ∈ slice.
Proof.
  induction slice as [|s rest IH]; cbn [configuration.contains].
  - rewrite elem_of_nil. split; [done|tauto].
  - rewrite elem_of_cons. case_decide as Heq.
    + split; [intros _; left; done|done].
    + rewrite IH. split; [tauto|]. intros [->|?]; [done|tauto].
Qed.

(** X28. [Validate] returns nil exactly when the access key identifier, the
    access key secret and the region are not empty, the log level is one of
    debug, info, warn, error and the log format one of json, text.  It reads
    nothing else of the configuration: not the rate limit, the regions, the
    services or the Prometheus settings. *)
Theorem Validate_nil_iff (c : configuration.Config) :
  configuration.Validate c = None
  ↔ configuration.AccessKeyID (configuration.Alicloud c) ≠ ""
    ∧ configuration.AccessKeySecret (configuration.Alicloud c) ≠ ""
    ∧ configuration.Region (configuration.Alicloud c) ≠ ""
    ∧ configuration.LogLevel (configuration.Server c)
      ∈ ["debug"; "info"; "warn"; "error"]
    ∧ configuration.LogFormat (configuration.Server c) ∈ ["json"; "text"].
Proof.
  unfold configuration.Validate.
  rewrite <- !contains_elem.
  fold configuration.validLogLevels. fold configuration.validLogFormats.
  repeat case_decide; try (split; [done|tauto]).
  destruct (configuration.contains configuration.validLogLevels _);
    destruct (configuration.contains configuration.validLogFormats _);
    cbn [negb]; split; try done; intros (_ & _ & _ & ? & ?); done.
Qed.

(** A configuration with zero requests per second passes [Validate], and
    [NewClient] panics on it. *)
Example Validate_accepts_zero_rate :
  configuration.Validate (validConfig 0 20) = None
  ∧ NewClient 0 (λ _, None) (λ _, None) (configuration.Alicloud (validConfig 0 20))
    = None
  ∧ is_Some (NewClient 0 (λ _, None) (λ _, None)
               (configuration.Alicloud (validConfig 10 20))).
Proof.
  split_and!; [vm_compute; reflexivity|vm_compute; reflexivity|].
  vm_compute. by eexists.
Qed.

(** ** The construction of the client *)

Lemma insertRegions_spec (slbNew : string → option error) (regions : list string) :
  ∀ slbClients,
    NoDup slbClients →
    NoDup (foldl (insertRegion slbNew) slbClients regions)
    ∧ ∀ region,
        region ∈ foldl (insertRegion slbNew) slbClients regions
        ↔ region ∈ slbClients ∨ (region ∈ regions ∧ slbNew region = None).
Proof.
  induction regions as [|r rest IH]; intros slbClients Hnd; cbn [foldl].
  - split; [done|]. intros region. rewrite elem_of_nil. tauto.
  - assert (NoDup (insertRegion slbNew slbClients r)
            ∧ ∀ region, region ∈ insertRegion slbNew slbClients r
                        ↔ region ∈ slbClients ∨ (region = r ∧ slbNew region = None))
      as [Hnd1 Hin1].
    { unfold insertRegion. destruct (slbNew r) as [e|] eqn:Hr.
      - split; [done|]. intros region. split; [tauto|].
        intros [?|[-> ?]]; [done|congruence].
      - case_decide as Hin.
        + split; [done|]. intros region. split; [tauto|].
          intros [?|[-> ?]]; done.
        + split.
          * apply NoDup_app. split_and!; [done| |apply NoDup_singleton].
            intros x Hx ->%list_elem_of_singleton. done.
          * intros region. rewrite elem_of_app, list_elem_of_singleton.
            split; [intros [? | ->]; tauto|tauto]. }
    destruct (IH _ Hnd1) as [Hnd2 Hin2]. split; [done|].
    intros region. rewrite Hin2, Hin1, elem_of_cons. tauto.
Qed.

(** X29. What [NewClient] gives.  It returns an error exactly when the
    primary region's CMS or SLB client cannot be made.  Otherwise it panics
    exactly when the rate limit is unusable (a negative burst, or a number of
    requests per second below one or above a thousand million), a
    configuration [Validate] does not reject.  Otherwise the client has both
    caches empty, with time-to-live 30 seconds and 5 minutes, a full
    limiter, and one regional client for each of the configured regions
    (the primary one when none is configured) whose construction succeeded,
    each once: a region that fails is skipped, and the primary region is no
    fallback for it. *)
Theorem NewClient_outcome now cmsNew slbNew (cfg : configuration.AlicloudConfig) :
  let primary := configuration.Region cfg in
  let limit := configuration.RateLimit cfg in
  match NewClient now cmsNew slbNew cfg with
  | Some (inl err) =>
      (cmsNew primary ≠ None
       ∧ ∃ e, cmsNew primary = Some e ∧ err = Errorf "failed to create CMS client" e)
      ∨ (cmsNew primary = None
         ∧ ∃ e, slbNew primary = Some e ∧ err = Errorf "failed to create SLB client" e)
  | None =>
      cmsNew primary = None ∧ slbNew primary = None
      ∧ ¬ (0 ≤ configuration.Burst limit
           ∧ 1 ≤ configuration.RequestsPerSecond limit ≤ 1000000000)
  | Some (inr c) =>
      cmsNew primary = None ∧ slbNew primary = None
      ∧ cache c = NewMetricCache (30 * Second)
      ∧ tagCache c = NewTagCache (5 * Minute)
      ∧ GetRegion c = primary
      ∧ tokens (rateLimiter c) = burst (rateLimiter c)
      ∧ burst (rateLimiter c) = Z.to_nat (configuration.Burst limit)
      ∧ NoDup (slbClients c)
      ∧ ∀ region, region ∈ slbClients c
                  ↔ region ∈ regionsOf cfg ∧ slbNew region = None
  end.
Proof.
  intros primary limit. subst primary limit. unfold NewClient.
  destruct (cmsNew (configuration.Region cfg)) as [e|] eqn:Hcms.
  { left. split; [done|]. by exists e. }
  destruct (slbNew (configuration.Region cfg)) as [e|] eqn:Hslb.
  { right. split; [done|]. by exists e. }
  destruct (NewRateLimiter now _ _) as [rl|] eqn:Hrl.
  - destruct (NewRateLimiter_Some _ _ _ _ Hrl) as (-> & _ & _).
    cbn [cache tagCache GetRegion client.Region rateLimiter tokens burst slbClients].
    split_and!; try done.
    + exact (proj1 (insertRegions_spec slbNew _ [] (NoDup_nil_2))).
    + intros region.
      rewrite (proj2 (insertRegions_spec slbNew _ [] (NoDup_nil_2)) region).
      rewrite elem_of_nil.
      assert ((if decide (length (configuration.Regions cfg) = 0%nat)
               then [configuration.Region cfg] else configuration.Regions cfg)
              = regionsOf cfg) as ->.
      { unfold regionsOf. by destruct (configuration.Regions cfg). }
      tauto.
  - split_and!; try done. intros Hok.
    apply (NewRateLimiter_defined now) in Hok. rewrite Hrl in Hok.
    by destruct Hok.
Qed.

Lemma string_app_assoc (a b c : string) : (a +:+ b) +:+ c = a +:+ b +:+ c.
Proof.
  induction a as [|x a IH]; [done|].
  change (String x (a +:+ b +:+ c)) with (String x a +:+ b +:+ c) in *.
  change (String x ((a +:+ b) +:+ c) = String x (a +:+ b +:+ c)).
  by rewrite IH.
Qed.

Lemma appendDimensions_values (dimensions : list (string * string)) :
  ∀ first dimensionsJSON,
    appendDimensions dimensions first dimensionsJSON
    = dimensionsJSON
      +:+ (match dimensions with
           | [] => ""
           | _ => if first then "" else ","
           end)
      +:+ instanceIdObjects (map snd dimensions).
Proof.
  assert (∀ s : string, s +:+ "" = s) as Hnil.
  { induction s as [|x s IH]; [done|].
    change (String x (s +:+ "") = String x s). by rewrite IH. }
  induction dimensions as [|[key value] rest IH]; intros first dimensionsJSON.
  - cbn [appendDimensions map instanceIdObjects]. by rewrite !Hnil.
  - cbn [appendDimensions map snd instanceIdObjects]. rewrite IH.
    destruct rest as [|kv rest'].
    + cbn [map instanceIdObjects]. rewrite !Hnil.
      destruct first; [|by rewrite !string_app_assoc].
      done.
    + cbn [map]. destruct first; rewrite !string_app_assoc; done.
Qed.

(** X30. [GetMetricDataWithDimensions] by-passes the metric cache: whatever
    the cache holds, it takes a token first and, with one, makes the call; it
    returns what [GetMetricData] would on a miss, and leaves the cache as it
    was.  Of the dimensions it sends the values only, each as an instanceId
    object whatever its key, between brackets and separated by commas; with
    no dimension the field is left empty. *)
Theorem GetMetricDataWithDimensions_bypasses_cache env describe ctx
  namespace metricName dimensions (w : World) :
  let r :=
    GetMetricDataWithDimensions env describe ctx namespace metricName dimensions w in
  (∀ mc,
     GetMetricDataWithDimensions env describe ctx namespace metricName dimensions
       (setCache mc w)
     = (setCache mc r.1, r.2))
  ∧ cache (theClient r.1) = cache (theClient w)
  ∧ tagCache (theClient r.1) = tagCache (theClient w)
  ∧ (∃ err rest, trace r.1 = trace w ++ EvWait err :: rest
                 ∧ rest = match err with
                          | Some _ => []
                          | None => [EvDescribeMetricLast namespace metricName]
                          end)
  ∧ requestDimensions dimensions
    = match dimensions with
      | [] => ""
      | _ => "[" +:+ instanceIdObjects (map snd dimensions) +:+ "]"
      end.
Proof.
  intros r. subst r. unfold GetMetricDataWithDimensions, acquire.
  split_and!.
  - intros mc. cbn [setCache theClient clock trace rateLimiter].
    destruct (waitErr _); cbv zeta; [done|].
    unfold remoteCall. cbn [theClient clock trace].
    by destruct (describe _ _ _ _).
  - destruct (waitErr _); cbv zeta; [done|]. by destruct (describe _ _ _ _).
  - destruct (waitErr _); cbv zeta; [done|]. by destruct (describe _ _ _ _).
  - destruct (waitErr _) as [e|] eqn:He; cbv zeta.
    + by exists (Some e), [].
    + exists None, [EvDescribeMetricLast namespace metricName].
      destruct (describe _ _ _ _); cbn [fst trace remoteCall];
        by rewrite <- app_assoc.
  - unfold requestDimensions. destruct dimensions as [|kv rest]; [done|].
    rewrite decide_True by (simpl; lia).
    rewrite appendDimensions_values. by rewrite !string_app_assoc.
Qed.
